(** * The corosync cluster driver of sheepdog (sheep/cluster/corosync.c)

    A shallow embedding of the event pipeline of the driver: the node
    roster ([cpg_nodes], [nr_cpg_nodes]), the two event queues, the intake
    callbacks [cdrv_cpg_deliver] and [cdrv_cpg_confchg], and the dispatcher
    [__corosync_dispatch] with [__corosync_dispatch_one].

    Conventions of the embedding.
    - The file-scope variables of corosync.c form the record [state]; every
      C function that touches them takes and returns a [state].
    - A C array is a [list] whose length is the size of the array object;
      a store outside of it is undefined behaviour and ends the run with
      [UNDEFINED].  [exit] and [panic] end the run with [EXIT] and [PANIC].
    - The five [sd_*] handlers of the daemon are the fields of the class
      [Host]; they thread an abstract daemon state.  Every call of a handler
      and every multicast is also appended to the ghost field [log].
    - A [corosync_event] is a heap object; the ghost field [ev_id] is the
      identity of the allocation (a counter, never reused).
    - [nodeid], [pid], [gone] and the lengths on the wire are [uint32_t]
      values in [Z]; they are only copied and compared.  [nr_cpg_nodes] and
      the loop indices are in [nat]: they count slots of an array and no
      path wraps them.  The sum in the partition check is a [size_t] sum
      and wraps at [SIZE_MAX].
    - A load from a slot outside an array, which no path performs while the
      roster fits [cpg_nodes], reads [cpg_node_zero].
    - The operations of the driver ([corosync_init], [corosync_join],
      [corosync_leave], [corosync_block], [corosync_unblock],
      [corosync_notify], [corosync_get_local_addr]) call the corosync
      library; what the library answers is an input of the model, in the
      order of the calls.
    - Left out: logging, the failure of an allocation ([xzalloc], [realloc]),
      and the send path below [send_message]. *)

From Stdlib Require Import ZArith Lia Bool String.
From stdpp Require Import base list.

Local Open Scope Z_scope.

(** ** Enumerations *)

(** Event types which are dispatched in [__corosync_dispatch]. *)
Inductive corosync_event_type :=
| COROSYNC_EVENT_TYPE_JOIN_REQUEST
| COROSYNC_EVENT_TYPE_JOIN_RESPONSE
| COROSYNC_EVENT_TYPE_LEAVE
| COROSYNC_EVENT_TYPE_BLOCK
| COROSYNC_EVENT_TYPE_NOTIFY.

(** Multicast message types. *)
Inductive corosync_message_type :=
| COROSYNC_MSG_TYPE_JOIN_REQUEST
| COROSYNC_MSG_TYPE_JOIN_RESPONSE
| COROSYNC_MSG_TYPE_LEAVE
| COROSYNC_MSG_TYPE_NOTIFY
| COROSYNC_MSG_TYPE_BLOCK
| COROSYNC_MSG_TYPE_UNBLOCK.

(** The integer value of each enumerator, in declaration order.  The
    dispatcher compares an event type against message-type constants, so
    the values matter. *)
Definition event_type_value (t : corosync_event_type) : Z :=
  match t with
  | COROSYNC_EVENT_TYPE_JOIN_REQUEST => 0
  | COROSYNC_EVENT_TYPE_JOIN_RESPONSE => 1
  | COROSYNC_EVENT_TYPE_LEAVE => 2
  | COROSYNC_EVENT_TYPE_BLOCK => 3
  | COROSYNC_EVENT_TYPE_NOTIFY => 4
  end.

Definition message_type_value (t : corosync_message_type) : Z :=
  match t with
  | COROSYNC_MSG_TYPE_JOIN_REQUEST => 0
  | COROSYNC_MSG_TYPE_JOIN_RESPONSE => 1
  | COROSYNC_MSG_TYPE_LEAVE => 2
  | COROSYNC_MSG_TYPE_NOTIFY => 3
  | COROSYNC_MSG_TYPE_BLOCK => 4
  | COROSYNC_MSG_TYPE_UNBLOCK => 5
  end.

(** [cevent->type == type] *)
Definition event_type_eqb (a b : corosync_event_type) : bool :=
  event_type_value a =? event_type_value b.

(** Modelled from the spec: [enum cluster_join_result] is declared in
    cluster.h, which is not among the sources; the four results are the ones
    the wire format of the specification lists. *)
Inductive cluster_join_result :=
| CJ_RES_SUCCESS
| CJ_RES_FAIL
| CJ_RES_JOIN_LATER
| CJ_RES_MASTER_TRANSFER.

(** ** The host daemon

    cluster.h is not among the sources: the node descriptor [struct sd_node],
    the bound [SD_MAX_NODES] and the handlers the driver calls are
    parameters.  [indeterminate_gone] and [indeterminate_ent] stand for the
    contents of the uninitialised automatic arrays of [cdrv_cpg_confchg]. *)
Class Host := {
  sd_node : Type;
  sd_node_zero : sd_node;
  SD_MAX_NODES : nat;
  indeterminate_gone : Z;
  indeterminate_ent : sd_node;
  host : Type;
  sd_check_join_cb :
    sd_node -> list Byte.byte -> host -> cluster_join_result * host;
  sd_join_handler :
    sd_node -> list sd_node -> nat -> cluster_join_result ->
    option (list Byte.byte) -> host -> host;
  sd_leave_handler : sd_node -> list sd_node -> nat -> host -> host;
  sd_block_handler : sd_node -> host -> bool * host;
  sd_notify_handler : sd_node -> option (list Byte.byte) -> Z -> host -> host;
}.

Section Driver.
Context `{H : Host}.

(** ** Data *)

Record cpg_node := mk_cpg_node {
  nodeid : Z;
  pid : Z;
  gone : Z;
  ent : sd_node;
}.

Definition cpg_node_zero : cpg_node := mk_cpg_node 0 0 0 sd_node_zero.

#[export] Instance cpg_node_inhabited : Inhabited cpg_node :=
  populate cpg_node_zero.

(** The NodeId of a node: the pair [cpg_node_equal] compares. *)
Definition node_id (n : cpg_node) : Z * Z := (nodeid n, pid n).

Definition set_gone (g : Z) (n : cpg_node) : cpg_node :=
  mk_cpg_node (nodeid n) (pid n) g (ent n).

Definition set_ent (e : sd_node) (n : cpg_node) : cpg_node :=
  mk_cpg_node (nodeid n) (pid n) (gone n) e.

(** [struct cpg_address] of corosync, as far as the driver reads it. *)
Record cpg_address := mk_cpg_address {
  a_nodeid : Z;
  a_pid : Z;
}.

Record corosync_event := mk_event {
  ev_id : nat;
  type : corosync_event_type;
  sender : cpg_node;
  msg : option (list Byte.byte);
  msg_len : Z;
  result : cluster_join_result;
  nr_nodes : Z;
  nodes : list cpg_node;
  callbacked : bool;
}.

Record corosync_message := mk_message {
  m_sender : cpg_node;
  m_type : corosync_message_type;
  m_result : cluster_join_result;
  m_msg_len : Z;
  m_nr_nodes : Z;
  m_nodes : list cpg_node;
  m_msg : list Byte.byte;
}.

(** What the driver does to the outside: the calls of the handlers of the
    daemon and the multicasts of [send_message]. *)
Inductive action :=
| UP_check_join (ev : nat) (joining : sd_node) (opaque : list Byte.byte)
| UP_join (joined : sd_node) (members : list sd_node) (nr_members : nat)
    (res : cluster_join_result) (opaque : option (list Byte.byte))
| UP_leave (left : sd_node) (members : list sd_node) (nr_members : nat)
| UP_block (ev : nat) (blocker : sd_node)
| UP_notify (notifier : sd_node) (opaque : option (list Byte.byte)) (len : Z)
| SEND (ty : corosync_message_type) (res : cluster_join_result)
    (about : cpg_node) (members : list cpg_node) (nr_members : nat)
    (opaque : option (list Byte.byte)) (len : Z).

Record state := mk_state {
  cpg_nodes : list cpg_node;
  nr_cpg_nodes : nat;
  self_elect : bool;
  join_finished : bool;
  nr_majority : Z;
  this_node : cpg_node;
  corosync_block_event_list : list corosync_event;
  corosync_nonblock_event_list : list corosync_event;
  next_event : nat;
  host_state : host;
  log : list action;
}.

(** How a run of the process can end early. *)
Inductive halt :=
| EXIT (code : Z)
| PANIC (what : string)
| UNDEFINED
| OUT_OF_FUEL.

Inductive res (A : Type) :=
| Ret (a : A) (s : state)
| Halt (h : halt) (s : state).
Arguments Ret {A} a s.
Arguments Halt {A} h s.

(** Field updates of [state]. *)
Definition set_cpg_nodes (v : list cpg_node) (s : state) : state :=
  mk_state v (nr_cpg_nodes s) (self_elect s) (join_finished s) (nr_majority s)
    (this_node s) (corosync_block_event_list s)
    (corosync_nonblock_event_list s) (next_event s) (host_state s) (log s).

Definition set_nr_cpg_nodes (v : nat) (s : state) : state :=
  mk_state (cpg_nodes s) v (self_elect s) (join_finished s) (nr_majority s)
    (this_node s) (corosync_block_event_list s)
    (corosync_nonblock_event_list s) (next_event s) (host_state s) (log s).

Definition set_self_elect (v : bool) (s : state) : state :=
  mk_state (cpg_nodes s) (nr_cpg_nodes s) v (join_finished s) (nr_majority s)
    (this_node s) (corosync_block_event_list s)
    (corosync_nonblock_event_list s) (next_event s) (host_state s) (log s).

Definition set_join_finished (v : bool) (s : state) : state :=
  mk_state (cpg_nodes s) (nr_cpg_nodes s) (self_elect s) v (nr_majority s)
    (this_node s) (corosync_block_event_list s)
    (corosync_nonblock_event_list s) (next_event s) (host_state s) (log s).

Definition set_nr_majority (v : Z) (s : state) : state :=
  mk_state (cpg_nodes s) (nr_cpg_nodes s) (self_elect s) (join_finished s) v
    (this_node s) (corosync_block_event_list s)
    (corosync_nonblock_event_list s) (next_event s) (host_state s) (log s).

Definition set_this_node (v : cpg_node) (s : state) : state :=
  mk_state (cpg_nodes s) (nr_cpg_nodes s) (self_elect s) (join_finished s)
    (nr_majority s) v (corosync_block_event_list s)
    (corosync_nonblock_event_list s) (next_event s) (host_state s) (log s).

Definition set_block_list (v : list corosync_event) (s : state) : state :=
  mk_state (cpg_nodes s) (nr_cpg_nodes s) (self_elect s) (join_finished s)
    (nr_majority s) (this_node s) v
    (corosync_nonblock_event_list s) (next_event s) (host_state s) (log s).

Definition set_nonblock_list (v : list corosync_event) (s : state) : state :=
  mk_state (cpg_nodes s) (nr_cpg_nodes s) (self_elect s) (join_finished s)
    (nr_majority s) (this_node s) (corosync_block_event_list s)
    v (next_event s) (host_state s) (log s).

Definition set_next_event (v : nat) (s : state) : state :=
  mk_state (cpg_nodes s) (nr_cpg_nodes s) (self_elect s) (join_finished s)
    (nr_majority s) (this_node s) (corosync_block_event_list s)
    (corosync_nonblock_event_list s) v (host_state s) (log s).

Definition set_host_state (v : host) (s : state) : state :=
  mk_state (cpg_nodes s) (nr_cpg_nodes s) (self_elect s) (join_finished s)
    (nr_majority s) (this_node s) (corosync_block_event_list s)
    (corosync_nonblock_event_list s) (next_event s) v (log s).

(** Appends to the ghost log. *)
Definition record (a : action) (s : state) : state :=
  mk_state (cpg_nodes s) (nr_cpg_nodes s) (self_elect s) (join_finished s)
    (nr_majority s) (this_node s) (corosync_block_event_list s)
    (corosync_nonblock_event_list s) (next_event s) (host_state s)
    (log s ++ [a]).

(** Field updates of an event. *)
Definition set_type (v : corosync_event_type) (e : corosync_event) :=
  mk_event (ev_id e) v (sender e) (msg e) (msg_len e) (result e)
    (nr_nodes e) (nodes e) (callbacked e).

Definition set_sender (v : cpg_node) (e : corosync_event) :=
  mk_event (ev_id e) (type e) v (msg e) (msg_len e) (result e)
    (nr_nodes e) (nodes e) (callbacked e).

Definition set_msg (v : option (list Byte.byte)) (e : corosync_event) :=
  mk_event (ev_id e) (type e) (sender e) v (msg_len e) (result e)
    (nr_nodes e) (nodes e) (callbacked e).

Definition set_msg_len (v : Z) (e : corosync_event) :=
  mk_event (ev_id e) (type e) (sender e) (msg e) v (result e)
    (nr_nodes e) (nodes e) (callbacked e).

Definition set_result (v : cluster_join_result) (e : corosync_event) :=
  mk_event (ev_id e) (type e) (sender e) (msg e) (msg_len e) v
    (nr_nodes e) (nodes e) (callbacked e).

Definition set_nr_nodes (v : Z) (e : corosync_event) :=
  mk_event (ev_id e) (type e) (sender e) (msg e) (msg_len e) (result e)
    v (nodes e) (callbacked e).

Definition set_nodes (v : list cpg_node) (e : corosync_event) :=
  mk_event (ev_id e) (type e) (sender e) (msg e) (msg_len e) (result e)
    (nr_nodes e) v (callbacked e).

Definition set_callbacked (v : bool) (e : corosync_event) :=
  mk_event (ev_id e) (type e) (sender e) (msg e) (msg_len e) (result e)
    (nr_nodes e) (nodes e) v.

(** The two event lists.  A pointer to a queued event is the list it is on
    and its position there. *)
Inductive event_list := BLOCK_LIST | NONBLOCK_LIST.

Definition events (q : event_list) (s : state) : list corosync_event :=
  match q with
  | BLOCK_LIST => corosync_block_event_list s
  | NONBLOCK_LIST => corosync_nonblock_event_list s
  end.

Definition set_events (q : event_list) (v : list corosync_event) (s : state) :=
  match q with
  | BLOCK_LIST => set_block_list v s
  | NONBLOCK_LIST => set_nonblock_list v s
  end.

(** A store through the pointer [(q, i)]. *)
Definition update_at (q : event_list) (i : nat)
    (f : corosync_event -> corosync_event) (s : state) : state :=
  set_events q (alter f i (events q s)) s.

(** [list_del(&cevent->list); free(cevent->msg); free(cevent);] *)
Definition list_del (q : event_list) (i : nat) (s : state) : state :=
  set_events q (delete i (events q s)) s.

(** ** The roster *)

Definition cpg_node_equal (a b : cpg_node) : bool :=
  (nodeid a =? nodeid b) && (pid a =? pid b).

(** The loop of [find_cpg_node], at index [i] with [todo] iterations left. *)
Fixpoint find_cpg_node_from (nodes : list cpg_node) (key : cpg_node)
    (i todo : nat) : Z :=
  match todo with
  | O => -1
  | S todo' =>
      if cpg_node_equal (nodes !!! i) key then Z.of_nat i
      else find_cpg_node_from nodes key (S i) todo'
  end.

Definition find_cpg_node (nodes : list cpg_node) (nr_nodes : nat)
    (key : cpg_node) : Z :=
  find_cpg_node_from nodes key 0 nr_nodes.

(** [nodes[nr_nodes++] = *added;]  The increment is of the callee's copy of
    [nr_nodes]; the store is outside the array when [nr_nodes] is its size. *)
Definition add_cpg_node (nodes : list cpg_node) (nr_nodes : nat)
    (added : cpg_node) : option (list cpg_node) :=
  if decide (nr_nodes < length nodes)%nat
  then Some (<[nr_nodes := added]> nodes)
  else None.

(** [memmove(nodes + dst, nodes + src, sizeof( *nodes) * n)] for
    [dst <= src], inside the array. *)
Definition memmove_nodes (nodes : list cpg_node) (dst src n : nat) :=
  take dst nodes ++ take n (drop src nodes) ++ drop (dst + n) nodes.

Definition del_cpg_node (nodes : list cpg_node) (nr_nodes : nat)
    (deled : cpg_node) : list cpg_node :=
  let idx := find_cpg_node nodes nr_nodes deled in
  if idx <? 0 then nodes
  else
    let nr_nodes := (nr_nodes - 1)%nat in
    memmove_nodes nodes (Z.to_nat idx) (Z.to_nat idx + 1)
      (nr_nodes - Z.to_nat idx).

(** [memcpy(dst, src, sizeof( *src) * n)] between two arrays; [None] when
    [n] elements do not fit. *)
Definition memcpy_nodes (dst src : list cpg_node) (n : nat) :=
  if decide (n <= length src /\ n <= length dst)%nat
  then Some (take n src ++ drop n dst)
  else None.

(** The members: the first [nr_cpg_nodes] slots of [cpg_nodes]. *)
Definition roster (s : state) : list cpg_node :=
  take (nr_cpg_nodes s) (cpg_nodes s).

(** The loop of [is_master]: the first slot from [i] on that is not gone. *)
Fixpoint first_not_gone_from (nodes : list cpg_node) (i todo : nat)
    : option nat :=
  match todo with
  | O => None
  | S todo' =>
      if gone (nodes !!! i) =? 0 then Some i
      else first_not_gone_from nodes (S i) todo'
  end.

Definition is_master (node : option cpg_node) (s : state) : Z :=
  let n := default (this_node s) node in
  if (nr_cpg_nodes s =? 0)%nat then 0
  else
    match first_not_gone_from (cpg_nodes s) 0 SD_MAX_NODES with
    | None => -1
    | Some i =>
        if cpg_node_equal (cpg_nodes s !!! i) n then Z.of_nat i else -1
    end.

Definition build_node_list (nodes : list cpg_node) (nr_nodes : nat)
    : list sd_node :=
  map ent (take nr_nodes nodes).

(** ** Sequencing of steps that may end the run *)

Definition bind {A B : Type} (m : res A) (k : A -> state -> res B) : res B :=
  match m with
  | Ret a s => k a s
  | Halt h s => Halt h s
  end.

(** The state in which a step ended, whichever way it ended. *)
Definition final {A : Type} (m : res A) : state :=
  match m with
  | Ret _ s => s
  | Halt _ s => s
  end.

(** Whether a step returned, rather than ended the run. *)
Definition returns {A : Type} (m : res A) : bool :=
  match m with
  | Ret _ _ => true
  | Halt _ _ => false
  end.

(** ** Events *)

(** [send_message]: the multicast is an output.  The retry loop on
    [CS_ERR_TRY_AGAIN] and the return value, which no caller in the
    dispatcher reads, are left out. *)
Definition send_message (ty : corosync_message_type)
    (res : cluster_join_result) (sender : cpg_node) (nodes : list cpg_node)
    (nr_nodes : nat) (msg : option (list Byte.byte)) (msg_len : Z)
    (s : state) : state :=
  record (SEND ty res sender (take nr_nodes nodes) nr_nodes msg msg_len) s.

(** The test of the [list_for_each_entry] loops of [find_block_event] and
    [find_nonblock_event]. *)
Definition event_matches (ty : corosync_event_type) (sender' : cpg_node)
    (cevent : corosync_event) : bool :=
  event_type_eqb (type cevent) ty && cpg_node_equal (sender cevent) sender'.

Definition find_on (l : list corosync_event) (ty : corosync_event_type)
    (sender' : cpg_node) : option nat :=
  fst <$> list_find (fun cevent => event_matches ty sender' cevent = true) l.

Definition find_block_event (ty : corosync_event_type) (sender' : cpg_node)
    (s : state) : option nat :=
  find_on (corosync_block_event_list s) ty sender'.

Definition find_nonblock_event (ty : corosync_event_type) (sender' : cpg_node)
    (s : state) : option nat :=
  find_on (corosync_nonblock_event_list s) ty sender'.

Definition find_event (ty : corosync_event_type) (sender' : cpg_node)
    (s : state) : option (event_list * nat) :=
  if event_type_eqb ty COROSYNC_EVENT_TYPE_BLOCK
  then pair BLOCK_LIST <$> find_block_event ty sender' s
  else pair NONBLOCK_LIST <$> find_nonblock_event ty sender' s.

(** A payload of [len] bytes copied out of [bytes], or [NULL] when [len]
    is zero. *)
Definition copy_payload (bytes : list Byte.byte) (len : Z)
    : option (list Byte.byte) :=
  if len =? 0 then None else Some (take (Z.to_nat len) bytes).

Definition update_event (ty : corosync_event_type) (sender' : cpg_node)
    (bytes : list Byte.byte) (len : Z) (s : state)
    : option (event_list * nat) * state :=
  match find_event ty sender' s with
  | None => (None, s)
  | Some (q, i) =>
      (Some (q, i),
       update_at q i (fun e => set_msg (copy_payload bytes len)
                                 (set_msg_len len e)) s)
  end.

(** [xzalloc(sizeof( *cevent))]: an all-zero event with a fresh identity. *)
Definition xzalloc_event (s : state) : corosync_event * state :=
  (mk_event (next_event s) COROSYNC_EVENT_TYPE_JOIN_REQUEST cpg_node_zero
     None 0 CJ_RES_SUCCESS 0 (replicate SD_MAX_NODES cpg_node_zero) false,
   set_next_event (S (next_event s)) s).

Definition queue_event (cevent : corosync_event) (s : state) : state :=
  if event_type_eqb (type cevent) COROSYNC_EVENT_TYPE_BLOCK
  then set_block_list (corosync_block_event_list s ++ [cevent]) s
  else set_nonblock_list (corosync_nonblock_event_list s ++ [cevent]) s.

(** ** The dispatcher *)

(** Process one dispatch event, the head of list [q].  Returns [true] if the
    event is processed. *)
Definition __corosync_dispatch_one (q : event_list) (cevent : corosync_event)
    (s : state) : res bool :=
  match type cevent with
  | COROSYNC_EVENT_TYPE_JOIN_REQUEST =>
      if is_master (Some (this_node s)) s <? 0 then Ret false s
      else
        match msg cevent with
        | None => Ret false s
        | Some m =>
            if callbacked cevent then Ret false s
            else
              let '(res, h) :=
                sd_check_join_cb (ent (sender cevent)) m (host_state s) in
              let s :=
                record (UP_check_join (ev_id cevent) (ent (sender cevent)) m)
                  (set_host_state h s) in
              let s :=
                match res with
                | CJ_RES_MASTER_TRANSFER => set_nr_cpg_nodes 0 s
                | _ => s
                end in
              let s :=
                send_message COROSYNC_MSG_TYPE_JOIN_RESPONSE res
                  (sender cevent) (cpg_nodes s) (nr_cpg_nodes s)
                  (msg cevent) (msg_len cevent) s in
              match res with
              | CJ_RES_MASTER_TRANSFER => Halt (EXIT 1) s
              | _ => Ret false (update_at q 0 (set_callbacked true) s)
              end
        end
  | COROSYNC_EVENT_TYPE_JOIN_RESPONSE =>
      let join_handler (s : state) :=
        let entries := build_node_list (cpg_nodes s) (nr_cpg_nodes s) in
        record (UP_join (ent (sender cevent)) entries (nr_cpg_nodes s)
                  (result cevent) (msg cevent))
          (set_host_state
             (sd_join_handler (ent (sender cevent)) entries (nr_cpg_nodes s)
                (result cevent) (msg cevent) (host_state s)) s) in
      match result cevent with
      | CJ_RES_SUCCESS | CJ_RES_MASTER_TRANSFER | CJ_RES_JOIN_LATER =>
          match add_cpg_node (cpg_nodes s) (nr_cpg_nodes s) (sender cevent) with
          | None => Halt UNDEFINED s
          | Some nodes' =>
              Ret true
                (join_handler
                   (set_nr_cpg_nodes (S (nr_cpg_nodes s))
                      (set_cpg_nodes nodes' s)))
          end
      | CJ_RES_FAIL => Ret true (join_handler s)
      end
  | COROSYNC_EVENT_TYPE_LEAVE =>
      let idx := find_cpg_node (cpg_nodes s) (nr_cpg_nodes s) (sender cevent) in
      if idx <? 0 then Ret true s
      else
        let sender' :=
          set_ent (ent (cpg_nodes s !!! Z.to_nat idx)) (sender cevent) in
        let s := update_at q 0 (set_sender sender') s in
        let s :=
          set_cpg_nodes (del_cpg_node (cpg_nodes s) (nr_cpg_nodes s) sender')
            s in
        let s := set_nr_cpg_nodes (nr_cpg_nodes s - 1)%nat s in
        let entries := build_node_list (cpg_nodes s) (nr_cpg_nodes s) in
        Ret true
          (record (UP_leave (ent sender') entries (nr_cpg_nodes s))
             (set_host_state
                (sd_leave_handler (ent sender') entries (nr_cpg_nodes s)
                   (host_state s)) s))
  | COROSYNC_EVENT_TYPE_BLOCK =>
      if callbacked cevent then Ret false s
      else
        let '(accepted, h) :=
          sd_block_handler (ent (sender cevent)) (host_state s) in
        Ret false
          (update_at q 0 (set_callbacked accepted)
             (record (UP_block (ev_id cevent) (ent (sender cevent)))
                (set_host_state h s)))
  | COROSYNC_EVENT_TYPE_NOTIFY =>
      Ret true
        (record (UP_notify (ent (sender cevent)) (msg cevent) (msg_len cevent))
           (set_host_state
              (sd_notify_handler (ent (sender cevent)) (msg cevent)
                 (msg_len cevent) (host_state s)) s))
  end.

(** The choice of [cevent] at the top of the loop of [__corosync_dispatch]:
    the list it is taken from and the event.  [None] when both lists are
    empty, which is when the loop ends. *)
Definition first_event (s : state) : option (event_list * corosync_event) :=
  match corosync_nonblock_event_list s with
  | cevent :: _ => Some (NONBLOCK_LIST, cevent)
  | [] =>
      match corosync_block_event_list s with
      | cevent :: _ => Some (BLOCK_LIST, cevent)
      | [] => None
      end
  end.

(** The block under the comment "update join status". *)
Definition update_join_status (cevent : corosync_event) (s : state)
    : res unit :=
  if join_finished s then Ret tt s
  else
    match type cevent with
    | COROSYNC_EVENT_TYPE_JOIN_REQUEST =>
        if self_elect s
        then Ret tt (set_nr_cpg_nodes 0 (set_join_finished true s))
        else Ret tt s
    | COROSYNC_EVENT_TYPE_JOIN_RESPONSE =>
        if cpg_node_equal (sender cevent) (this_node s) then
          match memcpy_nodes (cpg_nodes s) (nodes cevent)
                  (Z.to_nat (nr_nodes cevent)) with
          | None => Halt UNDEFINED s
          | Some nodes' =>
              Ret tt
                (set_cpg_nodes nodes'
                   (set_nr_cpg_nodes (Z.to_nat (nr_nodes cevent))
                      (set_join_finished true s)))
          end
        else Ret tt s
    | _ => Ret tt s
    end.

(** One iteration of the loop on [cevent], the head of list [q].  [true]:
    the event was unlinked and the loop goes on; [false]: the function
    returns. *)
Definition dispatch_event (q : event_list) (cevent : corosync_event)
    (s : state) : res bool :=
  bind (update_join_status cevent s) (fun _ s =>
    if join_finished s then
      bind (__corosync_dispatch_one q cevent s) (fun processed s =>
        if processed then Ret true (list_del q 0 s) else Ret false s)
    else if (event_type_value (type cevent)
               =? message_type_value COROSYNC_MSG_TYPE_JOIN_REQUEST)
            || (event_type_value (type cevent)
                  =? message_type_value COROSYNC_MSG_TYPE_BLOCK)
    then Ret false s
    else Ret true (list_del q 0 s)).

(** The loop, with a bound on the number of iterations. *)
Fixpoint dispatch_loop (fuel : nat) (s : state) : res unit :=
  match first_event s with
  | None => Ret tt s
  | Some (q, cevent) =>
      match fuel with
      | O => Halt OUT_OF_FUEL s
      | S fuel' =>
          bind (dispatch_event q cevent s) (fun continue s =>
            if continue then dispatch_loop fuel' s else Ret tt s)
      end
  end.

(** [pending] is the answer of [poll(&pfd, 1, 0)]: there are incoming
    events on [cpg_fd].  Every iteration that goes on unlinks an event, so
    the number of queued events bounds the iterations. *)
Definition __corosync_dispatch (pending : bool) (s : state) : res unit :=
  if pending then Ret tt s
  else
    dispatch_loop
      (length (corosync_block_event_list s)
       + length (corosync_nonblock_event_list s))
      (set_nr_majority 0 s).

(** ** Intake: message delivery *)

(** The allocation shared by the BLOCK, NOTIFY and LEAVE cases: a new event
    of type [ty] with the sender and a copy of the payload of [cmsg]. *)
Definition event_of_message (ty : corosync_event_type)
    (cmsg : corosync_message) (s : state) : corosync_event * state :=
  let '(cevent, s) := xzalloc_event s in
  (set_msg (copy_payload (m_msg cmsg) (m_msg_len cmsg))
     (set_msg_len (m_msg_len cmsg)
        (set_sender (m_sender cmsg) (set_type ty cevent))), s).

(** [master = is_master(node); if (master >= 0) cpg_nodes[master].gone = 1;] *)
Definition revoke_mastership (node : cpg_node) (s : state) : state :=
  let master := is_master (Some node) s in
  if 0 <=? master
  then set_cpg_nodes (alter (set_gone 1) (Z.to_nat master) (cpg_nodes s)) s
  else s.

(** The [switch] of [cdrv_cpg_deliver]. *)
Definition deliver_message (cmsg : corosync_message) (s : state) : res unit :=
  match m_type cmsg with
  | COROSYNC_MSG_TYPE_JOIN_REQUEST =>
      match update_event COROSYNC_EVENT_TYPE_JOIN_REQUEST (m_sender cmsg)
              (m_msg cmsg) (m_msg_len cmsg) s with
      | (None, s) => Ret tt s
      | (Some (q, i), s) =>
          Ret tt
            (update_at q i
               (fun e => set_msg_len (m_msg_len cmsg)
                           (set_sender (m_sender cmsg) e)) s)
      end
  | COROSYNC_MSG_TYPE_UNBLOCK =>
      let s :=
        match update_event COROSYNC_EVENT_TYPE_BLOCK (m_sender cmsg)
                (m_msg cmsg) (m_msg_len cmsg) s with
        | (None, s) => s
        | (Some (q, i), s) => list_del q i s
        end in
      (* fall through *)
      let '(cevent, s) := event_of_message COROSYNC_EVENT_TYPE_NOTIFY cmsg s in
      Ret tt (queue_event cevent s)
  | COROSYNC_MSG_TYPE_BLOCK =>
      let '(cevent, s) := event_of_message COROSYNC_EVENT_TYPE_BLOCK cmsg s in
      Ret tt (queue_event cevent s)
  | COROSYNC_MSG_TYPE_NOTIFY =>
      let '(cevent, s) := event_of_message COROSYNC_EVENT_TYPE_NOTIFY cmsg s in
      Ret tt (queue_event cevent s)
  | COROSYNC_MSG_TYPE_LEAVE =>
      let '(cevent, s) := xzalloc_event s in
      let cevent := set_type COROSYNC_EVENT_TYPE_LEAVE cevent in
      let s := revoke_mastership (m_sender cmsg) s in
      let cevent :=
        set_msg (copy_payload (m_msg cmsg) (m_msg_len cmsg))
          (set_msg_len (m_msg_len cmsg) (set_sender (m_sender cmsg) cevent)) in
      Ret tt (queue_event cevent s)
  | COROSYNC_MSG_TYPE_JOIN_RESPONSE =>
      match update_event COROSYNC_EVENT_TYPE_JOIN_REQUEST (m_sender cmsg)
              (m_msg cmsg) (m_msg_len cmsg) s with
      | (None, s) => Ret tt s
      | (Some (q, i), s) =>
          match events q s !! i with
          | None => Ret tt s
          | Some cevent =>
              match memcpy_nodes (nodes cevent) (m_nodes cmsg)
                      (Z.to_nat (m_nr_nodes cmsg)) with
              | None => Halt UNDEFINED s
              | Some nodes' =>
                  Ret tt
                    (update_at q i
                       (fun e =>
                          set_nodes nodes'
                            (set_nr_nodes (m_nr_nodes cmsg)
                               (set_result (m_result cmsg)
                                  (set_type COROSYNC_EVENT_TYPE_JOIN_RESPONSE
                                     e)))) s)
              end
          end
      end
  end.

Definition cdrv_cpg_deliver (cmsg : corosync_message) (pending : bool)
    (s : state) : res unit :=
  bind (deliver_message cmsg s) (fun _ s => __corosync_dispatch pending s).

(** ** Intake: configuration change *)

(** [size_t] of the LP64 targets corosync runs on. *)
Definition SIZE_MAX : Z := 2 ^ 64 - 1.

(** The block under the comment "check network partition". *)
Definition check_network_partition
    (member_list_entries left_list_entries : Z) (s : state) : res unit :=
  if left_list_entries =? 0 then Ret tt s
  else
    let s :=
      if nr_majority s =? 0 then
        let total :=
          (member_list_entries + left_list_entries) mod (SIZE_MAX + 1) in
        if 2 <? total then set_nr_majority (total / 2 + 1) s else s
      else s in
    if member_list_entries =? 0 then Halt (PANIC "NIC failure?") s
    else if member_list_entries <? nr_majority s
    then Halt (PANIC "Network partition is detected") s
    else Ret tt s.

(** Stores the node and process ids of [addrs] into the first slots of
    [nodes]; [None] when [addrs] is longer than the array. *)
Definition build_cpg_node_list (nodes : list cpg_node)
    (addrs : list cpg_address) : option (list cpg_node) :=
  if decide (length addrs <= length nodes)%nat then
    Some (zip_with
            (fun a n => mk_cpg_node (a_nodeid a) (a_pid a) (gone n) (ent n))
            addrs nodes
          ++ drop (length addrs) nodes)
  else None.

(** A slot of an automatic array after [build_cpg_node_list] has stored
    address [a] to it. *)
Definition sheep (a : cpg_address) : cpg_node :=
  mk_cpg_node (a_nodeid a) (a_pid a) indeterminate_gone indeterminate_ent.

(** An automatic array [struct cpg_node x[SD_MAX_NODES]] before anything is
    stored to it. *)
Definition automatic_nodes : list cpg_node :=
  replicate SD_MAX_NODES
    (mk_cpg_node 0 0 indeterminate_gone indeterminate_ent).

(** The body of the loop over the left list ("dispatch leave_handler"). *)
Definition confchg_left (left_node : cpg_node) (s : state) : state :=
  match find_event COROSYNC_EVENT_TYPE_JOIN_REQUEST left_node s with
  | Some (q, i) =>
      (* the node left before joining *)
      list_del q i s
  | None =>
      let s :=
        match find_event COROSYNC_EVENT_TYPE_BLOCK left_node s with
        | Some (q, i) =>
            (* the node left before sending UNBLOCK *)
            list_del q i s
        | None => s
        end in
      let '(cevent, s) := xzalloc_event s in
      let s := revoke_mastership left_node s in
      queue_event
        (set_sender left_node (set_type COROSYNC_EVENT_TYPE_LEAVE cevent)) s
  end.

(** The body of the loop over the joined list ("dispatch join_handler"). *)
Definition confchg_joined (joined_node : cpg_node) (s : state) : state :=
  let '(cevent, s) := xzalloc_event s in
  queue_event
    (set_sender joined_node (set_type COROSYNC_EVENT_TYPE_JOIN_REQUEST cevent))
    s.

(** The loop that decides [promote]: it stops at the first member without a
    queued JOIN_REQUEST event. *)
Fixpoint all_members_joining (members : list cpg_node) (s : state) : bool :=
  match members with
  | [] => true
  | m :: members' =>
      match find_event COROSYNC_EVENT_TYPE_JOIN_REQUEST m s with
      | None => false
      | Some _ => all_members_joining members' s
      end
  end.

(** The callback between the partition check and the call of the
    dispatcher: the conversion of the three lists and the events queued for
    them. *)
Definition confchg_events
    (member_list left_list joined_list : list cpg_address)
    (s : state) : res unit :=
  let member_list_entries := length member_list in
  let left_list_entries := length left_list in
  let joined_list_entries := length joined_list in
  (* convert cpg_address to cpg_node *)
  match build_cpg_node_list automatic_nodes member_list,
        build_cpg_node_list automatic_nodes left_list,
        build_cpg_node_list automatic_nodes joined_list with
  | Some member_sheep, Some left_sheep, Some joined_sheep =>
      let s := foldl (fun s n => confchg_left n s) s
                 (take left_list_entries left_sheep) in
      let s := foldl (fun s n => confchg_joined n s) s
                 (take joined_list_entries joined_sheep) in
      Ret tt
        (if join_finished s then s
         else if all_members_joining
                   (take member_list_entries member_sheep) s
         then set_self_elect true s
         else s)
  | _, _, _ => Halt UNDEFINED s
  end.

Definition cdrv_cpg_confchg
    (member_list left_list joined_list : list cpg_address)
    (pending : bool) (s : state) : res unit :=
  bind (check_network_partition (Z.of_nat (length member_list))
          (Z.of_nat (length left_list)) s) (fun _ s =>
    bind (confchg_events member_list left_list joined_list s) (fun _ s =>
      __corosync_dispatch pending s)).

(** ** Runs *)

(** The state after [corosync_init]: zeroed file-scope variables, the
    identity of this node, nothing queued. *)
Definition initial_state (self : cpg_node) (h : host) : state :=
  mk_state (replicate SD_MAX_NODES cpg_node_zero) 0 false false 0 self
    [] [] 0 h [].

(** One callback of [cpg_dispatch]. *)
Inductive callback :=
| DELIVER (cmsg : corosync_message) (pending : bool)
| CONFCHG (member_list left_list joined_list : list cpg_address)
    (pending : bool).

Definition handle (c : callback) (s : state) : res unit :=
  match c with
  | DELIVER cmsg pending => cdrv_cpg_deliver cmsg pending s
  | CONFCHG member_list left_list joined_list pending =>
      cdrv_cpg_confchg member_list left_list joined_list pending s
  end.

(** A sequence of callbacks; nothing runs after the process has ended. *)
Fixpoint run (cs : list callback) (s : state) : res unit :=
  match cs with
  | [] => Ret tt s
  | c :: cs' => bind (handle c s) (fun _ s => run cs' s)
  end.

(** ** The operations of the driver

    The calls into the corosync library are inputs: each operation takes the
    answers the library gives, in the order of the calls. *)

(** The values of [cs_error_t] the driver tells apart; [CS_ERR_OTHER] is any
    value that is none of the three named ones. *)
Inductive cs_error_t :=
| CS_OK
| CS_ERR_TRY_AGAIN
| CS_ERR_SECURITY
| CS_ERR_OTHER (code : Z).

(** The loop at [retry:] of [send_message] over the successive answers of
    [cpg_mcast_joined]: the value [send_message] returns and the number of
    calls of [sleep(1)].  [None]: the answers have run out and the loop is
    still going on. *)
Fixpoint send_message_retry (answers : list cs_error_t) : option (Z * nat) :=
  match answers with
  | [] => None
  | CS_OK :: _ => Some (0, 0%nat)
  | CS_ERR_TRY_AGAIN :: answers' =>
      match send_message_retry answers' with
      | Some (ret, slept) => Some (ret, S slept)
      | None => None
      end
  | _ :: _ => Some (-1, 0%nat)
  end.

(** [send_message] with its loop and its return value: the multicast is an
    output when [cpg_mcast_joined] answers [CS_OK]. *)
Definition send_message_answered (answers : list cs_error_t)
    (ty : corosync_message_type) (res : cluster_join_result)
    (sender : cpg_node) (nodes : list cpg_node) (nr_nodes : nat)
    (msg : option (list Byte.byte)) (msg_len : Z) (s : state)
    : option (Z * state) :=
  match send_message_retry answers with
  | None => None
  | Some (ret, _) =>
      if ret =? 0
      then Some (ret, send_message ty res sender nodes nr_nodes msg msg_len s)
      else Some (ret, s)
  end.

(** The message of a multicast as [cdrv_cpg_deliver] receives it: the header
    [send_message] initialises, with [msg_len] and [nr_nodes] converted to
    [uint32_t] and the roster copied into the zeroed array [cmsg.nodes],
    followed by the [msg_len] bytes of the payload, if there is one. *)
Definition wire (a : action) : option corosync_message :=
  match a with
  | SEND ty res about members nr_members opaque len =>
      Some (mk_message about ty res (len mod 2 ^ 32)
              (Z.of_nat nr_members mod 2 ^ 32)
              (members
               ++ replicate (SD_MAX_NODES - length members) cpg_node_zero)
              (match opaque with
               | Some bytes => take (Z.to_nat len) bytes
               | None => []
               end))
  | _ => None
  end.

(** The loop at [retry:] of [corosync_join] over the answers of [cpg_join]:
    [true] when the group is joined. *)
Fixpoint cpg_join_retry (answers : list cs_error_t) : option bool :=
  match answers with
  | [] => None
  | CS_OK :: _ => Some true
  | CS_ERR_TRY_AGAIN :: answers' => cpg_join_retry answers'
  | CS_ERR_SECURITY :: _ => Some false
  | CS_ERR_OTHER _ :: _ => Some false
  end.

Definition corosync_join (myself : sd_node) (opaque : option (list Byte.byte))
    (opaque_len : Z) (join_answers mcast_answers : list cs_error_t)
    (s : state) : option (Z * state) :=
  match cpg_join_retry join_answers with
  | None => None
  | Some false => Some (-1, s)
  | Some true =>
      let s := set_this_node (set_ent myself (this_node s)) s in
      send_message_answered mcast_answers COROSYNC_MSG_TYPE_JOIN_REQUEST
        CJ_RES_SUCCESS (this_node s) [] 0 opaque opaque_len s
  end.

Definition corosync_leave (mcast_answers : list cs_error_t) (s : state)
    : option (Z * state) :=
  send_message_answered mcast_answers COROSYNC_MSG_TYPE_LEAVE CJ_RES_SUCCESS
    (this_node s) [] 0 None 0 s.

Definition corosync_block (mcast_answers : list cs_error_t) (s : state)
    : option state :=
  snd <$> send_message_answered mcast_answers COROSYNC_MSG_TYPE_BLOCK
            CJ_RES_SUCCESS (this_node s) [] 0 None 0 s.

Definition corosync_unblock (msg : option (list Byte.byte)) (msg_len : Z)
    (mcast_answers : list cs_error_t) (s : state) : option state :=
  snd <$> send_message_answered mcast_answers COROSYNC_MSG_TYPE_UNBLOCK
            CJ_RES_SUCCESS (this_node s) [] 0 msg msg_len s.

Definition corosync_notify (msg : option (list Byte.byte)) (msg_len : Z)
    (mcast_answers : list cs_error_t) (s : state) : option (Z * state) :=
  send_message_answered mcast_answers COROSYNC_MSG_TYPE_NOTIFY
    CJ_RES_SUCCESS (this_node s) [] 0 msg msg_len s.

Definition CPG_INIT_RETRY_CNT : Z := 10.

(** The loop at [again:] of [corosync_init] over the answers of
    [cpg_initialize], with the value of [retry_cnt] on entry: whether the
    handle is initialised, and the number of calls of [cpg_initialize].
    [None]: the answers have run out. *)
Fixpoint cpg_initialize_again (answers : list cs_error_t) (retry_cnt : Z)
    : option (bool * nat) :=
  match answers with
  | [] => None
  | CS_OK :: _ => Some (true, 1%nat)
  | CS_ERR_TRY_AGAIN :: answers' =>
      if retry_cnt =? CPG_INIT_RETRY_CNT then Some (false, 1%nat)
      else
        match cpg_initialize_again answers' (retry_cnt + 1) with
        | Some (ok, calls) => Some (ok, S calls)
        | None => None
        end
  | _ :: _ => Some (false, 1%nat)
  end.


Definition is_CS_OK (e : cs_error_t) : bool :=
  match e with
  | CS_OK => true
  | _ => false
  end.


(** The address family of a [sockaddr_storage]. *)
Inductive sa_family :=
| AF_INET
| AF_INET6
| AF_OTHER (family : Z).

(** What [corosync_cfg_get_node_addrs] answers: its return value, the number
    of addresses, and of the first address the family and the bytes of
    [sin_addr] and of [sin6_addr], the two views of [caddr.address] the
    function reads. *)
Record node_addrs := mk_node_addrs {
  get_node_addrs_ret : cs_error_t;
  nr : Z;
  ss_family : sa_family;
  sin_addr : list Byte.byte;
  sin6_addr : list Byte.byte;
}.

(** [memcpy(dst + off, src, n)]; [None] when the bytes are not there. *)
Definition memcpy_bytes (dst : list Byte.byte) (off : nat)
    (src : list Byte.byte) (n : nat) : option (list Byte.byte) :=
  if decide (n <= length src /\ off + n <= length dst)%nat
  then Some (take off dst ++ take n src ++ drop (off + n) dst)
  else None.

(** [memset(dst, c, n)] *)
Definition memset_bytes (dst : list Byte.byte) (c : Byte.byte) (n : nat)
    : option (list Byte.byte) :=
  if decide (n <= length dst)%nat
  then Some (replicate n c ++ drop n dst)
  else None.

(** The return value and the buffer [addr] afterwards. *)
Definition corosync_get_local_addr (a : node_addrs) (addr : list Byte.byte)
    : option (Z * list Byte.byte) :=
  if negb (is_CS_OK (get_node_addrs_ret a)) then Some (-1, addr)
  else if nr a =? 0 then Some (-1, addr)
  else
    match ss_family a with
    | AF_INET6 =>
        match memcpy_bytes addr 0 (sin6_addr a) 16 with
        | Some addr => Some (0, addr)
        | None => None
        end
    | AF_INET =>
        match memset_bytes addr Byte.x00 16 with
        | Some addr =>
            match memcpy_bytes addr 12 (sin_addr a) 4 with
            | Some addr => Some (0, addr)
            | None => None
            end
        | None => None
        end
    | AF_OTHER _ => Some (-1, addr)
    end.

(** ** Observations on a state *)

(** The number of queued events. *)
Definition queued (s : state) : nat :=
  (length (corosync_block_event_list s)
   + length (corosync_nonblock_event_list s))%nat.

Definition all_events (s : state) : list corosync_event :=
  corosync_block_event_list s ++ corosync_nonblock_event_list s.

(** The events [sd_check_join_cb] was called for, in the order of the
    calls. *)
Definition checked (l : list action) : list nat :=
  omap (fun a => match a with
                 | UP_check_join ev _ _ => Some ev
                 | _ => None
                 end) l.

(** A log in which every call of [sd_check_join_cb] is followed at once by
    the multicast of a JOIN_RESPONSE about the node and with the payload the
    call was made for, and in which nothing else is multicast. *)
Fixpoint answered (l : list action) : Prop :=
  match l with
  | [] => True
  | UP_check_join _ joining opaque :: l' =>
      match l' with
      | SEND COROSYNC_MSG_TYPE_JOIN_RESPONSE _ about _ _ payload _ :: l'' =>
          ent about = joining /\ payload = Some opaque /\ answered l''
      | _ => False
      end
  | SEND _ _ _ _ _ _ _ :: _ => False
  | _ :: l' => answered l'
  end.

(** The fields intake never stores to. *)
Definition same_outside (s s' : state) : Prop :=
  log s' = log s /\ host_state s' = host_state s /\
  join_finished s' = join_finished s /\ this_node s' = this_node s /\
  nr_cpg_nodes s' = nr_cpg_nodes s.

(** The block list holds the BLOCK events and the non-block list the
    others. *)
Definition sorted_queues (s : state) : Prop :=
  Forall (fun e => type e = COROSYNC_EVENT_TYPE_BLOCK)
    (corosync_block_event_list s) /\
  Forall (fun e => type e <> COROSYNC_EVENT_TYPE_BLOCK)
    (corosync_nonblock_event_list s).

(** What a dispatcher step may change: it queues nothing, allocates no event,
    adds to the log only answered join checks and other handler calls, and
    leaves [self_elect] and [this_node] alone; [join_finished] is never
    reset. *)
Definition dispatcher_step (s s' : state) : Prop :=
  (queued s' <= queued s)%nat /\
  next_event s' = next_event s /\
  (exists l, log s' = log s ++ l /\ answered l) /\
  self_elect s' = self_elect s /\
  this_node s' = this_node s /\
  (join_finished s = true -> join_finished s' = true).

(** The roster fits its array of [SD_MAX_NODES] slots, and a partition
    threshold that is armed is at least 2. *)
Definition well_formed (s : state) : Prop :=
  length (cpg_nodes s) = SD_MAX_NODES /\
  (nr_cpg_nodes s <= SD_MAX_NODES)%nat /\
  (nr_majority s = 0 \/ 2 <= nr_majority s).

(** An event [sd_check_join_cb] was called for has [callbacked] set and is
    not a BLOCK event, the only kind whose flag is ever stored to again. *)
Definition settled (done_ids : list nat) (e : corosync_event) : Prop :=
  ev_id e ∈ done_ids ->
  callbacked e = true /\ type e <> COROSYNC_EVENT_TYPE_BLOCK.

(** Events [es] allocated before the counter reached [n], one allocation
    each, and settled with respect to the calls [done_ids]. *)
Definition well_queued (done_ids : list nat) (n : nat)
    (es : list corosync_event) : Prop :=
  Forall (fun e => (ev_id e < n)%nat) es /\
  NoDup (ev_id <$> es) /\
  Forall (settled done_ids) es.

(** The invariant behind "check_join() must be called only once". *)
Definition called_once (s : state) : Prop :=
  well_queued (checked (log s)) (next_event s) (all_events s) /\
  Forall (fun i => (i < next_event s)%nat) (checked (log s)) /\
  NoDup (checked (log s)).

(** What holds when a step is over: the invariant if the process goes on,
    and in any case no second call for an event. *)
Definition called_once_after {A : Type} (r : res A) : Prop :=
  match r with
  | Ret _ s => called_once s
  | Halt _ s => NoDup (checked (log s))
  end.

(** ** What cpg delivers to a process that joins

    A process that has called [cpg_join] is first told of the configuration
    change of its own join, in which nobody has left; the driver never
    calls [cpg_leave], so no configuration change reports the process
    itself as left. *)

Definition own_address (self : cpg_node) (a : cpg_address) : bool :=
  (a_nodeid a =? nodeid self) && (a_pid a =? pid self).

(** The callback does not report [self] as left. *)
Definition stays (self : cpg_node) (c : callback) : bool :=
  match c with
  | DELIVER _ _ => true
  | CONFCHG _ left_list _ _ => negb (existsb (own_address self) left_list)
  end.

(** The callbacks start with the configuration change of the join of
    [self]. *)
Definition joins_first (self : cpg_node) (cs : list callback) : bool :=
  match cs with
  | [] => true
  | CONFCHG _ [] joined_list _ :: cs' =>
      existsb (own_address self) joined_list && forallb (stays self) cs'
  | _ => false
  end.

(** The event kinds of the join handshake. *)
Definition is_join (cevent : corosync_event) : bool :=
  match type cevent with
  | COROSYNC_EVENT_TYPE_JOIN_REQUEST
  | COROSYNC_EVENT_TYPE_JOIN_RESPONSE => true
  | _ => false
  end.

(** A join event of [self] is on the list [l], behind join events only. *)
Fixpoint awaits (self : cpg_node) (l : list corosync_event) : bool :=
  match l with
  | [] => false
  | cevent :: l' =>
      is_join cevent
      && (cpg_node_equal (sender cevent) self || awaits self l')
  end.

(** This node has joined, or its join event is queued behind join events
    only. *)
Definition joining (s : state) : Prop :=
  join_finished s = true \/
  awaits (this_node s) (corosync_nonblock_event_list s) = true.

(** ** The order of the joins

    cpg reports configuration changes to all members in one order, so the
    joins of a group have an order, [total], of NodeIds; a process joins
    once, so no NodeId is twice in it. *)




Fixpoint from (x : Z * Z) (l : list (Z * Z)) : list (Z * Z) :=
  match l with
  | [] => []
  | y :: l' => if decide (y = x) then l else from x l'
  end.






End Driver.

Arguments Ret {H A} a s.
Arguments Halt {H A} h s.

(** ** A daemon to run the driver on

    Node descriptors are numbers, the daemon keeps no state, accepts every
    join and every block, and the roster has room for 8 nodes. *)
Definition accepting_daemon : Host := {|
  sd_node := Z;
  sd_node_zero := 0;
  SD_MAX_NODES := 8;
  indeterminate_gone := 0;
  indeterminate_ent := 0;
  host := unit;
  sd_check_join_cb := fun _ _ h => (CJ_RES_SUCCESS, h);
  sd_join_handler := fun _ _ _ _ _ h => h;
  sd_leave_handler := fun _ _ _ h => h;
  sd_block_handler := fun _ h => (true, h);
  sd_notify_handler := fun _ _ _ h => h;
|}.

Module Cluster.
(** Three nodes, the messages they multicast, and some histories of
    callbacks. *)
Definition A := @mk_cpg_node accepting_daemon 1 100 0 7000.
Definition B := @mk_cpg_node accepting_daemon 2 200 0 7001.
Definition C := @mk_cpg_node accepting_daemon 3 300 0 7002.

Definition addr (n : @cpg_node accepting_daemon) :=
  mk_cpg_address (nodeid n) (pid n).

Definition opaque : list Byte.byte := [Byte.x01].

(** A multicast of [from] with the roster [snapshot] and [payload]. *)
Definition message (ty : corosync_message_type)
    (from : @cpg_node accepting_daemon) (snapshot : list cpg_node)
    (payload : list Byte.byte) :=
  @mk_message accepting_daemon from ty CJ_RES_SUCCESS
    (Z.of_nat (length payload)) (Z.of_nat (length snapshot))
    (snapshot ++ replicate (8 - length snapshot) cpg_node_zero) payload.

Definition after (cs : list callback) (self : cpg_node) :=
  final (run cs (@initial_state accepting_daemon self tt)).

(** Node A boots alone and becomes a cluster of one. *)
Definition bootstrap : list (@callback accepting_daemon) :=
  [ CONFCHG [addr A] [] [addr A] false;
    DELIVER (message COROSYNC_MSG_TYPE_JOIN_REQUEST A [] opaque) false;
    DELIVER (message COROSYNC_MSG_TYPE_JOIN_RESPONSE A [] opaque) false ].

(** Node B joins the cluster of A. *)
Definition join_of_B : list (@callback accepting_daemon) :=
  [ CONFCHG [addr A; addr B] [] [addr B] false;
    DELIVER (message COROSYNC_MSG_TYPE_JOIN_REQUEST B [] opaque) false;
    DELIVER (message COROSYNC_MSG_TYPE_JOIN_RESPONSE B [A] opaque) false ].

(** Seen from A: B announces its leave, then A announces its own while
    more input is pending. *)
Definition departures : list (@callback accepting_daemon) :=
  [ DELIVER (message COROSYNC_MSG_TYPE_LEAVE B [] []) false;
    DELIVER (message COROSYNC_MSG_TYPE_LEAVE A [] []) true ].

(** Seen from A, later: the process of B is gone, reported while more input
    is pending. *)
Definition exit_of_B : list (@callback accepting_daemon) :=
  [ CONFCHG [addr A] [addr B] [] true ].

(** The cluster of A, with the answer to the join of B delivered but not
    dispatched yet. *)
Definition response_queued : list (@callback accepting_daemon) :=
  bootstrap ++
  [ CONFCHG [addr A; addr B] [] [addr B] false;
    DELIVER (message COROSYNC_MSG_TYPE_JOIN_REQUEST B [] opaque) false;
    DELIVER (message COROSYNC_MSG_TYPE_JOIN_RESPONSE B [A] opaque) true ].

(** The cluster of A with a BLOCK and a NOTIFY of B delivered but not
    dispatched yet. *)
Definition block_and_notify_queued : list (@callback accepting_daemon) :=
  bootstrap ++
  [ DELIVER (message COROSYNC_MSG_TYPE_BLOCK B [] []) true;
    DELIVER (message COROSYNC_MSG_TYPE_NOTIFY B [] opaque) true ].

(** The cluster of A with a LEAVE of C, which never joined, delivered but
    not dispatched yet. *)
Definition stranger_leaves : list (@callback accepting_daemon) :=
  bootstrap ++ [ DELIVER (message COROSYNC_MSG_TYPE_LEAVE C [] []) true ].

(** Seen from B: B is told of its join and multicasts its request; A
    blocks, notifies and announces its leave before the join of B is
    answered. *)
Definition join_unanswered : list (@callback accepting_daemon) :=
  [ CONFCHG [addr A; addr B] [] [addr B] false;
    DELIVER (message COROSYNC_MSG_TYPE_JOIN_REQUEST B [] opaque) false;
    DELIVER (message COROSYNC_MSG_TYPE_BLOCK A [] []) false;
    DELIVER (message COROSYNC_MSG_TYPE_NOTIFY A [] opaque) false;
    DELIVER (message COROSYNC_MSG_TYPE_LEAVE A [] []) false ].

(** A fourth node, which is about to join. *)
Definition D := @mk_cpg_node accepting_daemon 4 400 0 7003.

(** The array [cpg_nodes] with the roster [l] in its first slots. *)
Definition slots (l : list (@cpg_node accepting_daemon)) : list cpg_node :=
  l ++ replicate (8 - length l) cpg_node_zero.

(** Node A in the cluster of A, B and C: joined, the master, with the
    events [blocked] on the block list and [queue] on the non-block list. *)
Definition cluster_of_three
    (blocked queue : list (@corosync_event accepting_daemon))
    : @state accepting_daemon :=
  mk_state (slots [A; B; C]) 3 false true 0 A blocked queue 2 tt [].

(** Node B as [corosync_init] leaves it, with [queue] on the non-block
    list. *)
Definition newcomer (queue : list (@corosync_event accepting_daemon))
    : @state accepting_daemon :=
  mk_state (slots []) 0 false false 0 B [] queue 1 tt [].

(** An event of type [ty] and sender [from] with no payload. *)
Definition event (id : nat) (ty : corosync_event_type)
    (from : @cpg_node accepting_daemon) (called : bool)
    : @corosync_event accepting_daemon :=
  mk_event id ty from None 0 CJ_RES_SUCCESS 0 (slots []) called.

(** The JOIN_RESPONSE to the join of B, with the roster of a cluster of A
    alone, as B has it queued. *)
Definition response_to_B : @corosync_event accepting_daemon :=
  mk_event 0 COROSYNC_EVENT_TYPE_JOIN_RESPONSE B (Some opaque) 1
    CJ_RES_SUCCESS 1 (slots [A]) false.


(** Node [n] under the descriptor [e]. *)
Definition with_ent (e : Z) (n : @cpg_node accepting_daemon) :=
  @set_ent accepting_daemon e n.


(** The address 10.0.0.1 as [corosync_cfg_get_node_addrs] reports it. *)
Definition ten_0_0_1 : node_addrs :=
  mk_node_addrs CS_OK 1 AF_INET [Byte.x0a; Byte.x00; Byte.x00; Byte.x01]
    (replicate 16 Byte.x00).
End Cluster.

(** * Properties *)

Section Properties.
Context `{H : Host}.
Implicit Types (s : state) (cevent : corosync_event) (q : event_list).

Lemma cpg_node_equal_id (a b : cpg_node) :
  cpg_node_equal a b = true <-> node_id a = node_id b.
Proof.
  unfold cpg_node_equal, node_id. rewrite andb_true_iff, !Z.eqb_eq.
  split; [intros [-> ->]; reflexivity | intros [= -> ->]; auto].
Qed.

Lemma find_cpg_node_from_range (nodes : list cpg_node) key i todo :
  find_cpg_node_from nodes key i todo = -1 \/
  exists j, find_cpg_node_from nodes key i todo = Z.of_nat j /\
            (i <= j < i + todo)%nat.
Proof.
  revert i. induction todo as [|todo IH]; intros i; simpl; [by left|].
  destruct (cpg_node_equal (nodes !!! i) key).
  - right. exists i. split; [done | lia].
  - destruct (IH (S i)) as [->|(j & -> & Hj)]; [by left|].
    right. exists j. split; [done | lia].
Qed.

Lemma find_cpg_node_from_found (nodes : list cpg_node) key i todo j :
  find_cpg_node_from nodes key i todo = Z.of_nat j ->
  (i <= j < i + todo)%nat /\
  cpg_node_equal (nodes !!! j) key = true /\
  forall k, (i <= k < j)%nat -> cpg_node_equal (nodes !!! k) key = false.
Proof.
  revert i. induction todo as [|todo IH]; intros i; simpl; [lia|].
  destruct (cpg_node_equal (nodes !!! i) key) eqn:E.
  - intros ->%Nat2Z.inj. repeat split; [lia.. | done | intros; lia].
  - intros Hf. destruct (IH _ Hf) as (Hr & Hj & Hk).
    repeat split; [lia.. | done |].
    intros k Hk'. destruct (decide (k = i)) as [->|]; [done|]. apply Hk. lia.
Qed.

Lemma find_cpg_node_from_none (nodes : list cpg_node) key i todo :
  find_cpg_node_from nodes key i todo = -1 <->
  forall k, (i <= k < i + todo)%nat -> cpg_node_equal (nodes !!! k) key = false.
Proof.
  revert i. induction todo as [|todo IH]; intros i; simpl.
  - split; [intros _ k; lia | done].
  - destruct (cpg_node_equal (nodes !!! i) key) eqn:E.
    + split; [lia|]. intros Hk. specialize (Hk i). rewrite E in Hk.
      discriminate Hk. lia.
    + rewrite IH. split; intros Hk k Hr.
      * destruct (decide (k = i)) as [->|]; [done|]. apply Hk. lia.
      * apply Hk. lia.
Qed.

Lemma find_cpg_node_take (nodes : list cpg_node) n key j :
  find_cpg_node nodes n key = Z.of_nat j ->
  (n <= length nodes)%nat ->
  take n nodes !! j = Some (nodes !!! j) /\
  node_id (nodes !!! j) = node_id key.
Proof.
  intros (Hr & He & _)%find_cpg_node_from_found Hfit. split.
  - rewrite lookup_take_lt by lia. apply list_lookup_lookup_total_lt. lia.
  - by apply cpg_node_equal_id.
Qed.

Lemma find_cpg_node_absent (nodes : list cpg_node) n key :
  (n <= length nodes)%nat ->
  find_cpg_node nodes n key = -1 <->
  Forall (fun m => node_id m <> node_id key) (take n nodes).
Proof.
  intros Hfit. unfold find_cpg_node. rewrite find_cpg_node_from_none.
  rewrite Forall_lookup. split.
  - intros Hk i m Hi. apply lookup_take_Some in Hi as [Hi Hlt].
    specialize (Hk i ltac:(lia)).
    rewrite (list_lookup_total_correct _ _ _ Hi) in Hk.
    intros Heq%cpg_node_equal_id. congruence.
  - intros Hall k Hk.
    destruct (cpg_node_equal (nodes !!! k) key) eqn:E; [|done].
    exfalso. apply (Hall k (nodes !!! k)).
    + rewrite lookup_take_lt by lia. apply list_lookup_lookup_total_lt. lia.
    + by apply cpg_node_equal_id.
Qed.

Lemma del_cpg_node_delete (nodes : list cpg_node) n key idx :
  (n <= length nodes)%nat ->
  find_cpg_node nodes n key = Z.of_nat idx ->
  del_cpg_node nodes n key = delete idx (take n nodes) ++ drop (n - 1) nodes.
Proof.
  intros Hfit Hfind. pose proof Hfind as (Hr & _)%find_cpg_node_from_found.
  unfold del_cpg_node, memmove_nodes. rewrite Hfind.
  destruct (Z.ltb_spec (Z.of_nat idx) 0) as [|_]; [lia|].
  rewrite Nat2Z.id, delete_take_drop, take_take, skipn_firstn_comm.
  rewrite <- app_assoc.
  replace (idx `min` n)%nat with idx by lia.
  replace (idx + 1)%nat with (S idx) by lia.
  replace (idx + (n - 1 - idx))%nat with (n - 1)%nat by lia.
  replace (n - 1 - idx)%nat with (n - S idx)%nat by lia.
  reflexivity.
Qed.

Lemma del_cpg_node_roster (nodes : list cpg_node) n key idx :
  (n <= length nodes)%nat ->
  find_cpg_node nodes n key = Z.of_nat idx ->
  take (n - 1) (del_cpg_node nodes n key) = delete idx (take n nodes).
Proof.
  intros Hfit Hfind. pose proof Hfind as (Hr & _)%find_cpg_node_from_found.
  rewrite (del_cpg_node_delete _ _ _ idx) by done.
  apply take_app_length'.
  rewrite length_delete; rewrite ?length_take; [lia|].
  apply lookup_lt_is_Some. rewrite length_take. lia.
Qed.

Lemma del_cpg_node_length (nodes : list cpg_node) n key :
  (n <= length nodes)%nat ->
  length (del_cpg_node nodes n key) = length nodes.
Proof.
  intros Hfit. unfold del_cpg_node.
  destruct (find_cpg_node_from_range nodes key 0 n) as [E|(j & E & Hj)];
    fold (find_cpg_node nodes n key) in E; rewrite E; [done|].
  destruct (Z.ltb_spec (Z.of_nat j) 0) as [|_]; [lia|].
  unfold memmove_nodes.
  rewrite Nat2Z.id, !length_app, !length_take, !length_drop. lia.
Qed.

(** ** Deleting from the roster and processing LEAVE *)

Lemma find_cpg_node_from_ext (nodes : list cpg_node) key key' i todo :
  node_id key = node_id key' ->
  find_cpg_node_from nodes key i todo = find_cpg_node_from nodes key' i todo.
Proof.
  intros Hid. revert i. induction todo as [|todo IH]; intros i; simpl; [done|].
  rewrite IH.
  destruct (cpg_node_equal (nodes !!! i) key) eqn:E,
           (cpg_node_equal (nodes !!! i) key') eqn:E'; try done.
  - apply cpg_node_equal_id in E. rewrite Hid, <- cpg_node_equal_id in E.
    congruence.
  - apply cpg_node_equal_id in E'. rewrite <- Hid, <- cpg_node_equal_id in E'.
    congruence.
Qed.

Lemma del_cpg_node_ext (nodes : list cpg_node) n key key' :
  node_id key = node_id key' ->
  del_cpg_node nodes n key = del_cpg_node nodes n key'.
Proof.
  intros Hid. unfold del_cpg_node, find_cpg_node.
  by rewrite (find_cpg_node_from_ext _ key key').
Qed.

Lemma leave_processed q cevent s idx :
  type cevent = COROSYNC_EVENT_TYPE_LEAVE ->
  (nr_cpg_nodes s <= length (cpg_nodes s))%nat ->
  find_cpg_node (cpg_nodes s) (nr_cpg_nodes s) (sender cevent) = Z.of_nat idx ->
  exists s',
    __corosync_dispatch_one q cevent s = Ret true s' /\
    cpg_nodes s'
    = del_cpg_node (cpg_nodes s) (nr_cpg_nodes s) (sender cevent) /\
    nr_cpg_nodes s' = (nr_cpg_nodes s - 1)%nat /\
    roster s' = delete idx (roster s) /\
    log s' =
      log s ++ [UP_leave (ent (cpg_nodes s !!! idx)) (ent <$> roster s')
                  (nr_cpg_nodes s - 1)] /\
    join_finished s' = join_finished s.
Proof.
  intros Hty Hfit Hfind. unfold __corosync_dispatch_one. rewrite Hty, Hfind.
  destruct (Z.ltb_spec (Z.of_nat idx) 0) as [|_]; [lia|].
  rewrite Nat2Z.id. eexists. split; [reflexivity|].
  assert (Hdel : forall nodes',
    del_cpg_node nodes' (nr_cpg_nodes s)
      (set_ent (ent (cpg_nodes s !!! idx)) (sender cevent))
    = del_cpg_node nodes' (nr_cpg_nodes s) (sender cevent))
    by (intros; by apply del_cpg_node_ext).
  destruct q; simpl; rewrite Hdel; unfold roster, build_node_list; simpl;
    rewrite (del_cpg_node_roster _ _ _ idx) by done; done.
Qed.

(** C5: deleting the entry that [find_cpg_node] locates at [idx] in a roster
    of [n] nodes moves entry [i + 1] to slot [i] for every [i] from [idx] to
    [n - 2], keeps the entries below [idx], so that the first [n - 1] slots
    are the old roster without entry [idx], in order and without a hole;
    processing the LEAVE event of that node leaves a roster of [n - 1]
    nodes. *)
Theorem del_cpg_node_shifts_down (nodes : list cpg_node) (n idx : nat)
    (key : cpg_node) :
  (n <= length nodes)%nat ->
  find_cpg_node nodes n key = Z.of_nat idx ->
  (0 < n)%nat /\ (idx < n)%nat /\
  node_id (nodes !!! idx) = node_id key /\
  (forall i, (idx <= i)%nat -> (i + 2 <= n)%nat ->
     del_cpg_node nodes n key !! i = nodes !! (i + 1)%nat) /\
  (forall i, (i < idx)%nat -> del_cpg_node nodes n key !! i = nodes !! i) /\
  take (n - 1) (del_cpg_node nodes n key) = delete idx (take n nodes) /\
  length (del_cpg_node nodes n key) = length nodes /\
  (forall q cevent s,
     type cevent = COROSYNC_EVENT_TYPE_LEAVE ->
     cpg_nodes s = nodes -> nr_cpg_nodes s = n ->
     node_id (sender cevent) = node_id key ->
     exists s',
       __corosync_dispatch_one q cevent s = Ret true s' /\
       nr_cpg_nodes s' = (n - 1)%nat /\
       length (roster s') = (n - 1)%nat /\
       roster s' = delete idx (roster s)).
Proof.
  intros Hfit Hfind.
  pose proof Hfind as (Hr & He & _)%find_cpg_node_from_found.
  pose proof (del_cpg_node_roster _ _ _ _ Hfit Hfind) as Hros.
  pose proof (del_cpg_node_length nodes n key Hfit) as Hlen.
  assert (Hlook : forall i, (i < n - 1)%nat ->
    del_cpg_node nodes n key !! i = delete idx (take n nodes) !! i).
  { intros i Hi. by rewrite <- Hros, lookup_take_lt. }
  repeat split; try lia; try done.
  - by apply cpg_node_equal_id.
  - intros i Hi Hn. rewrite Hlook by lia.
    rewrite list_lookup_delete_ge by lia. rewrite lookup_take_lt by lia.
    f_equal. lia.
  - intros i Hi. rewrite Hlook by lia.
    rewrite list_lookup_delete_lt by lia. by rewrite lookup_take_lt by lia.
  - intros q cevent s Hty <- <- Hid.
    destruct (leave_processed q cevent s idx) as (s' & -> & _ & Hnr & Hr' & _);
      [done | done | | ].
    { unfold find_cpg_node in *.
      by rewrite (find_cpg_node_from_ext _ _ key). }
    exists s'. repeat split; [done | | done].
    rewrite Hr'. unfold roster. rewrite length_delete, length_take; [lia|].
    apply lookup_lt_is_Some. rewrite length_take. lia.
Qed.

(** ** The head of the lists *)

Lemma first_event_head s q cevent :
  first_event s = Some (q, cevent) ->
  exists rest, events q s = cevent :: rest /\
               events q (list_del q 0 s) = rest.
Proof.
  unfold first_event. 
  destruct (corosync_nonblock_event_list s) as [|e l] eqn:En.
  - destruct (corosync_block_event_list s) as [|e l] eqn:Eb; [done|].
    intros [= <- <-]. exists l. simpl. by rewrite Eb.
  - intros [= <- <-]. exists l. simpl. by rewrite En.
Qed.

Lemma list_del_frame q i s :
  cpg_nodes (list_del q i s) = cpg_nodes s /\
  nr_cpg_nodes (list_del q i s) = nr_cpg_nodes s /\
  self_elect (list_del q i s) = self_elect s /\
  join_finished (list_del q i s) = join_finished s /\
  nr_majority (list_del q i s) = nr_majority s /\
  this_node (list_del q i s) = this_node s /\
  next_event (list_del q i s) = next_event s /\
  host_state (list_del q i s) = host_state s /\
  log (list_del q i s) = log s.
Proof. by destruct q. Qed.

Lemma list_del_other q i s :
  match q with
  | BLOCK_LIST =>
      corosync_nonblock_event_list (list_del q i s)
      = corosync_nonblock_event_list s
  | NONBLOCK_LIST =>
      corosync_block_event_list (list_del q i s) = corosync_block_event_list s
  end.
Proof. by destruct q. Qed.

(** C9: as long as one of the two lists is not empty, the event an
    iteration of the loop of the dispatcher works on is the head of the
    non-block list when that list is not empty, and the head of the block
    list only when the non-block list is empty. *)
Theorem dispatcher_takes_nonblock_first s :
  corosync_block_event_list s <> [] \/ corosync_nonblock_event_list s <> [] ->
  exists q cevent,
    first_event s = Some (q, cevent) /\
    head (events q s) = Some cevent /\
    (corosync_nonblock_event_list s <> [] -> q = NONBLOCK_LIST) /\
    (q = BLOCK_LIST -> corosync_nonblock_event_list s = []) /\
    forall fuel,
      dispatch_loop (S fuel) s =
      bind (dispatch_event q cevent s) (fun continue s' =>
        if continue then dispatch_loop fuel s' else Ret tt s').
Proof.
  intros Hne. unfold dispatch_loop, first_event.
  destruct (corosync_nonblock_event_list s) as [|e l] eqn:En.
  - destruct (corosync_block_event_list s) as [|e l] eqn:Eb.
    + by destruct Hne.
    + exists BLOCK_LIST, e. simpl. rewrite Eb. by repeat split.
  - exists NONBLOCK_LIST, e. simpl. rewrite En. by repeat split.
Qed.

(** ** Processing LEAVE and JOIN_RESPONSE *)

(** C10: when the dispatcher processes a LEAVE event whose sender has no
    entry with an equal NodeId in the roster, the event is unlinked, no
    handler of the daemon is called, and the roster, entries and length,
    is as before. *)
Theorem leave_of_unknown_sender q cevent s :
  first_event s = Some (q, cevent) ->
  join_finished s = true ->
  type cevent = COROSYNC_EVENT_TYPE_LEAVE ->
  (nr_cpg_nodes s <= length (cpg_nodes s))%nat ->
  Forall (fun n => node_id n <> node_id (sender cevent)) (roster s) ->
  exists s',
    dispatch_event q cevent s = Ret true s' /\
    events q s = cevent :: events q s' /\
    log s' = log s /\
    host_state s' = host_state s /\
    cpg_nodes s' = cpg_nodes s /\
    nr_cpg_nodes s' = nr_cpg_nodes s /\
    roster s' = roster s.
Proof.
  intros Hfirst Hjf Hty Hfit Habsent.
  apply find_cpg_node_absent in Habsent; [|done].
  destruct (first_event_head _ _ _ Hfirst) as (rest & Hq & Hrest).
  exists (list_del q 0 s).
  destruct (list_del_frame q 0 s) as (Hn & Hnr & _ & _ & _ & _ & _ & Hh & Hl).
  repeat split; try done.
  - unfold dispatch_event, update_join_status, __corosync_dispatch_one.
    rewrite Hjf. simpl. rewrite Hjf, Hty, Habsent. reflexivity.
  - by rewrite Hq, Hrest.
  - unfold roster. by rewrite Hn, Hnr.
Qed.

Lemma add_cpg_node_roster (nodes : list cpg_node) n added nodes' :
  add_cpg_node nodes n added = Some nodes' ->
  take (S n) nodes' = take n nodes ++ [added] /\
  length nodes' = length nodes.
Proof.
  unfold add_cpg_node. case_decide; [|done]. intros [= <-]. split.
  - rewrite (take_S_r _ _ added) by (by apply list_lookup_insert_eq).
    by rewrite take_insert_ge.
  - apply length_insert.
Qed.

(** C6: when the dispatcher processes a JOIN_RESPONSE event, the sender is
    appended to the roster for the results SUCCESS, MASTER_TRANSFER and
    JOIN_LATER, so that the roster grows by exactly one entry, and the roster
    is unchanged for FAIL; in all four cases [sd_join_handler] is called
    exactly once, with the sender, the roster after the update, the result
    and the payload, and the event is unlinked from its list.  [s] is the
    state in which the event is processed: the state after the update of the
    join status. *)
Theorem join_response_processed q cevent s0 s :
  first_event s0 = Some (q, cevent) ->
  type cevent = COROSYNC_EVENT_TYPE_JOIN_RESPONSE ->
  update_join_status cevent s0 = Ret tt s ->
  join_finished s = true ->
  result cevent = CJ_RES_FAIL \/
    (nr_cpg_nodes s < length (cpg_nodes s))%nat ->
  exists s',
    dispatch_event q cevent s0 = Ret true s' /\
    roster s' =
      (match result cevent with
       | CJ_RES_FAIL => roster s
       | _ => roster s ++ [sender cevent]
       end) /\
    nr_cpg_nodes s' =
      (match result cevent with
       | CJ_RES_FAIL => nr_cpg_nodes s
       | _ => S (nr_cpg_nodes s)
       end) /\
    log s' =
      log s0 ++ [UP_join (ent (sender cevent)) (ent <$> roster s')
                   (nr_cpg_nodes s') (result cevent) (msg cevent)] /\
    host_state s' =
      sd_join_handler (ent (sender cevent)) (ent <$> roster s')
        (nr_cpg_nodes s') (result cevent) (msg cevent) (host_state s0) /\
    events q s0 = cevent :: events q s'.
Proof.
  intros Hfirst Hty Hstatus Hjf Hroom.
  destruct (first_event_head _ _ _ Hfirst) as (rest & Hq & Hrest).
  assert (Hframe : log s = log s0 /\ host_state s = host_state s0 /\
                   events q s = events q s0).
  { revert Hstatus. unfold update_join_status. rewrite Hty.
    destruct (join_finished s0); [by intros [= <-]|].
    destruct (cpg_node_equal _ _); [|by intros [= <-]].
    destruct (memcpy_nodes _ _ _); [|done]. intros [= <-]. by destruct q. }
  destruct Hframe as (Hl & Hh & He).
  unfold dispatch_event. rewrite Hstatus. simpl. rewrite Hjf.
  unfold __corosync_dispatch_one. rewrite Hty.
  assert (Hdel : events q s0 = cevent :: events q (list_del q 0 s)).
  { rewrite Hq. f_equal. unfold list_del. rewrite He, Hq. by destruct q. }
  destruct (result cevent) eqn:Hres.
  2: { eexists. split; [reflexivity|].
       destruct q; simpl in *; unfold roster, build_node_list; simpl;
         rewrite ?Hl, ?Hh; repeat split; done. }
  all: destruct Hroom as [|Hroom]; [done|].
  all: unfold add_cpg_node at 1; case_decide; [|lia].
  all: simpl; eexists; split; [reflexivity|].
  all: assert (Hadd : take (S (nr_cpg_nodes s))
                        (<[nr_cpg_nodes s:=sender cevent]> (cpg_nodes s))
                      = take (nr_cpg_nodes s) (cpg_nodes s) ++ [sender cevent])
         by (apply add_cpg_node_roster; unfold add_cpg_node;
             by case_decide).
  all: destruct q; simpl in *; unfold roster, build_node_list; simpl;
         rewrite ?Hadd, ?Hl, ?Hh; repeat split; try done.
  all: rewrite Hq; f_equal; by rewrite He, Hq.
Qed.

(** ** What the dispatcher leaves alone, and that it returns *)

Lemma update_at_frame q i f s :
  cpg_nodes (update_at q i f s) = cpg_nodes s /\
  nr_cpg_nodes (update_at q i f s) = nr_cpg_nodes s /\
  self_elect (update_at q i f s) = self_elect s /\
  join_finished (update_at q i f s) = join_finished s /\
  nr_majority (update_at q i f s) = nr_majority s /\
  this_node (update_at q i f s) = this_node s /\
  next_event (update_at q i f s) = next_event s /\
  host_state (update_at q i f s) = host_state s /\
  log (update_at q i f s) = log s /\
  queued (update_at q i f s) = queued s.
Proof. destruct q; unfold queued; simpl; by rewrite ?length_alter. Qed.

Lemma dispatch_one_frame q cevent s :
  let s' := final (__corosync_dispatch_one q cevent s) in
  self_elect s' = self_elect s /\
  join_finished s' = join_finished s /\
  nr_majority s' = nr_majority s /\
  this_node s' = this_node s /\
  next_event s' = next_event s /\
  length (corosync_block_event_list s')
    = length (corosync_block_event_list s) /\
  length (corosync_nonblock_event_list s')
    = length (corosync_nonblock_event_list s).
Proof.
  unfold __corosync_dispatch_one.
  repeat case_match; simpl; try done;
    destruct q; simpl; by rewrite ?length_alter.
Qed.

Lemma dispatch_one_halts q cevent s h s' :
  __corosync_dispatch_one q cevent s = Halt h s' ->
  h = EXIT 1 \/ h = UNDEFINED.
Proof.
  unfold __corosync_dispatch_one.
  repeat case_match; intros; simplify_eq; auto.
Qed.

Lemma update_join_status_frame cevent s :
  let s' := final (update_join_status cevent s) in
  self_elect s' = self_elect s /\
  nr_majority s' = nr_majority s /\
  this_node s' = this_node s /\
  next_event s' = next_event s /\
  host_state s' = host_state s /\
  log s' = log s /\
  corosync_block_event_list s' = corosync_block_event_list s /\
  corosync_nonblock_event_list s' = corosync_nonblock_event_list s /\
  (join_finished s = true -> s' = s) /\
  (join_finished s' = false -> s' = s).
Proof.
  unfold update_join_status. repeat case_match; simpl; try done.
  all: repeat split; try done; congruence.
Qed.

Lemma update_join_status_halts cevent s h s' :
  update_join_status cevent s = Halt h s' -> h = UNDEFINED.
Proof.
  unfold update_join_status. repeat case_match; intros; by simplify_eq.
Qed.

Lemma dispatch_event_queued q cevent s :
  first_event s = Some (q, cevent) ->
  match dispatch_event q cevent s with
  | Ret true s' => S (queued s') = queued s
  | Ret false s' => queued s' = queued s
  | Halt _ _ => True
  end.
Proof.
  intros (rest & Hq & _)%first_event_head. unfold dispatch_event.
  pose proof (update_join_status_frame cevent s) as Hu.
  destruct (update_join_status cevent s) as [[] s1|]; simpl in *; [|done].
  destruct Hu as (_ & _ & _ & _ & _ & _ & Hb & Hn & _).
  assert (Hdel : forall s2,
    length (corosync_block_event_list s2)
      = length (corosync_block_event_list s) ->
    length (corosync_nonblock_event_list s2)
      = length (corosync_nonblock_event_list s) ->
    S (queued (list_del q 0 s2)) = queued s).
  { intros s2 Hb2 Hn2. unfold queued.
    destruct q; simpl in *; rewrite ?length_delete, ?Hb2, ?Hn2, Hq; simpl;
      try lia.
    all: apply lookup_lt_is_Some; rewrite ?Hb2, ?Hn2, Hq; simpl; lia. }
  destruct (join_finished s1).
  - pose proof (dispatch_one_frame q cevent s1) as Hf.
    destruct (__corosync_dispatch_one q cevent s1) as [b s2|]; simpl in *;
      [|done].
    destruct Hf as (_ & _ & _ & _ & _ & Hb2 & Hn2).
    destruct b; [apply Hdel; congruence|].
    unfold queued. congruence.
  - destruct (_ || _); [unfold queued; congruence|]. apply Hdel; congruence.
Qed.

Lemma dispatch_event_halts q cevent s h s' :
  dispatch_event q cevent s = Halt h s' -> h = EXIT 1 \/ h = UNDEFINED.
Proof.
  unfold dispatch_event.
  destruct (update_join_status cevent s) as [[] s1|h1 s1] eqn:Hu; simpl.
  - destruct (join_finished s1).
    + destruct (__corosync_dispatch_one q cevent s1) as [b s2|h2 s2] eqn:Hd;
        simpl.
      * by destruct b.
      * intros [= <- <-]. by eapply dispatch_one_halts.
    + by destruct (_ || _).
  - intros [= <- <-]. right. by eapply update_join_status_halts.
Qed.

(** The bound on the iterations is never reached. *)
Lemma dispatch_loop_halts fuel s h s' :
  (queued s <= fuel)%nat ->
  dispatch_loop fuel s = Halt h s' -> h = EXIT 1 \/ h = UNDEFINED.
Proof.
  revert s. induction fuel as [|fuel IH]; intros s Hfuel; simpl.
  - unfold first_event, queued in *.
    destruct (corosync_nonblock_event_list s), (corosync_block_event_list s);
      simpl in *; try done; lia.
  - destruct (first_event s) as [[q cevent]|] eqn:Hfirst; [|done].
    pose proof (dispatch_event_queued _ _ _ Hfirst) as Hq.
    destruct (dispatch_event q cevent s) as [[] s1|h1 s1] eqn:Hd; simpl.
    + apply IH. lia.
    + done.
    + intros [= <- <-]. by eapply dispatch_event_halts.
Qed.

Lemma corosync_dispatch_halts pending s h s' :
  __corosync_dispatch pending s = Halt h s' -> h = EXIT 1 \/ h = UNDEFINED.
Proof.
  unfold __corosync_dispatch. destruct pending; [done|].
  apply dispatch_loop_halts. by unfold queued.
Qed.

(** ** The partition guard *)

Lemma check_network_partition_cases (m l : Z) s :
  0 <= m -> 0 < l -> m + l <= SIZE_MAX ->
  let check := check_network_partition m l s in
  nr_majority (final check) =
    (if (nr_majority s =? 0) && (2 <? m + l) then (m + l) / 2 + 1
     else nr_majority s) /\
  (m = 0 -> check = Halt (PANIC "NIC failure?") (final check)) /\
  (0 < m -> m < nr_majority (final check) ->
   check = Halt (PANIC "Network partition is detected") (final check)) /\
  (0 < m -> nr_majority (final check) <= m -> check = Ret tt (final check)) /\
  (nr_majority (final check) = nr_majority s -> final check = s).
Proof.
  intros Hm Hl Hfit. unfold check_network_partition, SIZE_MAX in *.
  destruct (Z.eqb_spec l 0) as [|_]; [lia|].
  rewrite (Z.mod_small (m + l)) by lia.
  destruct (Z.eqb_spec (nr_majority s) 0) as [Hz|Hz];
    destruct (Z.ltb_spec 2 (m + l)) as [Ht|Ht]; simpl;
    destruct (Z.eqb_spec m 0) as [Hm0|Hm0]; simpl.
  all: repeat match goal with
         | |- context [?a <? ?b] => destruct (Z.ltb_spec a b); simpl
         end.
  all: repeat split; try done; try lia.
  all: intros; exfalso; assert (1 <= (m + l) / 2) by
         (apply Z.div_le_lower_bound; lia); lia.
Qed.

Lemma confchg_after_check member_list left_list joined_list pending s :
  let check :=
    check_network_partition (Z.of_nat (length member_list))
      (Z.of_nat (length left_list)) s in
  let outcome :=
    cdrv_cpg_confchg member_list left_list joined_list pending s in
  (forall h, check = Halt h (final check) -> outcome = Halt h (final check)) /\
  (check = Ret tt (final check) ->
   forall what s', outcome <> Halt (PANIC what) s').
Proof.
  simpl. unfold cdrv_cpg_confchg. split.
  - by intros h ->.
  - intros -> what s'. simpl.
    destruct (confchg_events _ _ _ _) as [[] s1|h1 s1] eqn:Hq; simpl.
    + intros [?|?]%corosync_dispatch_halts; done.
    + revert Hq. unfold confchg_events. repeat case_match; by intros [= <- <-].
Qed.

(** C3: in a membership-change callback with a non-empty left list, a
    threshold that is 0 is armed to [(|member| + |left|) / 2 + 1] when
    [|member| + |left| > 2]; the process then aborts exactly when
    [|member| = 0] or [|member|] is below the threshold.  With two nodes of
    which one leaves the threshold stays 0 and nothing aborts; with three
    nodes of which two leave in one callback the survivor aborts.  The
    counts are [size_t] values whose sum does not wrap. *)
Theorem partition_guard (member_list left_list joined_list : list cpg_address)
    (pending : bool) s :
  left_list <> [] ->
  Z.of_nat (length member_list) + Z.of_nat (length left_list) <= SIZE_MAX ->
  let members := Z.of_nat (length member_list) in
  let total := members + Z.of_nat (length left_list) in
  let check :=
    check_network_partition members (Z.of_nat (length left_list)) s in
  let outcome :=
    cdrv_cpg_confchg member_list left_list joined_list pending s in
  (nr_majority s = 0 -> 2 < total ->
   nr_majority (final check) = total / 2 + 1) /\
  (nr_majority s <> 0 \/ total <= 2 -> final check = s) /\
  ((exists what s', outcome = Halt (PANIC what) s') <->
   members = 0 \/ members < nr_majority (final check)) /\
  (members = 0 -> outcome = Halt (PANIC "NIC failure?") (final check)) /\
  (0 < members < nr_majority (final check) ->
   outcome = Halt (PANIC "Network partition is detected") (final check)) /\
  (nr_majority s = 0 -> members = 1 -> total = 2 ->
   check = Ret tt s /\ nr_majority (final check) = 0 /\
   forall what s', outcome <> Halt (PANIC what) s') /\
  (nr_majority s = 0 \/ 2 <= nr_majority s -> members = 1 -> total = 3 ->
   outcome = Halt (PANIC "Network partition is detected") (final check) /\
   2 <= nr_majority (final check)).
Proof.
  intros Hleft Hfit members total check outcome.
  assert (Hl : 0 < Z.of_nat (length left_list))
    by (destruct left_list; [done | simpl; lia]).
  assert (Hm : 0 <= members) by (unfold members; lia).
  destruct (check_network_partition_cases members _ s Hm Hl Hfit)
    as (Hthr & Hnic & Hpart & Hok & Hsame).
  destruct (confchg_after_check member_list left_list joined_list pending s)
    as (Hhalt & Hret).
  fold members check outcome in Hthr, Hnic, Hpart, Hok, Hsame, Hhalt, Hret.
  fold total in Hthr.
  assert (Harmed : nr_majority s = 0 -> 2 < total ->
                   nr_majority (final check) = total / 2 + 1).
  { intros Hz Ht. rewrite Hthr, Hz.
    destruct (Z.ltb_spec 2 total); [done | lia]. }
  assert (Hkept : nr_majority s <> 0 \/ total <= 2 -> final check = s).
  { intros Hc. apply Hsame. rewrite Hthr.
    destruct (Z.eqb_spec (nr_majority s) 0), (Z.ltb_spec 2 total);
      simpl; try done. lia. }
  assert (Hiff : (exists what s', outcome = Halt (PANIC what) s') <->
                 members = 0 \/ members < nr_majority (final check)).
  { split.
    - intros (what & s' & Hout).
      destruct (decide (members = 0)) as [|Hne]; [by left|]. right.
      destruct (Z.lt_ge_cases members (nr_majority (final check))); [done|].
      exfalso. eapply Hret; [apply Hok; lia | exact Hout].
    - intros Hc. destruct (decide (members = 0)) as [Hz|Hne].
      + eexists _, _. apply Hhalt, Hnic, Hz.
      + eexists _, _. apply Hhalt, Hpart; lia. }
  assert (Htwo : nr_majority s = 0 -> members = 1 -> total = 2 ->
                 check = Ret tt s /\ nr_majority (final check) = 0 /\
                 forall what s', outcome <> Halt (PANIC what) s').
  { intros Hz H1 H2. assert (Hs : final check = s) by (apply Hkept; lia).
    assert (Hc : check = Ret tt s).
    { assert (Hc : check = Ret tt (final check))
        by (apply Hok; [lia | rewrite Hs; lia]).
      by rewrite Hs in Hc. }
    repeat split; [done | by rewrite Hs |].
    apply Hret. by rewrite Hs. }
  assert (Hthree : nr_majority s = 0 \/ 2 <= nr_majority s ->
                   members = 1 -> total = 3 ->
                   2 <= nr_majority (final check)).
  { intros [Hz|Hge] H1 H3.
    - rewrite Harmed by lia. rewrite H3. change (3 / 2 + 1) with 2. lia.
    - rewrite Hkept by lia. lia. }
  split; [exact Harmed|]. split; [exact Hkept|]. split; [exact Hiff|].
  split; [intros Hz; apply Hhalt, Hnic, Hz|].
  split; [intros [Hpos Hlt]; by apply Hhalt, Hpart|].
  split; [exact Htwo|].
  intros Hc H1 H3. specialize (Hthree Hc H1 H3).
  split; [|done]. apply Hhalt, Hpart; lia.
Qed.

(** ** Before the join has finished *)

Lemma dispatch_event_join_finished q cevent s :
  join_finished s = true ->
  join_finished (final (dispatch_event q cevent s)) = true.
Proof.
  intros Hjf. unfold dispatch_event, update_join_status. rewrite Hjf. simpl.
  rewrite Hjf.
  pose proof (dispatch_one_frame q cevent s) as (_ & Hf & _).
  destruct (__corosync_dispatch_one q cevent s) as [[] s1|h1 s1]; simpl in *;
    try congruence.
  destruct (list_del_frame q 0 s1) as (_ & _ & _ & -> & _). congruence.
Qed.

Lemma dispatch_loop_join_finished fuel s :
  join_finished s = true ->
  join_finished (final (dispatch_loop fuel s)) = true.
Proof.
  revert s. induction fuel as [|fuel IH]; intros s Hjf; simpl.
  - by destruct (first_event s) as [[]|].
  - destruct (first_event s) as [[q cevent]|]; [|done].
    pose proof (dispatch_event_join_finished q cevent s Hjf) as Hd.
    destruct (dispatch_event q cevent s) as [[] s1|h1 s1]; simpl in *;
      [by apply IH | done | done].
Qed.

(** ** UNBLOCK without a queued BLOCK *)

Lemma find_on_None (l : list corosync_event) ty sender' :
  find_on l ty sender' = None <->
  Forall (fun e => event_matches ty sender' e = false) l.
Proof.
  unfold find_on. rewrite fmap_None, list_find_None.
  apply Forall_proper; [|done]. intros e. by destruct (event_matches _ _ e).
Qed.

(** C2, as the code has it: when no BLOCK event of sender X is queued, the
    delivery of an UNBLOCK multicast of X unlinks nothing and calls no
    handler during intake, and leaves the block list, the roster and the
    other variables as they are; it appends one new NOTIFY event with the
    sender and the payload of the multicast to the non-block list, and then
    calls the dispatcher on that state. *)
Theorem unblock_without_block (cmsg : corosync_message) (pending : bool) s :
  m_type cmsg = COROSYNC_MSG_TYPE_UNBLOCK ->
  Forall (fun e => type e = COROSYNC_EVENT_TYPE_BLOCK ->
                   node_id (sender e) <> node_id (m_sender cmsg))
    (corosync_block_event_list s) ->
  let notify :=
    mk_event (next_event s) COROSYNC_EVENT_TYPE_NOTIFY (m_sender cmsg)
      (copy_payload (m_msg cmsg) (m_msg_len cmsg)) (m_msg_len cmsg)
      CJ_RES_SUCCESS 0 (replicate SD_MAX_NODES cpg_node_zero) false in
  exists s1,
    deliver_message cmsg s = Ret tt s1 /\
    cdrv_cpg_deliver cmsg pending s = __corosync_dispatch pending s1 /\
    cdrv_cpg_deliver cmsg true s = Ret tt s1 /\
    corosync_nonblock_event_list s1
      = corosync_nonblock_event_list s ++ [notify] /\
    corosync_block_event_list s1 = corosync_block_event_list s /\
    cpg_nodes s1 = cpg_nodes s /\
    nr_cpg_nodes s1 = nr_cpg_nodes s /\
    self_elect s1 = self_elect s /\
    join_finished s1 = join_finished s /\
    nr_majority s1 = nr_majority s /\
    host_state s1 = host_state s /\
    log s1 = log s.
Proof.
  intros Hty Hnone. simpl.
  assert (Hfind : find_event COROSYNC_EVENT_TYPE_BLOCK (m_sender cmsg) s
                  = None).
  { unfold find_event, find_block_event. simpl.
    replace (find_on _ _ _) with (@None nat); [done|].
    symmetry. apply find_on_None. eapply Forall_impl; [exact Hnone|].
    intros e He. unfold event_matches.
    destruct (cpg_node_equal (sender e) (m_sender cmsg)) eqn:Heq;
      [|by rewrite andb_false_r].
    apply cpg_node_equal_id in Heq. rewrite andb_true_r.
    unfold event_type_eqb. destruct (type e) eqn:Et; simpl; try done.
    by destruct (He Et). }
  unfold cdrv_cpg_deliver, deliver_message, update_event.
  rewrite Hty, Hfind. simpl. eexists. split_and!; reflexivity.
Qed.

(** ** NodeIds of the roster *)

Lemma roster_ids_alter_gone (nodes : list cpg_node) n g i :
  node_id <$> take n (alter (set_gone g) i nodes) = node_id <$> take n nodes.
Proof.
  rewrite !fmap_take. f_equal.
  rewrite (list_fmap_alter node_id (set_gone g) id).
  - apply list_alter_id. done.
  - by apply Forall_forall.
Qed.

Lemma revoke_mastership_roster node s :
  node_id <$> roster (revoke_mastership node s) = node_id <$> roster s /\
  nr_cpg_nodes (revoke_mastership node s) = nr_cpg_nodes s /\
  length (cpg_nodes (revoke_mastership node s)) = length (cpg_nodes s).
Proof.
  unfold revoke_mastership, roster. destruct (0 <=? _); [|done]. simpl.
  by rewrite roster_ids_alter_gone, length_alter.
Qed.

Lemma queue_event_frame cevent s :
  cpg_nodes (queue_event cevent s) = cpg_nodes s /\
  nr_cpg_nodes (queue_event cevent s) = nr_cpg_nodes s /\
  self_elect (queue_event cevent s) = self_elect s /\
  join_finished (queue_event cevent s) = join_finished s /\
  nr_majority (queue_event cevent s) = nr_majority s /\
  this_node (queue_event cevent s) = this_node s /\
  next_event (queue_event cevent s) = next_event s /\
  host_state (queue_event cevent s) = host_state s /\
  log (queue_event cevent s) = log s.
Proof. unfold queue_event. by destruct (event_type_eqb _ _). Qed.

Lemma roster_queue_event cevent s : roster (queue_event cevent s) = roster s.
Proof.
  unfold roster. by destruct (queue_event_frame cevent s) as (-> & -> & _).
Qed.

Lemma roster_list_del q i s : roster (list_del q i s) = roster s.
Proof.
  unfold roster. by destruct (list_del_frame q i s) as (-> & -> & _).
Qed.

Lemma roster_update_at q i f s : roster (update_at q i f s) = roster s.
Proof.
  unfold roster. by destruct (update_at_frame q i f s) as (-> & -> & _).
Qed.

Lemma roster_set_next_event n s : roster (set_next_event n s) = roster s.
Proof. done. Qed.

Lemma confchg_left_roster node s :
  node_id <$> roster (confchg_left node s) = node_id <$> roster s.
Proof.
  unfold confchg_left, xzalloc_event.
  destruct (find_event _ _ s) as [[q i]|]; [by rewrite roster_list_del|].
  rewrite roster_queue_event.
  match goal with |- context [revoke_mastership ?n ?s'] =>
    destruct (revoke_mastership_roster n s') as (-> & _) end.
  destruct (find_event _ _ s) as [[q i]|]; [|done].
  unfold roster. simpl. by destruct (list_del_frame q i s) as (-> & -> & _).
Qed.

Lemma confchg_joined_roster node s :
  node_id <$> roster (confchg_joined node s) = node_id <$> roster s.
Proof.
  unfold confchg_joined, xzalloc_event. by rewrite roster_queue_event.
Qed.

Lemma confchg_events_roster member_list left_list joined_list s :
  node_id <$>
    roster (final (confchg_events member_list left_list joined_list s))
  = node_id <$> roster s.
Proof.
  unfold confchg_events.
  destruct (build_cpg_node_list _ member_list) as [ms|]; [|done].
  destruct (build_cpg_node_list _ left_list) as [ls|]; [|done].
  destruct (build_cpg_node_list _ joined_list) as [js|]; [|done].
  simpl.
  assert (Hl : forall l s0,
    node_id <$> roster (foldl (fun s n => confchg_left n s) s0 l)
    = node_id <$> roster s0).
  { induction l as [|n l IH]; intros s0; simpl; [done|].
    by rewrite IH, confchg_left_roster. }
  assert (Hj : forall l s0,
    node_id <$> roster (foldl (fun s n => confchg_joined n s) s0 l)
    = node_id <$> roster s0).
  { induction l as [|n l IH]; intros s0; simpl; [done|].
    by rewrite IH, confchg_joined_roster. }
  repeat case_match; unfold roster in *; simpl; by rewrite Hj, Hl.
Qed.

Lemma deliver_message_roster cmsg s :
  node_id <$> roster (final (deliver_message cmsg s)) = node_id <$> roster s.
Proof.
  unfold deliver_message, update_event, event_of_message, xzalloc_event.
  destruct (m_type cmsg); simpl.
  all: repeat match goal with
         | |- context [find_event ?t ?n ?s'] =>
             destruct (find_event t n s') as [[? ?]|]; simpl
         | |- context [match ?x !! ?i with _ => _ end] =>
             destruct (x !! i); simpl
         | |- context [memcpy_nodes ?a ?b ?c] =>
             destruct (memcpy_nodes a b c); simpl
         end.
  all: rewrite ?roster_queue_event.
  all: try match goal with |- context [revoke_mastership ?n ?s'] =>
         destruct (revoke_mastership_roster n s') as (-> & _) end.
  all: by rewrite ?roster_set_next_event, ?roster_update_at, ?roster_list_del,
          ?roster_update_at.
Qed.

(** ** [sd_check_join_cb] is called once per event *)

Lemma well_queued_related (C : list nat) n (es es' : list corosync_event) :
  Forall2 (fun e e' => ev_id e' = ev_id e /\ (settled C e -> settled C e'))
    es es' ->
  well_queued C n es -> well_queued C n es'.
Proof.
  intros Hrel (Hlt & Hnd & Hset).
  assert (Hids : ev_id <$> es' = ev_id <$> es).
  { clear Hlt Hnd Hset.
    induction Hrel as [|e e' es es' [Hid _] _ IH]; [done|].
    rewrite !fmap_cons. by rewrite Hid, IH. }
  split_and!.
  - clear Hnd Hset Hids. induction Hrel as [|e e' es es' [Hid _] _ IH];
      [done|]. apply Forall_cons in Hlt as [? ?].
    constructor; [lia | by apply IH].
  - by rewrite Hids.
  - clear Hnd Hlt Hids. induction Hrel as [|e e' es es' [_ Hs] _ IH];
      [done|]. apply Forall_cons in Hset as [? ?].
    constructor; [by apply Hs | by apply IH].
Qed.

Lemma related_refl (C : list nat) (es : list corosync_event) :
  Forall2 (fun e e' => ev_id e' = ev_id e /\ (settled C e -> settled C e'))
    es es.
Proof. induction es; constructor; auto. Qed.

Lemma related_alter (C : list nat) (es : list corosync_event) f i :
  (forall e, ev_id (f e) = ev_id e /\ (settled C e -> settled C (f e))) ->
  Forall2 (fun e e' => ev_id e' = ev_id e /\ (settled C e -> settled C e'))
    es (alter f i es).
Proof.
  intros Hf. revert i. induction es as [|e es IH]; intros [|i]; simpl.
  - constructor.
  - constructor.
  - constructor; [apply Hf | apply related_refl].
  - constructor; [done | apply IH].
Qed.

Lemma well_queued_sublist (C : list nat) n (es es' : list corosync_event) :
  es' `sublist_of` es -> well_queued C n es -> well_queued C n es'.
Proof.
  intros Hsub (Hlt & Hnd & Hset).
  pose proof (sublist_subseteq _ _ Hsub) as Hin.
  unfold well_queued. rewrite !Forall_forall in *. split_and!.
  - intros e He. by apply Hlt, Hin.
  - eapply sublist_NoDup; [done|]. by apply fmap_sublist.
  - intros e He. by apply Hset, Hin.
Qed.

Lemma well_queued_perm (C : list nat) n (es es' : list corosync_event) :
  es ≡ₚ es' -> well_queued C n es -> well_queued C n es'.
Proof.
  intros Hp (Hlt & Hnd & Hset). split_and!; by rewrite <- Hp.
Qed.

Lemma well_queued_fresh (C : list nat) n (es : list corosync_event) e :
  Forall (fun i => (i < n)%nat) C ->
  ev_id e = n ->
  well_queued C n es -> well_queued C (S n) (es ++ [e]).
Proof.
  intros HC Hid (Hlt & Hnd & Hset). split_and!.
  - apply Forall_app. split.
    + eapply Forall_impl; [exact Hlt|]. intros e' He'. simpl in *. lia.
    + constructor; [lia | done].
  - rewrite fmap_app. apply NoDup_app.
    split_and!; [done | | apply NoDup_singleton].
    intros x Hx ->%list_elem_of_singleton.
    apply list_elem_of_fmap in Hx as (e' & He' & Hin).
    rewrite Forall_forall in Hlt. specialize (Hlt e' Hin). lia.
  - apply Forall_app. split; [done|]. constructor; [|done].
    intros Hin. rewrite Forall_forall in HC. specialize (HC _ Hin). lia.
Qed.

Lemma well_queued_later (C : list nat) n (es : list corosync_event) :
  well_queued C n es -> well_queued C (S n) es.
Proof.
  intros (Hlt & Hnd & Hset). split_and!; try done.
  eapply Forall_impl; [exact Hlt|]. intros e' He'. simpl in *. lia.
Qed.

(** The call itself: the event at the head of [l2] was not called for yet,
    and from now on it is. *)
Lemma well_queued_check (C : list nat) n (l1 l2 : list corosync_event) e :
  callbacked e = false ->
  type e <> COROSYNC_EVENT_TYPE_BLOCK ->
  well_queued C n (l1 ++ e :: l2) ->
  (ev_id e ∉ C) /\ (ev_id e < n)%nat /\
  well_queued (C ++ [ev_id e]) n (l1 ++ set_callbacked true e :: l2).
Proof.
  intros Hcb Hty (Hlt & Hnd & Hset).
  assert (Hnew : ev_id e ∉ C).
  { intros Hin. rewrite Forall_app, Forall_cons in Hset.
    destruct Hset as (_ & He & _). destruct (He Hin). congruence. }
  assert (Hlte : (ev_id e < n)%nat).
  { rewrite Forall_app, Forall_cons in Hlt. by destruct Hlt as (_ & ? & _). }
  split; [done|]. split; [done|]. unfold well_queued. split_and!.
  - rewrite Forall_app, Forall_cons in Hlt |- *.
    destruct Hlt as (? & ? & ?). by split_and!.
  - by rewrite fmap_app in *.
  - rewrite fmap_app, fmap_cons in Hnd.
    apply NoDup_app in Hnd as (Hn1 & Hdis & Hn2).
    apply NoDup_cons in Hn2 as (Hne & Hn2).
    rewrite Forall_app, Forall_cons in Hset. destruct Hset as (Hs1 & _ & Hs2).
    apply Forall_app. split; [|constructor].
    + rewrite Forall_forall in Hs1. apply Forall_forall. intros e1 Hin1 Hc.
      apply Hs1; [done|]. apply elem_of_app in Hc as [?|Hc]; [done|].
      apply list_elem_of_singleton in Hc. exfalso.
      apply (Hdis (ev_id e1)); [by apply list_elem_of_fmap_2|].
      rewrite Hc. by left.
    + done.
    + rewrite Forall_forall in Hs2. apply Forall_forall. intros e2 Hin2 Hc.
      apply Hs2; [done|]. apply elem_of_app in Hc as [?|Hc]; [done|].
      apply list_elem_of_singleton in Hc. exfalso. apply Hne.
      rewrite <- Hc. by apply list_elem_of_fmap_2.
Qed.

Lemma called_once_eq s s' :
  all_events s' = all_events s ->
  next_event s' = next_event s ->
  checked (log s') = checked (log s) ->
  called_once s -> called_once s'.
Proof. unfold called_once. by intros -> -> ->. Qed.

Lemma checked_snoc (l : list action) a :
  checked (l ++ [a]) =
  checked l ++ match a with UP_check_join ev _ _ => [ev] | _ => [] end.
Proof. unfold checked. rewrite omap_app. by destruct a. Qed.

Lemma called_once_NoDup s : called_once s -> NoDup (checked (log s)).
Proof. by intros (_ & _ & ?). Qed.

Lemma called_once_update_at q i f s :
  (forall e, ev_id (f e) = ev_id e /\ callbacked (f e) = callbacked e /\
             (type e <> COROSYNC_EVENT_TYPE_BLOCK ->
              type (f e) <> COROSYNC_EVENT_TYPE_BLOCK)) ->
  called_once s -> called_once (update_at q i f s).
Proof.
  intros Hf (Hq & HC & Hnd).
  destruct (update_at_frame q i f s)
    as (_ & _ & _ & _ & _ & _ & Hn & _ & Hl & _).
  unfold called_once. rewrite Hn, Hl. split_and!; try done.
  eapply well_queued_related; [|exact Hq].
  assert (Hrel : forall e, ev_id (f e) = ev_id e /\
            (settled (checked (log s)) e -> settled (checked (log s)) (f e))).
  { intros e. destruct (Hf e) as (Hid & Hcb & Hty). split; [done|].
    unfold settled. rewrite Hid, Hcb. intros Hs Hin.
    destruct (Hs Hin) as [? ?]. split; [done | by apply Hty]. }
  unfold all_events. destruct q; simpl; apply Forall2_app;
    auto using related_refl, related_alter.
Qed.

Lemma called_once_list_del q i s :
  called_once s -> called_once (list_del q i s).
Proof.
  intros (Hq & HC & Hnd).
  destruct (list_del_frame q i s) as (_ & _ & _ & _ & _ & _ & Hn & _ & Hl).
  unfold called_once. rewrite Hn, Hl. split_and!; try done.
  eapply well_queued_sublist; [|exact Hq].
  unfold all_events. destruct q; simpl; apply sublist_app;
    auto using sublist_delete.
Qed.

Lemma called_once_queue_event cevent s0 s :
  called_once s0 ->
  all_events s = all_events s0 ->
  next_event s = S (next_event s0) ->
  checked (log s) = checked (log s0) ->
  ev_id cevent = next_event s0 ->
  called_once (queue_event cevent s).
Proof.
  intros (Hq & HC & Hnd) He Hn Hl Hid.
  destruct (queue_event_frame cevent s)
    as (_ & _ & _ & _ & _ & _ & Hn' & _ & Hl').
  unfold called_once. rewrite Hn', Hl', Hn, Hl. split_and!; try done.
  - apply (well_queued_perm _ _ (all_events s0 ++ [cevent]));
      [|by apply well_queued_fresh].
    rewrite <- He. unfold all_events, queue_event.
    destruct (event_type_eqb _ _); simpl; [|by rewrite app_assoc].
    rewrite <- !app_assoc. apply Permutation_app_head, Permutation_app_comm.
  - eapply Forall_impl; [exact HC|]. intros j Hj. simpl in *. lia.
Qed.

Lemma called_once_next_event s :
  called_once s -> called_once (set_next_event (S (next_event s)) s).
Proof.
  intros (Hq & HC & Hnd). unfold called_once. simpl. split_and!; try done.
  - by apply well_queued_later.
  - eapply Forall_impl; [exact HC|]. intros j Hj. simpl in *. lia.
Qed.

Lemma revoke_mastership_called_once node s :
  called_once s -> called_once (revoke_mastership node s).
Proof.
  apply called_once_eq; unfold revoke_mastership; by destruct (0 <=? _).
Qed.

Lemma update_event_called_once ty sender' bytes len s :
  called_once s ->
  called_once (update_event ty sender' bytes len s).2 /\
  next_event (update_event ty sender' bytes len s).2 = next_event s.
Proof.
  intros Hs. unfold update_event.
  destruct (find_event ty sender' s) as [[q i]|]; simpl; [|done]. split.
  - apply called_once_update_at; [|done]. intros e. by split_and!.
  - by destruct (update_at_frame q i
                   (fun e => set_msg (copy_payload bytes len)
                               (set_msg_len len e)) s)
      as (_ & _ & _ & _ & _ & _ & -> & _).
Qed.

Lemma deliver_message_called_once cmsg s :
  called_once s -> called_once_after (deliver_message cmsg s).
Proof.
  intros Hs. unfold deliver_message, event_of_message, xzalloc_event.
  destruct (m_type cmsg).
  - destruct (update_event_called_once COROSYNC_EVENT_TYPE_JOIN_REQUEST
                (m_sender cmsg) (m_msg cmsg) (m_msg_len cmsg) s Hs) as (Hu & _).
    destruct (update_event _ _ _ _ s) as [[[q i]|] s1]; simpl in *; [|done].
    apply called_once_update_at; [|done]. intros e. by split_and!.
  - destruct (update_event_called_once COROSYNC_EVENT_TYPE_JOIN_REQUEST
                (m_sender cmsg) (m_msg cmsg) (m_msg_len cmsg) s Hs) as (Hu & _).
    destruct (update_event _ _ _ _ s) as [[[q i]|] s1]; simpl in *; [|done].
    destruct (events q s1 !! i); simpl; [|done].
    destruct (memcpy_nodes _ _ _); simpl; [|by apply called_once_NoDup].
    apply called_once_update_at; [|done]. intros e. by split_and!.
  - simpl. eapply called_once_queue_event; [exact Hs|..]; try done.
    all: unfold revoke_mastership; by destruct (0 <=? _).
  - simpl. by eapply called_once_queue_event.
  - simpl. by eapply called_once_queue_event.
  - destruct (update_event_called_once COROSYNC_EVENT_TYPE_BLOCK
                (m_sender cmsg) (m_msg cmsg) (m_msg_len cmsg) s Hs) as (Hu & _).
    destruct (update_event _ _ _ _ s) as [[[q i]|] s1]; simpl in *.
    + eapply called_once_queue_event; [by apply called_once_list_del, Hu|..];
        done.
    + by eapply called_once_queue_event.
Qed.

Lemma confchg_left_called_once node s :
  called_once s -> called_once (confchg_left node s).
Proof.
  intros Hs. unfold confchg_left, xzalloc_event.
  destruct (find_event _ _ s) as [[q i]|]; [by apply called_once_list_del|].
  assert (Hs1 : called_once
    match find_event COROSYNC_EVENT_TYPE_BLOCK node s with
    | Some (q, i) => list_del q i s
    | None => s
    end).
  { destruct (find_event _ _ s) as [[q i]|]; [|done].
    by apply called_once_list_del. }
  eapply called_once_queue_event; [exact Hs1|..]; try done.
  all: unfold revoke_mastership; by destruct (0 <=? _).
Qed.

Lemma confchg_joined_called_once node s :
  called_once s -> called_once (confchg_joined node s).
Proof.
  intros Hs. unfold confchg_joined, xzalloc_event.
  by eapply called_once_queue_event.
Qed.

Lemma confchg_events_called_once member_list left_list joined_list s :
  called_once s ->
  called_once_after (confchg_events member_list left_list joined_list s).
Proof.
  intros Hs. unfold confchg_events.
  destruct (build_cpg_node_list _ member_list) as [ms|];
    [|by apply called_once_NoDup].
  destruct (build_cpg_node_list _ left_list) as [ls|];
    [|by apply called_once_NoDup].
  destruct (build_cpg_node_list _ joined_list) as [js|];
    [|by apply called_once_NoDup].
  simpl.
  assert (Hl : forall l s0, called_once s0 ->
    called_once (foldl (fun s n => confchg_left n s) s0 l)).
  { induction l as [|n l IH]; intros s0 H0; simpl; [done|].
    by apply IH, confchg_left_called_once. }
  assert (Hj : forall l s0, called_once s0 ->
    called_once (foldl (fun s n => confchg_joined n s) s0 l)).
  { induction l as [|n l IH]; intros s0 H0; simpl; [done|].
    by apply IH, confchg_joined_called_once. }
  repeat case_match; by apply Hj, Hl.
Qed.

Lemma check_network_partition_called_once m l s :
  called_once s -> called_once_after (check_network_partition m l s).
Proof.
  intros Hs. unfold check_network_partition.
  repeat case_match; simpl; try done; try (by apply called_once_NoDup).
Qed.

Lemma update_join_status_called_once cevent s :
  called_once s -> called_once_after (update_join_status cevent s).
Proof.
  intros Hs. unfold update_join_status.
  repeat case_match; simpl; try done; by apply called_once_NoDup.
Qed.

(** A state with the events, the allocation counter and the calls of
    [sd_check_join_cb] of a state [Hs] is about. *)
Ltac same_events Hs :=
  eapply called_once_eq; [..|exact Hs];
  simpl; rewrite ?checked_snoc; simpl; rewrite ?app_nil_r; done.

(** The head of list [q] as a position among all the events. *)
Lemma head_among_all q cevent rest s :
  events q s = cevent :: rest ->
  exists l1 l2,
    all_events s = l1 ++ cevent :: l2 /\
    forall f s',
      corosync_block_event_list s' = corosync_block_event_list s ->
      corosync_nonblock_event_list s' = corosync_nonblock_event_list s ->
      all_events (update_at q 0 f s') = l1 ++ f cevent :: l2.
Proof.
  intros Hq. unfold all_events. destruct q; simpl in *.
  - exists [], (rest ++ corosync_nonblock_event_list s). rewrite Hq.
    split; [done|]. intros f s' -> ->. by rewrite ?Hq.
  - exists (corosync_block_event_list s), rest. rewrite Hq.
    split; [done|]. intros f s' -> ->. by rewrite ?Hq.
Qed.

Lemma dispatch_one_called_once q cevent rest s :
  events q s = cevent :: rest ->
  called_once s ->
  called_once_after (__corosync_dispatch_one q cevent s).
Proof.
  intros Hq Hs.
  destruct (head_among_all _ _ _ _ Hq) as (l1 & l2 & Hall & Hupd).
  pose proof Hs as (Hwq & HC & Hnd).
  unfold __corosync_dispatch_one.
  destruct (type cevent) eqn:Hty.
  - destruct (_ <? 0); [done|].
    destruct (msg cevent) as [m|]; [|done].
    destruct (callbacked cevent) eqn:Hcb; [done|].
    destruct (sd_check_join_cb _ _ _) as [res h].
    rewrite Hall in Hwq.
    destruct (well_queued_check _ _ l1 l2 cevent Hcb ltac:(by rewrite Hty) Hwq)
      as (Hnew & Hlt & Hwq').
    assert (Hnd' : NoDup (checked (log s) ++ [ev_id cevent])).
    { apply NoDup_app. split_and!; [done | | apply NoDup_singleton].
      by intros x Hx ->%list_elem_of_singleton. }
    assert (Hlog : forall s1, log s1 = log s ->
      checked (log (send_message COROSYNC_MSG_TYPE_JOIN_RESPONSE res
                      (sender cevent) (cpg_nodes s1) (nr_cpg_nodes s1)
                      (msg cevent) (msg_len cevent)
                      (record (UP_check_join (ev_id cevent)
                                 (ent (sender cevent)) m) s1)))
      = checked (log s) ++ [ev_id cevent]).
    { intros s1 Hl. unfold send_message. simpl.
      rewrite !checked_snoc, Hl. simpl. by rewrite app_nil_r. }
    destruct res; simpl.
    4: { unfold send_message. simpl. rewrite !checked_snoc. simpl.
         by rewrite app_nil_r. }
    all: unfold called_once.
    all: match goal with |- context [update_at ?q' 0 ?f ?s'] =>
           destruct (update_at_frame q' 0 f s')
             as (_ & _ & _ & _ & _ & _ & -> & _ & -> & _);
           rewrite (Hupd f s') by done
         end.
    all: unfold send_message; simpl; rewrite !checked_snoc; simpl;
         rewrite app_nil_r.
    all: split_and!; [done | | done].
    all: apply Forall_app; split; [done|]; by constructor.
  - destruct (result cevent); simpl.
    2: by same_events Hs.
    all: destruct (add_cpg_node _ _ _); simpl; [by same_events Hs | done].
  - destruct (_ <? 0); [done|]. simpl.
    match goal with |- context [update_at ?q' 0 ?f ?s'] =>
      assert (Hu : called_once (update_at q' 0 f s'))
        by (apply called_once_update_at; [intros e; by split_and!|done]);
      set (s1 := update_at q' 0 f s') in *
    end.
    by same_events Hu.
  - destruct (callbacked cevent); [done|].
    destruct (sd_block_handler _ _) as [accepted h]. simpl.
    unfold called_once.
    match goal with |- context [update_at ?q' 0 ?f ?s'] =>
      destruct (update_at_frame q' 0 f s')
        as (_ & _ & _ & _ & _ & _ & -> & _ & -> & _);
      rewrite (Hupd f s') by done
    end.
    simpl. rewrite checked_snoc. simpl. rewrite app_nil_r.
    split_and!; [|done..].
    eapply well_queued_related; [|exact Hwq]. rewrite Hall.
    apply Forall2_app; [apply related_refl|].
    constructor; [|apply related_refl]. split; [done|].
    intros Hset Hin. destruct (Hset Hin) as [_ Hne]. by rewrite Hty in Hne.
  - simpl. by same_events Hs.
Qed.

Lemma called_once_after_bind {A B : Type} (m : res A)
    (k : A -> state -> res B) :
  called_once_after m ->
  (forall a s, m = Ret a s -> called_once s -> called_once_after (k a s)) ->
  called_once_after (bind m k).
Proof. destruct m as [a s|h s]; simpl; [|done]. intros Hs Hk. by apply Hk. Qed.

Lemma dispatch_event_called_once q cevent s :
  first_event s = Some (q, cevent) ->
  called_once s ->
  called_once_after (dispatch_event q cevent s).
Proof.
  intros (rest & Hq & _)%first_event_head Hs. unfold dispatch_event.
  apply called_once_after_bind; [by apply update_join_status_called_once|].
  intros [] s1 Hu Hs1.
  assert (Hq1 : events q s1 = cevent :: rest).
  { pose proof (update_join_status_frame cevent s) as Hf.
    rewrite Hu in Hf. simpl in Hf.
    destruct Hf as (_ & _ & _ & _ & _ & _ & Hb & Hn & _).
    destruct q; simpl in *; congruence. }
  destruct (join_finished s1).
  - apply called_once_after_bind; [by eapply dispatch_one_called_once|].
    intros [] s2 _ Hs2; simpl; [by apply called_once_list_del | done].
  - destruct (_ || _); simpl; [done | by apply called_once_list_del].
Qed.

Lemma dispatch_loop_called_once fuel s :
  called_once s -> called_once_after (dispatch_loop fuel s).
Proof.
  revert s. induction fuel as [|fuel IH]; intros s Hs; simpl.
  - destruct (first_event s) as [[q cevent]|]; [|done].
    by apply called_once_NoDup.
  - destruct (first_event s) as [[q cevent]|] eqn:Hfirst; [|done].
    apply called_once_after_bind; [by apply dispatch_event_called_once|].
    intros [] s1 _ Hs1; [by apply IH | done].
Qed.

Lemma corosync_dispatch_called_once pending s :
  called_once s -> called_once_after (__corosync_dispatch pending s).
Proof.
  intros Hs. unfold __corosync_dispatch. destruct pending; [done|].
  apply dispatch_loop_called_once. by same_events Hs.
Qed.

Lemma handle_called_once c s :
  called_once s -> called_once_after (handle c s).
Proof.
  intros Hs. destruct c as [cmsg pending|ms ls js pending]; simpl.
  - apply called_once_after_bind; [by apply deliver_message_called_once|].
    intros _ s1 _ Hs1. by apply corosync_dispatch_called_once.
  - apply called_once_after_bind;
      [by apply check_network_partition_called_once|].
    intros _ s1 _ Hs1.
    apply called_once_after_bind; [by apply confchg_events_called_once|].
    intros _ s2 _ Hs2. by apply corosync_dispatch_called_once.
Qed.

Lemma run_called_once cs s :
  called_once s -> called_once_after (run cs s).
Proof.
  revert s. induction cs as [|c cs IH]; intros s Hs; simpl; [done|].
  apply called_once_after_bind; [by apply handle_called_once|].
  intros _ s1 _ Hs1. by apply IH.
Qed.

Lemma initial_state_called_once self h : called_once (initial_state self h).
Proof.
  unfold called_once, well_queued, all_events. simpl.
  split_and!; constructor.
Qed.

(** C7: over every sequence of callbacks, and so of calls of the
    dispatcher, [sd_check_join_cb] is called at most once for an event: no
    event occurs twice among the calls in the log.  While the process runs,
    every queued event it was called for has [callbacked] set; and an
    event of type JOIN_REQUEST with [callbacked] set is not passed to
    [sd_check_join_cb]: the dispatcher returns without a call and without a
    change. *)
Theorem check_join_called_once (self : cpg_node) (h : host)
    (cs : list callback) :
  NoDup (checked (log (final (run cs (initial_state self h))))) /\
  (forall s,
     run cs (initial_state self h) = Ret tt s ->
     forall e, e ∈ all_events s -> ev_id e ∈ checked (log s) ->
               callbacked e = true) /\
  (forall q cevent s,
     type cevent = COROSYNC_EVENT_TYPE_JOIN_REQUEST ->
     callbacked cevent = true ->
     __corosync_dispatch_one q cevent s = Ret false s).
Proof.
  pose proof (run_called_once cs _ (initial_state_called_once self h)) as Hrun.
  split_and!.
  - destruct (run cs _) as [[] s|h' s]; simpl in *;
      [by apply called_once_NoDup | done].
  - intros s Hs e He Hin. rewrite Hs in Hrun. simpl in Hrun.
    destruct Hrun as ((_ & _ & Hset) & _).
    rewrite Forall_forall in Hset. by destruct (Hset e He Hin).
  - intros q cevent s Hty Hcb. unfold __corosync_dispatch_one.
    rewrite Hty, Hcb. by repeat case_match.
Qed.

(** ** Mastership *)

Lemma first_not_gone_from_found (nodes : list cpg_node) i todo j :
  (i <= j < i + todo)%nat ->
  gone (nodes !!! j) = 0 ->
  (forall k, (i <= k < j)%nat -> gone (nodes !!! k) <> 0) ->
  first_not_gone_from nodes i todo = Some j.
Proof.
  revert i. induction todo as [|todo IH]; intros i Hr Hj Hk; simpl; [lia|].
  destruct (Z.eqb_spec (gone (nodes !!! i)) 0) as [Hz|Hnz].
  - destruct (decide (i = j)) as [->|Hne]; [done|].
    exfalso. apply (Hk i); [lia | done].
  - destruct (decide (i = j)) as [->|Hne]; [done|].
    apply IH; [lia | done |]. intros k Hk'. apply Hk. lia.
Qed.

(** As long as some roster entry is not gone, [is_master] answers for the
    first such entry. *)
Lemma is_master_of_live_roster (node : cpg_node) s i :
  (i < nr_cpg_nodes s)%nat ->
  (nr_cpg_nodes s <= SD_MAX_NODES)%nat ->
  gone (cpg_nodes s !!! i) = 0 ->
  (forall k, (k < i)%nat -> gone (cpg_nodes s !!! k) <> 0) ->
  is_master (Some node) s =
    if cpg_node_equal (cpg_nodes s !!! i) node then Z.of_nat i else -1.
Proof.
  intros Hi Hmax Hlive Hgone. unfold is_master.
  destruct (Nat.eqb_spec (nr_cpg_nodes s) 0) as [|_]; [lia|].
  rewrite (first_not_gone_from_found _ 0 _ i); [done | lia | done |].
  intros k Hk. apply Hgone. lia.
Qed.

Lemma is_master_of_empty_roster (node : option cpg_node) s :
  nr_cpg_nodes s = 0%nat -> is_master node s = 0.
Proof. intros Hnr. unfold is_master. by rewrite Hnr. Qed.

(** ** Reachable states are well formed *)

Lemma well_formed_eq s s' :
  cpg_nodes s' = cpg_nodes s ->
  nr_cpg_nodes s' = nr_cpg_nodes s ->
  nr_majority s' = nr_majority s ->
  well_formed s -> well_formed s'.
Proof. unfold well_formed. by intros -> -> ->. Qed.

Lemma well_formed_update_at q i f s :
  well_formed s -> well_formed (update_at q i f s).
Proof.
  destruct (update_at_frame q i f s) as (? & ? & _ & _ & ? & _).
  by apply well_formed_eq.
Qed.

Lemma well_formed_list_del q i s :
  well_formed s -> well_formed (list_del q i s).
Proof.
  destruct (list_del_frame q i s) as (? & ? & _ & _ & ? & _).
  by apply well_formed_eq.
Qed.

Lemma well_formed_queue_event cevent s :
  well_formed s -> well_formed (queue_event cevent s).
Proof.
  destruct (queue_event_frame cevent s) as (? & ? & _ & _ & ? & _).
  by apply well_formed_eq.
Qed.

Lemma well_formed_revoke_mastership node s :
  well_formed s -> well_formed (revoke_mastership node s).
Proof.
  intros (Hlen & Hnr & Hmaj). unfold revoke_mastership.
  destruct (0 <=? _); [|done]. unfold well_formed. simpl.
  by rewrite length_alter.
Qed.

Lemma well_formed_deliver_message cmsg s :
  well_formed s -> well_formed (final (deliver_message cmsg s)).
Proof.
  intros Hs.
  unfold deliver_message, update_event, event_of_message, xzalloc_event.
  destruct (m_type cmsg); simpl.
  all: repeat match goal with
         | |- context [find_event ?t ?n ?s'] =>
             destruct (find_event t n s') as [[? ?]|]; simpl
         | |- context [match ?x !! ?i with _ => _ end] =>
             destruct (x !! i); simpl
         | |- context [memcpy_nodes ?a ?b ?c] =>
             destruct (memcpy_nodes a b c); simpl
         end.
  all: repeat first
         [ apply well_formed_queue_event
         | apply well_formed_update_at
         | apply well_formed_list_del
         | apply well_formed_revoke_mastership ]; try done.
  all: eapply well_formed_eq; [..|
         repeat first [ apply well_formed_list_del
                      | apply well_formed_update_at ]; exact Hs]; done.
Qed.

Lemma well_formed_confchg_events member_list left_list joined_list s :
  well_formed s ->
  well_formed (final (confchg_events member_list left_list joined_list s)).
Proof.
  intros Hs. unfold confchg_events.
  destruct (build_cpg_node_list _ member_list) as [ms|]; [|done].
  destruct (build_cpg_node_list _ left_list) as [ls|]; [|done].
  destruct (build_cpg_node_list _ joined_list) as [js|]; [|done].
  simpl.
  assert (Hleft : forall n s0, well_formed s0 -> well_formed (confchg_left n s0)).
  { intros n s0 H0. unfold confchg_left, xzalloc_event.
    destruct (find_event _ _ s0) as [[q i]|]; [by apply well_formed_list_del|].
    apply well_formed_queue_event, well_formed_revoke_mastership.
    destruct (find_event _ _ s0) as [[q i]|]; [|done].
    eapply well_formed_eq; [..|by apply (well_formed_list_del q i)]; done. }
  assert (Hjoined : forall n s0,
    well_formed s0 -> well_formed (confchg_joined n s0)).
  { intros n s0 H0. unfold confchg_joined, xzalloc_event.
    by apply well_formed_queue_event. }
  assert (Hl : forall l s0, well_formed s0 ->
    well_formed (foldl (fun s n => confchg_left n s) s0 l)).
  { induction l as [|n l IH]; intros s0 H0; simpl; [done|]. by apply IH, Hleft. }
  assert (Hj : forall l s0, well_formed s0 ->
    well_formed (foldl (fun s n => confchg_joined n s) s0 l)).
  { induction l as [|n l IH]; intros s0 H0; simpl; [done|].
    by apply IH, Hjoined. }
  repeat case_match; by apply Hj, Hl.
Qed.

Lemma well_formed_check_network_partition m l s :
  well_formed s -> well_formed (final (check_network_partition m l s)).
Proof.
  intros (Hlen & Hnr & Hmaj). unfold check_network_partition.
  destruct (l =? 0); [done|].
  assert (Harmed : well_formed
    (if nr_majority s =? 0
     then if 2 <? (m + l) mod (SIZE_MAX + 1)
          then set_nr_majority ((m + l) mod (SIZE_MAX + 1) / 2 + 1) s
          else s
     else s)).
  { destruct (nr_majority s =? 0); [|done].
    destruct (Z.ltb_spec 2 ((m + l) mod (SIZE_MAX + 1))) as [Ht|]; [|done].
    split_and!; try done. right. simpl.
    assert (1 <= (m + l) mod (SIZE_MAX + 1) / 2)
      by (apply Z.div_le_lower_bound; lia).
    lia. }
  by repeat case_match.
Qed.

Lemma well_formed_update_join_status cevent s :
  well_formed s -> well_formed (final (update_join_status cevent s)).
Proof.
  intros (Hlen & Hnr & Hmaj). unfold update_join_status.
  destruct (join_finished s); [done|].
  destruct (type cevent); try done.
  - destruct (self_elect s); [|done]. split_and!; simpl; try done. lia.
  - destruct (cpg_node_equal _ _); [|done].
    unfold memcpy_nodes. case_decide as Hfit; [|done].
    unfold well_formed. simpl.
    rewrite length_app, length_take, length_drop. split_and!; try done; lia.
Qed.

Lemma well_formed_dispatch_one q cevent s :
  well_formed s -> well_formed (final (__corosync_dispatch_one q cevent s)).
Proof.
  intros Hs. pose proof Hs as (Hlen & Hnr & Hmaj).
  unfold __corosync_dispatch_one.
  destruct (type cevent).
  - repeat case_match; simpl; try done.
    all: try (apply well_formed_update_at).
    all: unfold well_formed; simpl; split_and!; try done; lia.
  - destruct (result cevent); simpl; try done.
    all: unfold add_cpg_node; case_decide as Hroom; simpl; [|done].
    all: unfold well_formed; simpl; rewrite length_insert.
    all: split_and!; try done; lia.
  - case_match; [done|]. simpl.
    unfold well_formed. simpl.
    match goal with |- context [update_at ?q' 0 ?f ?s'] =>
      destruct (update_at_frame q' 0 f s') as (-> & -> & _ & _ & -> & _)
    end.
    rewrite del_cpg_node_length by lia. split_and!; try done; lia.
  - repeat case_match; simpl; try done.
    apply well_formed_update_at. by eapply well_formed_eq.
  - simpl. by eapply well_formed_eq.
Qed.

Lemma well_formed_dispatch_event q cevent s :
  well_formed s -> well_formed (final (dispatch_event q cevent s)).
Proof.
  intros Hs. unfold dispatch_event.
  pose proof (well_formed_update_join_status cevent s Hs) as H1.
  destruct (update_join_status cevent s) as [[] s1|h1 s1]; simpl in *; [|done].
  destruct (join_finished s1).
  - pose proof (well_formed_dispatch_one q cevent s1 H1) as H2.
    destruct (__corosync_dispatch_one q cevent s1) as [[] s2|h2 s2];
      simpl in *; try done. by apply well_formed_list_del.
  - destruct (_ || _); simpl; [done | by apply well_formed_list_del].
Qed.

Lemma well_formed_dispatch_loop fuel s :
  well_formed s -> well_formed (final (dispatch_loop fuel s)).
Proof.
  revert s. induction fuel as [|fuel IH]; intros s Hs; simpl.
  - by destruct (first_event s) as [[q cevent]|].
  - destruct (first_event s) as [[q cevent]|]; [|done].
    pose proof (well_formed_dispatch_event q cevent s Hs) as H1.
    destruct (dispatch_event q cevent s) as [[] s1|h1 s1]; simpl in *;
      [by apply IH | done | done].
Qed.

Lemma well_formed_corosync_dispatch pending s :
  well_formed s -> well_formed (final (__corosync_dispatch pending s)).
Proof.
  intros Hs. unfold __corosync_dispatch. destruct pending; [done|].
  apply well_formed_dispatch_loop. destruct Hs as (? & ? & ?).
  split_and!; try done. by left.
Qed.

Lemma well_formed_handle c s :
  well_formed s -> well_formed (final (handle c s)).
Proof.
  intros Hs. destruct c as [cmsg pending|ms ls js pending]; simpl.
  - unfold cdrv_cpg_deliver.
    pose proof (well_formed_deliver_message cmsg s Hs) as H1.
    destruct (deliver_message cmsg s) as [[] s1|h1 s1]; simpl in *; [|done].
    by apply well_formed_corosync_dispatch.
  - unfold cdrv_cpg_confchg.
    pose proof (well_formed_check_network_partition
                  (Z.of_nat (length ms)) (Z.of_nat (length ls)) s Hs) as H1.
    destruct (check_network_partition _ _ s) as [[] s1|h1 s1]; simpl in *;
      [|done].
    pose proof (well_formed_confchg_events ms ls js s1 H1) as H2.
    destruct (confchg_events ms ls js s1) as [[] s2|h2 s2]; simpl in *;
      [|done].
    by apply well_formed_corosync_dispatch.
Qed.

(** X26: in every state the driver reaches from its initial state, the one
    a run ends in included, the array [cpg_nodes] has its [SD_MAX_NODES]
    slots, the roster fits into it, and the partition threshold
    [nr_majority] is either not armed (0) or at least 2.  A run ends where
    the C code would store outside an array. *)
Lemma run_well_formed (self : cpg_node) (h : host) (cs : list callback) :
  well_formed (final (run cs (initial_state self h))).
Proof.
  assert (Hinit : well_formed (initial_state self h)).
  { unfold well_formed. simpl. rewrite length_replicate.
    split_and!; [done | lia | by left]. }
  revert Hinit. generalize (initial_state self h).
  induction cs as [|c cs IH]; intros s Hs; simpl; [done|].
  pose proof (well_formed_handle c s Hs) as H1.
  destruct (handle c s) as [[] s1|h1 s1]; simpl in *; [by apply IH | done].
Qed.

(** * Further properties of the driver *)

(** ** The roster as a table of NodeIds *)

Lemma slot_of_take (nodes : list cpg_node) (n k : nat) :
  (k < n)%nat -> (k < length nodes)%nat -> take n nodes !!! k = nodes !!! k.
Proof.
  intros Hk Hlen. apply list_lookup_total_correct.
  rewrite lookup_take_lt by done. by apply list_lookup_lookup_total_lt.
Qed.

Lemma find_cpg_node_cases (nodes : list cpg_node) (n : nat)
    (key : cpg_node) :
  (find_cpg_node nodes n key = -1 /\
   forall k, (k < n)%nat -> node_id (nodes !!! k) <> node_id key) \/
  (exists i,
     find_cpg_node nodes n key = Z.of_nat i /\ (i < n)%nat /\
     node_id (nodes !!! i) = node_id key /\
     forall k, (k < i)%nat -> node_id (nodes !!! k) <> node_id key).
Proof.
  destruct (find_cpg_node_from_range nodes key 0 n) as [Hnone|(i & Hi & Hr)].
  - left. split; [exact Hnone|].
    intros k Hk Heq%cpg_node_equal_id.
    rewrite (proj1 (find_cpg_node_from_none nodes key 0 n) Hnone k) in Heq;
      [done | lia].
  - right. exists i.
    destruct (find_cpg_node_from_found _ _ _ _ _ Hi) as (_ & He & Hk).
    split_and!; [exact Hi | lia | by apply cpg_node_equal_id |].
    intros k Hlt Heq%cpg_node_equal_id. rewrite Hk in Heq; [done | lia].
Qed.

(** X1: [find_cpg_node] answers -1 exactly when none of the first
    [nr_nodes] slots holds the NodeId of the key, and it answers [i] exactly
    when slot [i] is the first of them that does; it never answers anything
    else. *)
Theorem find_cpg_node_first_match (nodes : list cpg_node) (n : nat)
    (key : cpg_node) :
  (find_cpg_node nodes n key = -1 <->
   forall k, (k < n)%nat -> node_id (nodes !!! k) <> node_id key) /\
  (forall i : nat,
     find_cpg_node nodes n key = Z.of_nat i <->
     (i < n)%nat /\ node_id (nodes !!! i) = node_id key /\
     forall k, (k < i)%nat -> node_id (nodes !!! k) <> node_id key) /\
  -1 <= find_cpg_node nodes n key < Z.of_nat n.
Proof.
  destruct (find_cpg_node_cases nodes n key)
    as [[Hnone Hall]|(j & Hj & Hlt & Hid & Hfirst)].
  - split_and!; [| |lia|lia].
    + split; [by intros _|by intros _].
    + intros i. split; [lia|]. intros (Hi & Heq & _). by destruct (Hall i Hi).
  - split_and!; [| |lia|lia].
    + split; [lia|]. intros Hall. by destruct (Hall j Hlt).
    + intros i. split.
      * intros Hi. assert (i = j) as -> by lia. by split_and!.
      * intros (Hi & Heq & Hfirst').
        destruct (Nat.lt_trichotomy i j) as [Hij|[->|Hji]]; [|done|].
        -- by destruct (Hfirst i Hij).
        -- by destruct (Hfirst' j Hji).
Qed.

(** X2: a node whose NodeId is not in the roster is found, once added, in
    the slot behind the old roster, and deleting it again gives the old
    roster back. *)
Theorem add_cpg_node_round_trip (nodes nodes' : list cpg_node) (n : nat)
    (added : cpg_node) :
  add_cpg_node nodes n added = Some nodes' ->
  find_cpg_node nodes n added = -1 ->
  find_cpg_node nodes' (S n) added = Z.of_nat n /\
  take (S n) nodes' = take n nodes ++ [added] /\
  take n (del_cpg_node nodes' (S n) added) = take n nodes /\
  length (del_cpg_node nodes' (S n) added) = length nodes.
Proof.
  intros Hadd Hnew.
  destruct (add_cpg_node_roster _ _ _ _ Hadd) as (Htake & Hlen).
  assert (Hroom : (n < length nodes)%nat).
  { unfold add_cpg_node in Hadd. by case_decide. }
  assert (Hslot : forall k, (k < S n)%nat ->
            nodes' !!! k = (take n nodes ++ [added]) !!! k).
  { intros k Hk. rewrite <- Htake. symmetry. apply slot_of_take; lia. }
  assert (Hfind : find_cpg_node nodes' (S n) added = Z.of_nat n).
  { destruct (find_cpg_node_cases nodes' (S n) added)
      as [(_ & Hno)|(i & Hi & Hlt & Hid & Hbefore)].
    - exfalso. apply (Hno n); [lia|]. rewrite Hslot by lia.
      rewrite lookup_total_app_r by (rewrite length_take; lia).
      rewrite length_take. replace (n - n `min` length nodes)%nat with 0%nat
        by lia. done.
    - destruct (decide (i = n)) as [->|Hne]; [done|]. exfalso.
      destruct (find_cpg_node_cases nodes n added)
        as [(_ & Hno)|(j & Hj & _)]; [|lia].
      apply (Hno i); [lia|]. rewrite <- Hid, Hslot by lia.
      rewrite lookup_total_app_l by (rewrite length_take; lia).
      rewrite slot_of_take by lia. done. }
  split_and!; [done | done | |].
  - pose proof (del_cpg_node_roster nodes' (S n) added n) as Hdel.
    replace (S n - 1)%nat with n in Hdel by lia.
    rewrite Hdel by (done || lia). rewrite Htake.
    rewrite delete_take_drop.
    rewrite take_app_length' by (rewrite length_take; lia).
    rewrite drop_ge by (rewrite length_app, length_take; simpl; lia).
    by rewrite app_nil_r.
  - rewrite del_cpg_node_length by lia. done.
Qed.

(** X3: in a roster without duplicate NodeIds, a deleted node is not found
    any more; and deleting a NodeId that is not in the roster changes
    nothing. *)
Theorem del_cpg_node_forgets (nodes : list cpg_node) (n : nat)
    (key : cpg_node) :
  (n <= length nodes)%nat ->
  NoDup (node_id <$> take n nodes) ->
  find_cpg_node (del_cpg_node nodes n key) (n - 1) key = -1 /\
  (find_cpg_node nodes n key = -1 -> del_cpg_node nodes n key = nodes).
Proof.
  intros Hfit Hnd. split.
  - destruct (find_cpg_node_from_range nodes key 0 n) as [Hnone|(i & Hi & Hr)].
    + unfold del_cpg_node, find_cpg_node at 2. rewrite Hnone. simpl.
      apply find_cpg_node_from_none. intros k Hk.
      apply (proj1 (find_cpg_node_from_none nodes key 0 n) Hnone). lia.
    + pose proof (del_cpg_node_roster _ _ _ _ Hfit Hi) as Hdel.
      pose proof (del_cpg_node_length nodes n key Hfit) as Hlen.
      destruct (find_cpg_node_take _ _ _ _ Hi Hfit) as (Hlook & Hid).
      apply find_cpg_node_absent; [lia|]. rewrite Hdel.
      apply Forall_forall. intros m Hm Heq.
      apply list_elem_of_lookup in Hm as (j & Hj).
      assert (Hij : node_id <$> take n nodes !! i
                    = node_id <$> take n nodes !! (if decide (j < i)%nat
                                                   then j else S j)).
      { rewrite Hlook. simpl. case_decide.
        - rewrite list_lookup_delete_lt in Hj by done. rewrite Hj. simpl.
          congruence.
        - rewrite list_lookup_delete_ge in Hj by lia. rewrite Hj. simpl.
          congruence. }
      rewrite <- !list_lookup_fmap in Hij.
      assert (Hsome : (node_id <$> take n nodes) !! i
                      = Some (node_id (nodes !!! i)))
        by (by rewrite list_lookup_fmap, Hlook).
      rewrite Hsome in Hij. symmetry in Hij.
      pose proof (NoDup_lookup _ _ _ _ Hnd Hsome Hij) as Heq'.
      case_decide; lia.
  - intros Hnone. unfold del_cpg_node. by rewrite Hnone.
Qed.

(** ** Mastership *)

Lemma first_not_gone_from_spec (nodes : list cpg_node) i todo j :
  first_not_gone_from nodes i todo = Some j ->
  (i <= j < i + todo)%nat /\ gone (nodes !!! j) = 0 /\
  forall k, (i <= k < j)%nat -> gone (nodes !!! k) <> 0.
Proof.
  revert i. induction todo as [|todo IH]; intros i; simpl; [done|].
  destruct (Z.eqb_spec (gone (nodes !!! i)) 0) as [Hz|Hnz].
  - intros [= <-]. split_and!; [lia.. | done | intros; lia].
  - intros Hf. destruct (IH _ Hf) as (Hr & Hj & Hk).
    split_and!; [lia.. | done |].
    intros k Hk'. destruct (decide (k = i)) as [->|]; [done|]. apply Hk. lia.
Qed.

(** X4: while the roster is not empty at most one NodeId is master: if
    [is_master] answers an index for two nodes, it is the same index, that
    of the first slot of [cpg_nodes] that is not gone, and the two nodes
    have the NodeId stored there.  With an empty roster [is_master] answers
    0 for every node. *)
Theorem is_master_unique (a b : cpg_node) s :
  0 <= is_master (Some a) s ->
  0 <= is_master (Some b) s ->
  (nr_cpg_nodes s = 0%nat /\
   is_master (Some a) s = 0 /\ is_master (Some b) s = 0) \/
  (nr_cpg_nodes s <> 0%nat /\
   node_id a = node_id b /\
   exists i,
     is_master (Some a) s = Z.of_nat i /\
     is_master (Some b) s = Z.of_nat i /\
     (i < SD_MAX_NODES)%nat /\
     gone (cpg_nodes s !!! i) = 0 /\
     node_id (cpg_nodes s !!! i) = node_id a /\
     forall k, (k < i)%nat -> gone (cpg_nodes s !!! k) <> 0).
Proof.
  unfold is_master. simpl.
  destruct (Nat.eqb_spec (nr_cpg_nodes s) 0) as [Hz|Hnz]; [by left|].
  destruct (first_not_gone_from (cpg_nodes s) 0 SD_MAX_NODES) as [i|] eqn:Hf;
    [|lia].
  destruct (first_not_gone_from_spec _ _ _ _ Hf) as (Hr & Hlive & Hgone).
  destruct (cpg_node_equal (cpg_nodes s !!! i) a) eqn:Ha; [|lia].
  destruct (cpg_node_equal (cpg_nodes s !!! i) b) eqn:Hb; [|lia].
  apply cpg_node_equal_id in Ha, Hb. intros _ _. right.
  split; [done|]. split; [congruence|]. exists i.
  split_and!; try done; [lia|]. intros k Hk. apply Hgone. lia.
Qed.

(** ** What intake does and does not do *)

Lemma revoke_mastership_frame node s :
  nr_cpg_nodes (revoke_mastership node s) = nr_cpg_nodes s /\
  self_elect (revoke_mastership node s) = self_elect s /\
  join_finished (revoke_mastership node s) = join_finished s /\
  nr_majority (revoke_mastership node s) = nr_majority s /\
  this_node (revoke_mastership node s) = this_node s /\
  corosync_block_event_list (revoke_mastership node s)
    = corosync_block_event_list s /\
  corosync_nonblock_event_list (revoke_mastership node s)
    = corosync_nonblock_event_list s /\
  next_event (revoke_mastership node s) = next_event s /\
  host_state (revoke_mastership node s) = host_state s /\
  log (revoke_mastership node s) = log s.
Proof. unfold revoke_mastership. by destruct (0 <=? _). Qed.

Lemma same_outside_refl s : same_outside s s.
Proof. by unfold same_outside. Qed.

Lemma same_outside_trans s1 s2 s3 :
  same_outside s1 s2 -> same_outside s2 s3 -> same_outside s1 s3.
Proof. unfold same_outside. intros (? & ? & ? & ? & ?) (? & ? & ? & ? & ?).
  split_and!; congruence. Qed.

Lemma same_outside_update_at q i f s : same_outside s (update_at q i f s).
Proof.
  destruct (update_at_frame q i f s)
    as (_ & ? & _ & ? & _ & ? & _ & ? & ? & _). by unfold same_outside.
Qed.

Lemma same_outside_list_del q i s : same_outside s (list_del q i s).
Proof.
  destruct (list_del_frame q i s) as (_ & ? & _ & ? & _ & ? & _ & ? & ?).
  by unfold same_outside.
Qed.

Lemma same_outside_queue_event cevent s :
  same_outside s (queue_event cevent s).
Proof.
  destruct (queue_event_frame cevent s)
    as (_ & ? & _ & ? & _ & ? & _ & ? & ?). by unfold same_outside.
Qed.

Lemma same_outside_revoke_mastership node s :
  same_outside s (revoke_mastership node s).
Proof.
  destruct (revoke_mastership_frame node s)
    as (? & _ & ? & _ & ? & _ & _ & _ & ? & ?). by unfold same_outside.
Qed.

Lemma same_outside_deliver_message cmsg s :
  same_outside s (final (deliver_message cmsg s)).
Proof.
  unfold deliver_message, update_event, event_of_message, xzalloc_event.
  destruct (m_type cmsg); simpl.
  all: repeat match goal with
         | |- context [find_event ?t ?n ?s'] =>
             destruct (find_event t n s') as [[? ?]|]; simpl
         | |- context [match ?x !! ?i with _ => _ end] =>
             destruct (x !! i); simpl
         | |- context [memcpy_nodes ?a ?b ?c] =>
             destruct (memcpy_nodes a b c); simpl
         end.
  all: repeat first
         [ apply same_outside_refl
         | eapply same_outside_trans; [|apply same_outside_queue_event]
         | eapply same_outside_trans; [|apply same_outside_update_at]
         | eapply same_outside_trans; [|apply same_outside_list_del]
         | eapply same_outside_trans; [|apply same_outside_revoke_mastership]
         ].
  all: by unfold same_outside.
Qed.

Lemma same_outside_confchg_left node s :
  same_outside s (confchg_left node s).
Proof.
  unfold confchg_left, xzalloc_event.
  destruct (find_event _ _ s) as [[q i]|]; [apply same_outside_list_del|].
  eapply same_outside_trans; [|apply same_outside_queue_event].
  eapply same_outside_trans; [|apply same_outside_revoke_mastership].
  destruct (find_event _ _ s) as [[q i]|]; [|by unfold same_outside].
  eapply same_outside_trans; [apply (same_outside_list_del q i)|].
  by unfold same_outside.
Qed.

Lemma same_outside_confchg_joined node s :
  same_outside s (confchg_joined node s).
Proof.
  unfold confchg_joined, xzalloc_event.
  eapply same_outside_trans; [|apply same_outside_queue_event].
  by unfold same_outside.
Qed.

Lemma same_outside_confchg_events member_list left_list joined_list s :
  same_outside s (final (confchg_events member_list left_list joined_list s)).
Proof.
  unfold confchg_events.
  destruct (build_cpg_node_list _ member_list) as [ms|];
    [|apply same_outside_refl].
  destruct (build_cpg_node_list _ left_list) as [ls|];
    [|apply same_outside_refl].
  destruct (build_cpg_node_list _ joined_list) as [js|];
    [|apply same_outside_refl].
  simpl.
  assert (Hl : forall l s0,
    same_outside s0 (foldl (fun s n => confchg_left n s) s0 l)).
  { induction l as [|n l IH]; intros s0; simpl; [apply same_outside_refl|].
    eapply same_outside_trans; [apply same_outside_confchg_left | apply IH]. }
  assert (Hj : forall l s0,
    same_outside s0 (foldl (fun s n => confchg_joined n s) s0 l)).
  { induction l as [|n l IH]; intros s0; simpl; [apply same_outside_refl|].
    eapply same_outside_trans; [apply same_outside_confchg_joined | apply IH]. }
  eapply same_outside_trans; [apply Hl|].
  eapply same_outside_trans; [apply Hj|].
  repeat case_match; by unfold same_outside.
Qed.

Lemma same_outside_check_network_partition m l s :
  same_outside s (final (check_network_partition m l s)).
Proof.
  unfold check_network_partition. repeat case_match; by unfold same_outside.
Qed.

(** X5: while [poll] reports pending input a callback only queues: it calls
    no handler of the daemon, multicasts nothing, and changes neither
    [join_finished] nor the length and the NodeIds of the roster. *)
Theorem pending_input_only_queues s :
  (forall cmsg,
     let s' := final (cdrv_cpg_deliver cmsg true s) in
     log s' = log s /\ host_state s' = host_state s /\
     join_finished s' = join_finished s /\
     nr_cpg_nodes s' = nr_cpg_nodes s /\
     node_id <$> roster s' = node_id <$> roster s) /\
  (forall member_list left_list joined_list,
     let s' :=
       final (cdrv_cpg_confchg member_list left_list joined_list true s) in
     log s' = log s /\ host_state s' = host_state s /\
     join_finished s' = join_finished s /\
     nr_cpg_nodes s' = nr_cpg_nodes s /\
     node_id <$> roster s' = node_id <$> roster s).
Proof.
  split.
  - intros cmsg. simpl. unfold cdrv_cpg_deliver.
    pose proof (same_outside_deliver_message cmsg s) as (? & ? & ? & _ & ?).
    pose proof (deliver_message_roster cmsg s) as Hr.
    destruct (deliver_message cmsg s) as [[] s1|h1 s1]; simpl in *; done.
  - intros ms ls js. simpl. unfold cdrv_cpg_confchg.
    pose proof (same_outside_check_network_partition
                  (Z.of_nat (length ms)) (Z.of_nat (length ls)) s) as H1.
    assert (Hr1 : roster (final (check_network_partition
                    (Z.of_nat (length ms)) (Z.of_nat (length ls)) s))
                  = roster s).
    { unfold check_network_partition. by repeat case_match. }
    destruct (check_network_partition _ _ s) as [[] s1|h1 s1]; simpl in *.
    2: { destruct H1 as (? & ? & ? & _ & ?). by rewrite Hr1. }
    pose proof (same_outside_confchg_events ms ls js s1) as H2.
    pose proof (confchg_events_roster ms ls js s1) as Hr2.
    pose proof (same_outside_trans _ _ _ H1 H2) as (? & ? & ? & _ & ?).
    destruct (confchg_events ms ls js s1) as [[] s2|h2 s2]; simpl in *;
      rewrite Hr2, Hr1; done.
Qed.

(** ** What the dispatcher does and does not do *)

Lemma answered_app l1 l2 :
  answered l1 -> answered l2 -> answered (l1 ++ l2).
Proof.
  remember (length l1) as n eqn:Hn. revert l1 Hn.
  induction n as [n IH] using lt_wf_ind.
  intros [|a l1] Hn H1 H2; [done|]. simpl in Hn.
  destruct a; simpl in *; try done;
    try (eapply IH; [|reflexivity|done|done]; lia).
  destruct l1 as [|b l1]; [done|]. destruct b; try done.
  destruct ty; try done. destruct H1 as (? & ? & ?). simpl in *.
  split_and!; try done. eapply IH; [|reflexivity|done|done]. lia.
Qed.

Lemma length_delete_bound {A : Type} (l : list A) (i : nat) :
  (length (delete i l) <= length l)%nat.
Proof.
  revert i. induction l as [|a l IH]; intros [|i]; simpl; try lia.
  specialize (IH i). lia.
Qed.

Lemma dispatcher_step_refl s : dispatcher_step s s.
Proof.
  unfold dispatcher_step. split_and!; try done.
  exists []. by rewrite app_nil_r.
Qed.

Lemma dispatcher_step_trans s1 s2 s3 :
  dispatcher_step s1 s2 -> dispatcher_step s2 s3 -> dispatcher_step s1 s3.
Proof.
  intros (Hq & Hn & (l & Hl & Ha) & Hs & Ht & Hj)
         (Hq' & Hn' & (l' & Hl' & Ha') & Hs' & Ht' & Hj').
  unfold dispatcher_step. split_and!; try congruence; [lia| |auto].
  exists (l ++ l'). split; [|by apply answered_app].
  by rewrite Hl', Hl, app_assoc.
Qed.

Lemma dispatcher_step_list_del q i s : dispatcher_step s (list_del q i s).
Proof.
  destruct (list_del_frame q i s) as (_ & _ & ? & ? & _ & ? & ? & _ & Hl).
  unfold dispatcher_step. split_and!; try congruence.
  - unfold queued.
    pose proof (length_delete_bound (corosync_block_event_list s) i).
    pose proof (length_delete_bound (corosync_nonblock_event_list s) i).
    destruct q; simpl; lia.
  - exists []. by rewrite app_nil_r.
Qed.

Lemma dispatcher_step_update_join_status cevent s :
  dispatcher_step s (final (update_join_status cevent s)).
Proof.
  pose proof (update_join_status_frame cevent s) as Hf. simpl in Hf.
  destruct Hf as (? & _ & ? & ? & _ & Hl & Hb & Hn & Hj & _).
  unfold dispatcher_step. split_and!; try done.
  - unfold queued. by rewrite Hb, Hn.
  - exists []. by rewrite app_nil_r.
  - intros Hjs. by rewrite (Hj Hjs).
Qed.

Lemma dispatch_one_log q cevent s :
  exists l,
    log (final (__corosync_dispatch_one q cevent s)) = log s ++ l /\
    answered l.
Proof.
  unfold __corosync_dispatch_one.
  destruct (type cevent).
  - destruct (_ <? 0); [exists []; by rewrite app_nil_r|].
    destruct (msg cevent) as [m|] eqn:Hm; [|exists []; by rewrite app_nil_r].
    destruct (callbacked cevent); [exists []; by rewrite app_nil_r|].
    destruct (sd_check_join_cb _ _ _) as [res h].
    destruct res, q; simpl; eexists [_; _]; rewrite <- ?app_assoc; simpl;
      (split; [reflexivity|done]).
  - destruct (result cevent); simpl;
      try destruct (add_cpg_node _ _ _); simpl;
      first [ by eexists [_] | exists []; by rewrite app_nil_r ].
  - destruct (_ <? 0); simpl; [exists []; by rewrite app_nil_r|].
    destruct q; simpl; eexists [_]; (split; [reflexivity|done]).
  - destruct (callbacked cevent); [exists []; by rewrite app_nil_r|].
    destruct (sd_block_handler _ _) as [accepted h].
    destruct q; simpl; eexists [_]; (split; [reflexivity|done]).
  - simpl. eexists [_]. split; [reflexivity|done].
Qed.

Lemma dispatcher_step_dispatch_one q cevent s :
  dispatcher_step s (final (__corosync_dispatch_one q cevent s)).
Proof.
  pose proof (dispatch_one_frame q cevent s) as Hf. simpl in Hf.
  destruct Hf as (? & Hj & _ & ? & ? & Hb & Hn).
  unfold dispatcher_step. split_and!; try done.
  - unfold queued. by rewrite Hb, Hn.
  - apply dispatch_one_log.
  - by rewrite Hj.
Qed.

Lemma dispatcher_step_dispatch_event q cevent s :
  dispatcher_step s (final (dispatch_event q cevent s)).
Proof.
  unfold dispatch_event.
  pose proof (dispatcher_step_update_join_status cevent s) as Hu.
  destruct (update_join_status cevent s) as [[] s1|h1 s1]; simpl in *;
    [|done].
  destruct (join_finished s1).
  - pose proof (dispatcher_step_dispatch_one q cevent s1) as Hd.
    destruct (__corosync_dispatch_one q cevent s1) as [b s2|h2 s2];
      simpl in *; [|by eapply dispatcher_step_trans].
    destruct b; simpl; [|by eapply dispatcher_step_trans].
    eapply dispatcher_step_trans; [exact Hu|].
    eapply dispatcher_step_trans; [exact Hd|apply dispatcher_step_list_del].
  - destruct (_ || _); simpl; [done|].
    eapply dispatcher_step_trans; [exact Hu|apply dispatcher_step_list_del].
Qed.

Lemma dispatcher_step_dispatch_loop fuel s :
  dispatcher_step s (final (dispatch_loop fuel s)).
Proof.
  revert s. induction fuel as [|fuel IH]; intros s; simpl.
  - destruct (first_event s) as [[q cevent]|]; apply dispatcher_step_refl.
  - destruct (first_event s) as [[q cevent]|]; [|apply dispatcher_step_refl].
    pose proof (dispatcher_step_dispatch_event q cevent s) as Hd.
    destruct (dispatch_event q cevent s) as [[] s1|h1 s1]; simpl in *;
      try done.
    eapply dispatcher_step_trans; [exact Hd|apply IH].
Qed.

Lemma dispatcher_step_corosync_dispatch pending s :
  dispatcher_step s (final (__corosync_dispatch pending s)).
Proof.
  unfold __corosync_dispatch.
  destruct pending; [apply dispatcher_step_refl|].
  eapply dispatcher_step_trans; [|apply dispatcher_step_dispatch_loop].
  unfold dispatcher_step. simpl. split_and!; try done.
  exists []. by rewrite app_nil_r.
Qed.

(** X6: the loop of [__corosync_dispatch] terminates within as many
    iterations as there are queued events, whatever the handlers of the
    daemon answer; the dispatcher queues no event and allocates none. *)
Theorem dispatcher_terminates pending s :
  (forall s', __corosync_dispatch pending s <> Halt OUT_OF_FUEL s') /\
  (queued (final (__corosync_dispatch pending s)) <= queued s)%nat /\
  next_event (final (__corosync_dispatch pending s)) = next_event s.
Proof.
  split.
  - intros s' Hh. by destruct (corosync_dispatch_halts _ _ _ _ Hh).
  - by destruct (dispatcher_step_corosync_dispatch pending s) as (? & ? & _).
Qed.

(** What a callback adds to the log. *)
Lemma handle_log c s :
  exists l, log (final (handle c s)) = log s ++ l /\ answered l.
Proof.
  destruct c as [cmsg pending|ms ls js pending]; simpl.
  - unfold cdrv_cpg_deliver.
    pose proof (same_outside_deliver_message cmsg s) as (Hl & _).
    destruct (deliver_message cmsg s) as [[] s1|h1 s1]; simpl in *.
    2: { exists []. by rewrite app_nil_r. }
    destruct (dispatcher_step_corosync_dispatch pending s1)
      as (_ & _ & (l & Hl' & Ha) & _).
    exists l. by rewrite Hl', Hl.
  - unfold cdrv_cpg_confchg.
    pose proof (same_outside_check_network_partition
                  (Z.of_nat (length ms)) (Z.of_nat (length ls)) s)
      as (Hl1 & _).
    destruct (check_network_partition _ _ s) as [[] s1|h1 s1]; simpl in *.
    2: { exists []. by rewrite app_nil_r. }
    pose proof (same_outside_confchg_events ms ls js s1) as (Hl2 & _).
    destruct (confchg_events ms ls js s1) as [[] s2|h2 s2]; simpl in *.
    2: { exists []. by rewrite app_nil_r, Hl2. }
    destruct (dispatcher_step_corosync_dispatch pending s2)
      as (_ & _ & (l & Hl' & Ha) & _).
    exists l. by rewrite Hl', Hl2, Hl1.
Qed.

(** X7: over any sequence of callbacks the log only grows, and in what is
    added every call of [sd_check_join_cb] is followed at once by the
    multicast of a JOIN_RESPONSE about the checked node carrying the checked
    payload; the callbacks multicast nothing else. *)
Theorem every_join_check_is_answered cs s :
  exists l, log (final (run cs s)) = log s ++ l /\ answered l.
Proof.
  revert s. induction cs as [|c cs IH]; intros s; simpl.
  - exists []. by rewrite app_nil_r.
  - destruct (handle_log c s) as (l1 & Hl1 & Ha1).
    destruct (handle c s) as [[] s1|h1 s1]; simpl in *; [|by exists l1].
    destruct (IH s1) as (l2 & Hl2 & Ha2).
    exists (l1 ++ l2). split; [|by apply answered_app].
    by rewrite Hl2, Hl1, app_assoc.
Qed.

Lemma handle_join_finished c s :
  join_finished s = true -> join_finished (final (handle c s)) = true.
Proof.
  intros Hj. destruct c as [cmsg pending|ms ls js pending]; simpl.
  - unfold cdrv_cpg_deliver.
    pose proof (same_outside_deliver_message cmsg s) as (_ & _ & Hj1 & _).
    destruct (deliver_message cmsg s) as [[] s1|h1 s1]; simpl in *;
      [|congruence].
    apply (dispatcher_step_corosync_dispatch pending s1). congruence.
  - unfold cdrv_cpg_confchg.
    pose proof (same_outside_check_network_partition
                  (Z.of_nat (length ms)) (Z.of_nat (length ls)) s)
      as (_ & _ & Hj1 & _).
    destruct (check_network_partition _ _ s) as [[] s1|h1 s1]; simpl in *;
      [|congruence].
    pose proof (same_outside_confchg_events ms ls js s1)
      as (_ & _ & Hj2 & _).
    destruct (confchg_events ms ls js s1) as [[] s2|h2 s2]; simpl in *;
      [|congruence].
    apply (dispatcher_step_corosync_dispatch pending s2). congruence.
Qed.

(** X8: [join_finished] is never reset: once this node has joined, it
    counts as joined after every further callback. *)
Theorem join_finished_is_permanent cs s :
  join_finished s = true -> join_finished (final (run cs s)) = true.
Proof.
  revert s. induction cs as [|c cs IH]; intros s Hj; simpl; [done|].
  pose proof (handle_join_finished c s Hj) as Hj1.
  destruct (handle c s) as [[] s1|h1 s1]; simpl in *; [by apply IH|done].
Qed.

(** ** Intake, case by case *)

Lemma delete_alter {A : Type} (f : A -> A) (i : nat) (l : list A) :
  delete i (alter f i l) = delete i l.
Proof.
  revert i. induction l as [|a l IH]; intros [|i]; simpl; try done.
  f_equal. apply IH.
Qed.

Lemma find_on_Some l ty sender' i :
  find_on l ty sender' = Some i ->
  exists e,
    l !! i = Some e /\ event_matches ty sender' e = true /\
    forall j e', (j < i)%nat -> l !! j = Some e' ->
                 event_matches ty sender' e' = false.
Proof.
  unfold find_on. intros Hf.
  destruct (list_find _ l) as [[i' e]|] eqn:Hlf; [|done].
  simpl in Hf. injection Hf as ->.
  apply list_find_Some in Hlf as (Hi & Hm & Hfirst).
  exists e. split_and!; try done.
  intros j e' Hj He'. specialize (Hfirst j e' He' Hj).
  by destruct (event_matches ty sender' e').
Qed.

(** X9: the delivery of an UNBLOCK multicast unlinks the first queued BLOCK
    event of its sender, and only that one, whether or not
    [sd_block_handler] was called for it; it then queues a NOTIFY event
    with the sender and the payload of the multicast.  No handler is called
    and the roster is not touched. *)
Theorem unblock_releases_the_block (cmsg : corosync_message) (i : nat) s :
  m_type cmsg = COROSYNC_MSG_TYPE_UNBLOCK ->
  find_block_event COROSYNC_EVENT_TYPE_BLOCK (m_sender cmsg) s = Some i ->
  let notify :=
    mk_event (next_event s) COROSYNC_EVENT_TYPE_NOTIFY (m_sender cmsg)
      (copy_payload (m_msg cmsg) (m_msg_len cmsg)) (m_msg_len cmsg)
      CJ_RES_SUCCESS 0 (replicate SD_MAX_NODES cpg_node_zero) false in
  exists e s1,
    corosync_block_event_list s !! i = Some e /\
    type e = COROSYNC_EVENT_TYPE_BLOCK /\
    cpg_node_equal (sender e) (m_sender cmsg) = true /\
    (forall j e', (j < i)%nat ->
       corosync_block_event_list s !! j = Some e' ->
       type e' = COROSYNC_EVENT_TYPE_BLOCK ->
       cpg_node_equal (sender e') (m_sender cmsg) = false) /\
    deliver_message cmsg s = Ret tt s1 /\
    corosync_block_event_list s1 = delete i (corosync_block_event_list s) /\
    corosync_nonblock_event_list s1
      = corosync_nonblock_event_list s ++ [notify] /\
    next_event s1 = S (next_event s) /\
    cpg_nodes s1 = cpg_nodes s /\
    nr_cpg_nodes s1 = nr_cpg_nodes s /\
    host_state s1 = host_state s /\
    log s1 = log s.
Proof.
  intros Hty Hfind. simpl.
  destruct (find_on_Some _ _ _ _ Hfind) as (e & Hi & Hm & Hfirst).
  unfold event_matches in Hm. apply andb_prop in Hm as [Hte Hse].
  exists e. eexists. split_and!; [done| |done| | |..].
  - by destruct (type e).
  - intros j e' Hj He' Hte'. specialize (Hfirst j e' Hj He').
    unfold event_matches in Hfirst. rewrite Hte' in Hfirst. done.
  - unfold deliver_message. rewrite Hty.
    unfold update_event, find_event. simpl. rewrite Hfind. simpl.
    reflexivity.
  - simpl. apply delete_alter.
  - done.
  - done.
  - done.
  - done.
  - done.
  - done.
Qed.

(** X10: a JOIN_REQUEST event at the head of the dispatcher's choice is
    left where it is, and the drain stops there with no handler called, in
    each of three cases: this node is not the master, the JOIN_REQUEST
    multicast with the payload has not been delivered yet, or
    [sd_check_join_cb] has already been called for the event.  Nothing
    queued behind the event is processed by that call of the dispatcher. *)
Theorem join_request_waits q cevent s :
  first_event s = Some (q, cevent) ->
  join_finished s = true ->
  type cevent = COROSYNC_EVENT_TYPE_JOIN_REQUEST ->
  is_master (Some (this_node s)) s < 0 \/ msg cevent = None \/
    callbacked cevent = true ->
  __corosync_dispatch false s = Ret tt (set_nr_majority 0 s).
Proof.
  intros Hfirst Hjf Hty Hcase.
  unfold __corosync_dispatch.
  assert (Hfirst' : first_event (set_nr_majority 0 s) = Some (q, cevent))
    by done.
  assert (Hfuel : exists fuel,
    (length (corosync_block_event_list s)
     + length (corosync_nonblock_event_list s))%nat = S fuel).
  { unfold first_event in Hfirst.
    destruct (corosync_nonblock_event_list s);
      destruct (corosync_block_event_list s); simpl; try done; eauto. }
  destruct Hfuel as (fuel & ->). simpl. rewrite Hfirst'.
  unfold dispatch_event, update_join_status. simpl. rewrite Hjf. simpl.
  unfold __corosync_dispatch_one. rewrite Hty, Hjf. simpl.
  destruct Hcase as [Hm|[Hm|Hc]].
  - apply Z.ltb_lt in Hm. unfold is_master in *. simpl in *.
    by rewrite Hm.
  - rewrite Hm. by destruct (_ <? 0).
  - rewrite Hc. destruct (_ <? 0); [done|]. by destruct (msg cevent).
Qed.

(** ** The operations of the driver *)

(** X11: [send_message] retries for as long as [cpg_mcast_joined] answers
    [CS_ERR_TRY_AGAIN], sleeping once per such answer and without a bound;
    the first other answer decides: 0 for [CS_OK], -1 for anything else. *)
Theorem send_message_retries_until_answered (answers : list cs_error_t) :
  match send_message_retry answers with
  | Some (ret, slept) =>
      exists e rest,
        answers = replicate slept CS_ERR_TRY_AGAIN ++ e :: rest /\
        e <> CS_ERR_TRY_AGAIN /\
        (ret = 0 /\ e = CS_OK \/ ret = -1 /\ e <> CS_OK)
  | None => answers = replicate (length answers) CS_ERR_TRY_AGAIN
  end.
Proof.
  induction answers as [|a answers IH]; simpl; [done|].
  destruct a; simpl.
  - exists CS_OK, answers. split_and!; [done|done|by left].
  - destruct (send_message_retry answers) as [[ret slept]|].
    + destruct IH as (e & rest & -> & He & Hret).
      exists e, rest. by split_and!.
    + by f_equal.
  - exists CS_ERR_SECURITY, answers. split_and!; [done|done|by right].
  - exists (CS_ERR_OTHER code), answers. split_and!; [done|done|by right].
Qed.

Lemma cpg_initialize_again_bounded (answers : list cs_error_t) (c : nat) :
  (c <= 10)%nat ->
  (11 - c <= length answers)%nat ->
  exists ok calls,
    cpg_initialize_again answers (Z.of_nat c) = Some (ok, calls) /\
    (1 <= calls <= 11 - c)%nat /\
    (ok = true ->
     answers = replicate (calls - 1) CS_ERR_TRY_AGAIN
               ++ CS_OK :: drop calls answers) /\
    (ok = false ->
     take (11 - c) answers = replicate (11 - c) CS_ERR_TRY_AGAIN /\
       calls = (11 - c)%nat \/
     exists e,
       answers !! (calls - 1)%nat = Some e /\
       e <> CS_OK /\ e <> CS_ERR_TRY_AGAIN /\
       take (calls - 1) answers = replicate (calls - 1) CS_ERR_TRY_AGAIN).
Proof.
  revert c. induction answers as [|a answers IH]; intros c Hc Hlen;
    simpl in *; [lia|].
  destruct a.
  - exists true, 1%nat. split_and!; try done; lia.
  - unfold CPG_INIT_RETRY_CNT.
    destruct (Z.of_nat c =? 10) eqn:Hten.
    + apply Z.eqb_eq in Hten. assert (c = 10%nat) as -> by lia.
      exists false, 1%nat. split_and!; try done; try lia.
      intros _. left. by simpl.
    + apply Z.eqb_neq in Hten.
      destruct (IH (S c)) as (ok & calls & Hrun & Hcalls & Hok & Hfail);
        [lia|lia|].
      replace (Z.of_nat c + 1) with (Z.of_nat (S c)) by lia.
      rewrite Hrun. exists ok, (S calls). split_and!; [done|lia|lia| |].
      * intros Hk. specialize (Hok Hk). simpl.
        replace (calls - 0)%nat with (S (calls - 1)) by lia. simpl.
        by f_equal.
      * intros Hk. destruct (Hfail Hk) as [[Htake ->]|(e & He & ? & ? & Ht)].
        -- left. split; [|lia].
           replace (11 - c)%nat with (S (11 - S c)) by lia. simpl.
           by f_equal.
        -- right. exists e. simpl.
           replace (calls - 0)%nat with (S (calls - 1)) by lia. simpl.
           split_and!; try done. by f_equal.
  - exists false, 1%nat. split_and!; try done; try lia.
    intros _. right. exists CS_ERR_SECURITY. by split_and!.
  - exists false, 1%nat. split_and!; try done; try lia.
    intros _. right. exists (CS_ERR_OTHER code). by split_and!.
Qed.

(** X12: [corosync_init] calls [cpg_initialize] at most eleven times, the
    first call and [CPG_INIT_RETRY_CNT] retries: it goes on when a
    [CS_OK] follows at most ten [CS_ERR_TRY_AGAIN], and gives up on the
    eleventh [CS_ERR_TRY_AGAIN] in a row or on the first other answer. *)
Theorem cpg_initialize_is_tried_eleven_times (answers : list cs_error_t) :
  (11 <= length answers)%nat ->
  exists ok calls,
    cpg_initialize_again answers 0 = Some (ok, calls) /\
    (1 <= calls <= 11)%nat /\
    (ok = true ->
     answers = replicate (calls - 1) CS_ERR_TRY_AGAIN
               ++ CS_OK :: drop calls answers) /\
    (ok = false ->
     take 11 answers = replicate 11 CS_ERR_TRY_AGAIN /\ calls = 11%nat \/
     exists e,
       answers !! (calls - 1)%nat = Some e /\
       e <> CS_OK /\ e <> CS_ERR_TRY_AGAIN /\
       take (calls - 1) answers = replicate (calls - 1) CS_ERR_TRY_AGAIN).
Proof.
  intros Hlen.
  destruct (cpg_initialize_again_bounded answers 0) as (ok & calls & Hrun);
    [lia|simpl; lia|].
  by exists ok, calls.
Qed.



(** X14: [corosync_get_local_addr] returns 0 or -1.  On 0 the first sixteen
    bytes of [addr] hold the address: an IPv6 address as it is, an IPv4
    address in the last four bytes after twelve zero bytes.  On -1, which
    is the answer to a failed query, to an empty answer and to any other
    address family, [addr] is left as it was. *)
Theorem local_addr_layout (a : node_addrs) (addr : list Byte.byte) :
  (16 <= length addr)%nat ->
  (4 <= length (sin_addr a))%nat ->
  (16 <= length (sin6_addr a))%nat ->
  exists ret addr',
    corosync_get_local_addr a addr = Some (ret, addr') /\
    length addr' = length addr /\
    (ret = 0 /\ get_node_addrs_ret a = CS_OK /\ nr a <> 0 /\
       (ss_family a = AF_INET /\
          addr' = replicate 12 Byte.x00 ++ take 4 (sin_addr a)
                  ++ drop 16 addr \/
        ss_family a = AF_INET6 /\
          addr' = take 16 (sin6_addr a) ++ drop 16 addr) \/
     ret = -1 /\ addr' = addr /\
       (get_node_addrs_ret a <> CS_OK \/ nr a = 0 \/
        exists family, ss_family a = AF_OTHER family)).
Proof.
  intros Haddr Hsin Hsin6. unfold corosync_get_local_addr.
  destruct (get_node_addrs_ret a) eqn:Hret; simpl;
    try (exists (-1), addr; split_and!; [done|done|]; right;
         split_and!; [done|done|]; by left).
  destruct (nr a =? 0) eqn:Hnr.
  { apply Z.eqb_eq in Hnr. exists (-1), addr.
    split_and!; [done|done|right]. split_and!; auto. }
  apply Z.eqb_neq in Hnr.
  destruct (ss_family a) eqn:Hfam.
  - unfold memset_bytes. rewrite decide_True by lia.
    unfold memcpy_bytes.
    rewrite decide_True
      by (rewrite length_app, length_replicate, length_drop; lia).
    eexists 0, _. split; [reflexivity|]. split.
    + rewrite !length_app, !length_take, !length_drop, !length_app,
        length_replicate, length_drop. lia.
    + left. split_and!; try done. left. split; [done|].
      reflexivity.
  - unfold memcpy_bytes. rewrite decide_True by (simpl; lia).
    eexists 0, _. split; [reflexivity|]. split.
    + simpl. rewrite length_app, length_take, length_drop. lia.
    + left. split_and!; try done. by right.
  - exists (-1), addr. split_and!; [done|done|right].
    split_and!; eauto.
Qed.

Lemma send_message_retry_ret (answers : list cs_error_t) ret slept :
  send_message_retry answers = Some (ret, slept) -> ret = 0 \/ ret = -1.
Proof.
  revert slept. induction answers as [|a answers IH]; intros slept; simpl;
    [done|].
  destruct a; try (intros [= <- <-]; auto).
  destruct (send_message_retry answers) as [[r n]|]; [|done].
  intros [= <- <-]. by eapply IH.
Qed.

Lemma cpg_join_retry_answered (answers : list cs_error_t) (joined : bool) :
  cpg_join_retry answers = Some joined ->
  exists k e rest,
    answers = replicate k CS_ERR_TRY_AGAIN ++ e :: rest /\
    e <> CS_ERR_TRY_AGAIN /\
    (joined = true <-> e = CS_OK).
Proof.
  induction answers as [|a answers IH]; simpl; [done|].
  destruct a.
  - intros [= <-]. exists 0%nat, CS_OK, answers. by split_and!.
  - intros (k & e & rest & -> & He & Hj)%IH.
    exists (S k), e, rest. by split_and!.
  - intros [= <-]. exists 0%nat, CS_ERR_SECURITY, answers. by split_and!.
  - intros [= <-]. exists 0%nat, (CS_ERR_OTHER code), answers.
    by split_and!.
Qed.

(** X15: [corosync_join] ends in one of three ways, decided by the first
    answer of [cpg_join] other than [CS_ERR_TRY_AGAIN] and by the outcome
    of [send_message]: the group is not joined, and nothing is stored or
    sent; the group is joined but the multicast fails, and the descriptor
    of this node has been stored all the same; or it returns 0 after
    storing the descriptor and multicasting one JOIN_REQUEST whose sender
    is this node with that descriptor, with no roster and with the
    caller's payload.  The node id and the process id of [this_node] are
    never changed. *)
Theorem corosync_join_multicasts_one_request (myself : sd_node)
    (opaque : option (list Byte.byte)) (opaque_len : Z)
    (join_answers mcast_answers : list cs_error_t) s ret s' :
  corosync_join myself opaque opaque_len join_answers mcast_answers s
    = Some (ret, s') ->
  let me := set_ent myself (this_node s) in
  node_id (this_node s') = node_id (this_node s) /\
  exists k e rest,
    join_answers = replicate k CS_ERR_TRY_AGAIN ++ e :: rest /\
    e <> CS_ERR_TRY_AGAIN /\
    (ret = -1 /\ e <> CS_OK /\ s' = s \/
     ret = -1 /\ e = CS_OK /\ s' = set_this_node me s \/
     ret = 0 /\ e = CS_OK /\
       s' = record (SEND COROSYNC_MSG_TYPE_JOIN_REQUEST CJ_RES_SUCCESS me
                      [] 0 opaque opaque_len)
              (set_this_node me s)).
Proof.
  unfold corosync_join. simpl.
  destruct (cpg_join_retry join_answers) as [joined|] eqn:Hjoin; [|done].
  destruct (cpg_join_retry_answered _ _ Hjoin) as (k & e & rest & Ha & He & Hj).
  destruct joined.
  - unfold send_message_answered.
    destruct (send_message_retry mcast_answers) as [[r slept]|] eqn:Hm;
      [|done].
    destruct (send_message_retry_ret _ _ _ Hm) as [-> | ->]; simpl.
    + intros [= <- <-]. split; [done|].
      exists k, e, rest. split_and!; try done.
      right. right. split_and!; try done. by apply Hj.
    + intros [= <- <-]. split; [done|].
      exists k, e, rest. split_and!; try done.
      right. left. split_and!; try done. by apply Hj.
  - intros [= <- <-]. split; [done|].
    exists k, e, rest. split_and!; try done.
    left. split_and!; try done. intros He'. by apply Hj in He'.
Qed.

(** ** Configuration changes *)

Lemma zip_with_replicate_r {A B C : Type} (f : A -> B -> C) (l : list A)
    (n : nat) (b : B) :
  (length l <= n)%nat ->
  zip_with f l (replicate n b) = (fun a => f a b) <$> l.
Proof.
  revert n. induction l as [|a l IH]; intros [|n] Hn; simpl in *;
    try done; try lia.
  f_equal. apply IH. lia.
Qed.

Lemma build_cpg_node_list_automatic (addrs : list cpg_address) :
  (length addrs <= SD_MAX_NODES)%nat ->
  exists l,
    build_cpg_node_list automatic_nodes addrs = Some l /\
    take (length addrs) l = sheep <$> addrs.
Proof.
  intros Hlen. unfold build_cpg_node_list, automatic_nodes.
  rewrite length_replicate. rewrite decide_True by done.
  eexists. split; [reflexivity|].
  rewrite zip_with_replicate_r by done.
  rewrite take_app_length'; [done|by rewrite length_fmap].
Qed.

(** The all-zero event of [xzalloc_event] with identity [n], as
    [cdrv_cpg_confchg] queues it for a joined node. *)
Lemma confchg_joined_queues node s :
  corosync_nonblock_event_list (confchg_joined node s)
    = corosync_nonblock_event_list s
      ++ [mk_event (next_event s) COROSYNC_EVENT_TYPE_JOIN_REQUEST node
            None 0 CJ_RES_SUCCESS 0 (replicate SD_MAX_NODES cpg_node_zero)
            false] /\
  corosync_block_event_list (confchg_joined node s)
    = corosync_block_event_list s /\
  next_event (confchg_joined node s) = S (next_event s) /\
  cpg_nodes (confchg_joined node s) = cpg_nodes s /\
  self_elect (confchg_joined node s) = self_elect s.
Proof. done. Qed.

Lemma foldl_confchg_joined (l : list cpg_node) s :
  let s' := foldl (fun s n => confchg_joined n s) s l in
  corosync_nonblock_event_list s'
    = corosync_nonblock_event_list s
      ++ imap (fun k n =>
                 mk_event (next_event s + k) COROSYNC_EVENT_TYPE_JOIN_REQUEST
                   n None 0 CJ_RES_SUCCESS 0
                   (replicate SD_MAX_NODES cpg_node_zero) false) l /\
  corosync_block_event_list s' = corosync_block_event_list s /\
  next_event s' = (next_event s + length l)%nat /\
  cpg_nodes s' = cpg_nodes s /\
  self_elect s' = self_elect s.
Proof.
  revert s. induction l as [|n l IH]; intros s; simpl.
  - rewrite app_nil_r. split_and!; try done; lia.
  - destruct (IH (confchg_joined n s)) as (Hn & Hb & Hx & Hc & Hs).
    destruct (confchg_joined_queues n s) as (Hn1 & Hb1 & Hx1 & Hc1 & Hs1).
    rewrite Hn, Hb, Hx, Hc, Hs, Hn1, Hb1, Hx1, Hc1, Hs1.
    split_and!; try done; try lia.
    rewrite <- app_assoc. simpl. f_equal.
    rewrite Nat.add_0_r. f_equal.
    apply imap_ext. intros k x _. simpl. f_equal. lia.
Qed.

Lemma find_on_is_Some l ty sender' e :
  e ∈ l -> event_matches ty sender' e = true ->
  is_Some (find_on l ty sender').
Proof.
  intros He Hm. unfold find_on.
  destruct (list_find _ l) as [[i x]|] eqn:Hf; [by eexists|].
  apply list_find_None in Hf.
  rewrite Forall_forall in Hf. by destruct (Hf e He).
Qed.


Lemma same_outside_foldl_joined (l : list cpg_node) s :
  same_outside s (foldl (fun s n => confchg_joined n s) s l).
Proof.
  revert s. induction l as [|n l IH]; intros s; simpl;
    [apply same_outside_refl|].
  eapply same_outside_trans; [apply same_outside_confchg_joined | apply IH].
Qed.

(** [confchg_events] on lists that fit the automatic arrays, in terms of
    the two loops. *)
Lemma confchg_events_run
    (member_list left_list joined_list : list cpg_address) s :
  (length member_list <= SD_MAX_NODES)%nat ->
  (length left_list <= SD_MAX_NODES)%nat ->
  (length joined_list <= SD_MAX_NODES)%nat ->
  confchg_events member_list left_list joined_list s
  = Ret tt
      (let s1 :=
         foldl (fun s n => confchg_left n s) s (sheep <$> left_list) in
       let s2 :=
         foldl (fun s n => confchg_joined n s) s1 (sheep <$> joined_list) in
       if join_finished s2 then s2
       else if all_members_joining (sheep <$> member_list) s2
            then set_self_elect true s2 else s2).
Proof.
  intros Hm Hl Hj. unfold confchg_events.
  destruct (build_cpg_node_list_automatic member_list Hm) as (ms & -> & Hms).
  destruct (build_cpg_node_list_automatic left_list Hl) as (ls & -> & Hls).
  destruct (build_cpg_node_list_automatic joined_list Hj) as (js & -> & Hjs).
  simpl. by rewrite Hms, Hjs, Hls.
Qed.

(** Every joined node has a JOIN_REQUEST event queued once the loop over the
    joined list is over. *)
Lemma all_members_joining_joined (member_list joined_list : list cpg_address)
    s :
  member_list ⊆ joined_list ->
  all_members_joining (sheep <$> member_list)
    (foldl (fun s n => confchg_joined n s) s (sheep <$> joined_list))
  = true.
Proof.
  intros Hsub.
  destruct (foldl_confchg_joined (sheep <$> joined_list) s) as (Hn & _).
  set (s2 := foldl (fun s n => confchg_joined n s) s (sheep <$> joined_list))
    in *.
  assert (Hin : forall a, a ∈ member_list ->
    is_Some (find_event COROSYNC_EVENT_TYPE_JOIN_REQUEST (sheep a) s2)).
  { intros a Ha%Hsub. unfold find_event. simpl.
    apply fmap_is_Some. unfold find_nonblock_event. rewrite Hn.
    apply list_elem_of_lookup in Ha as (k & Hk).
    eapply find_on_is_Some.
    - apply elem_of_app. right. apply list_elem_of_lookup.
      exists k. rewrite list_lookup_imap, list_lookup_fmap, Hk.
      reflexivity.
    - unfold event_matches, cpg_node_equal. simpl.
      by rewrite !Z.eqb_refl. }
  clear -Hin. induction member_list as [|a l IH]; simpl; [done|].
  destruct (Hin a) as [x ->]; [by left|].
  apply IH. intros b Hb. apply Hin. by right.
Qed.




(** ** The two lists *)

Lemma sorted_queues_eq s s' :
  corosync_block_event_list s' = corosync_block_event_list s ->
  corosync_nonblock_event_list s' = corosync_nonblock_event_list s ->
  sorted_queues s -> sorted_queues s'.
Proof. unfold sorted_queues. by intros -> ->. Qed.

Lemma sorted_queues_list_del q i s :
  sorted_queues s -> sorted_queues (list_del q i s).
Proof.
  unfold sorted_queues. intros [Hb Hn].
  destruct q; simpl; split; try done; by apply Forall_delete.
Qed.

Lemma sorted_queues_update_at q i f s :
  (forall e, type (f e) = type e) ->
  sorted_queues s -> sorted_queues (update_at q i f s).
Proof.
  unfold sorted_queues. intros Hf [Hb Hn].
  destruct q; simpl; split; try done; apply Forall_alter; try done.
  all: intros e _; by rewrite Hf.
Qed.

Lemma sorted_queues_update_nonblock i f s :
  (forall e, type (f e) <> COROSYNC_EVENT_TYPE_BLOCK) ->
  sorted_queues s -> sorted_queues (update_at NONBLOCK_LIST i f s).
Proof.
  unfold sorted_queues. intros Hf [Hb Hn].
  simpl; split; try done. apply Forall_alter; [done|]. intros e _ _. apply Hf.
Qed.

Lemma sorted_queues_queue_event cevent s :
  sorted_queues s -> sorted_queues (queue_event cevent s).
Proof.
  unfold sorted_queues, queue_event, event_type_eqb. intros [Hb Hn].
  destruct (type cevent) eqn:Hty; simpl; split; try done.
  all: apply Forall_app; split; [done|].
  all: apply Forall_singleton; by rewrite Hty.
Qed.

Lemma sorted_queues_revoke_mastership node s :
  sorted_queues s -> sorted_queues (revoke_mastership node s).
Proof.
  destruct (revoke_mastership_frame node s)
    as (_ & _ & _ & _ & _ & Hb & Hn & _).
  by apply sorted_queues_eq.
Qed.

Lemma find_event_nonblock ty node s q i :
  ty <> COROSYNC_EVENT_TYPE_BLOCK ->
  find_event ty node s = Some (q, i) -> q = NONBLOCK_LIST.
Proof.
  unfold find_event, event_type_eqb. intros Hty.
  destruct ty; simpl; try done.
  all: destruct (find_nonblock_event _ _ _); simpl; congruence.
Qed.

Lemma sorted_queues_deliver_message cmsg s :
  sorted_queues s -> sorted_queues (final (deliver_message cmsg s)).
Proof.
  intros Hs.
  unfold deliver_message, update_event, event_of_message, xzalloc_event.
  destruct (m_type cmsg); simpl.
  - destruct (find_event _ _ s) as [[q i]|]; simpl; [|done].
    apply sorted_queues_update_at; [done|].
    by apply sorted_queues_update_at.
  - destruct (find_event _ _ s) as [[q i]|] eqn:Hf; simpl; [|done].
    apply find_event_nonblock in Hf as ->; [|done].
    assert (Hs1 : sorted_queues
      (update_at NONBLOCK_LIST i
         (fun e => set_msg (copy_payload (m_msg cmsg) (m_msg_len cmsg))
                     (set_msg_len (m_msg_len cmsg) e)) s))
      by by apply sorted_queues_update_at.
    destruct (_ !! i); simpl; [|done].
    destruct (memcpy_nodes _ _ _); simpl; [|done].
    by apply sorted_queues_update_nonblock.
  - apply sorted_queues_queue_event, sorted_queues_revoke_mastership.
    eapply sorted_queues_eq; [| |exact Hs]; done.
  - apply sorted_queues_queue_event.
    eapply sorted_queues_eq; [| |exact Hs]; done.
  - apply sorted_queues_queue_event.
    eapply sorted_queues_eq; [| |exact Hs]; done.
  - apply sorted_queues_queue_event.
    destruct (find_event _ _ s) as [[q i]|]; simpl.
    + eapply sorted_queues_eq;
        [| |apply (sorted_queues_list_del q i),
              (sorted_queues_update_at q i), Hs]; try done.
    + eapply sorted_queues_eq; [| |exact Hs]; done.
Qed.

Lemma sorted_queues_confchg_left node s :
  sorted_queues s -> sorted_queues (confchg_left node s).
Proof.
  intros Hs. unfold confchg_left, xzalloc_event.
  destruct (find_event _ _ s) as [[q i]|]; [by apply sorted_queues_list_del|].
  apply sorted_queues_queue_event, sorted_queues_revoke_mastership.
  destruct (find_event _ _ s) as [[q i]|].
  - eapply sorted_queues_eq; [| |apply (sorted_queues_list_del q i), Hs];
      done.
  - eapply sorted_queues_eq; [| |exact Hs]; done.
Qed.

Lemma sorted_queues_confchg_joined node s :
  sorted_queues s -> sorted_queues (confchg_joined node s).
Proof.
  intros Hs. unfold confchg_joined, xzalloc_event.
  apply sorted_queues_queue_event.
  eapply sorted_queues_eq; [| |exact Hs]; done.
Qed.

Lemma sorted_queues_confchg_events member_list left_list joined_list s :
  sorted_queues s ->
  sorted_queues (final (confchg_events member_list left_list joined_list s)).
Proof.
  intros Hs. unfold confchg_events.
  destruct (build_cpg_node_list _ member_list) as [ms|]; [|done].
  destruct (build_cpg_node_list _ left_list) as [ls|]; [|done].
  destruct (build_cpg_node_list _ joined_list) as [js|]; [|done].
  simpl.
  assert (Hl : forall l s0, sorted_queues s0 ->
    sorted_queues (foldl (fun s n => confchg_left n s) s0 l)).
  { induction l as [|n l IH]; intros s0 H0; simpl; [done|].
    by apply IH, sorted_queues_confchg_left. }
  assert (Hj : forall l s0, sorted_queues s0 ->
    sorted_queues (foldl (fun s n => confchg_joined n s) s0 l)).
  { induction l as [|n l IH]; intros s0 H0; simpl; [done|].
    by apply IH, sorted_queues_confchg_joined. }
  repeat case_match; try (eapply sorted_queues_eq; [done|done|]);
    by apply Hj, Hl.
Qed.

Lemma sorted_queues_check_network_partition m l s :
  sorted_queues s -> sorted_queues (final (check_network_partition m l s)).
Proof.
  unfold check_network_partition. by repeat case_match.
Qed.

Lemma sorted_queues_update_join_status cevent s :
  sorted_queues s -> sorted_queues (final (update_join_status cevent s)).
Proof.
  pose proof (update_join_status_frame cevent s) as Hf. simpl in Hf.
  destruct Hf as (_ & _ & _ & _ & _ & _ & Hb & Hn & _).
  by apply sorted_queues_eq.
Qed.

Lemma sorted_queues_dispatch_one q cevent s :
  sorted_queues s ->
  sorted_queues (final (__corosync_dispatch_one q cevent s)).
Proof.
  intros Hs. unfold __corosync_dispatch_one.
  repeat case_match; simpl; try done.
  all: try (eapply sorted_queues_eq; [| |exact Hs]; done).
  all: try (apply sorted_queues_update_at; [done|];
            eapply sorted_queues_eq; [| |exact Hs]; done).
  all: eapply sorted_queues_eq;
    [| |apply (sorted_queues_update_at q 0), Hs]; done.
Qed.

Lemma sorted_queues_dispatch_event q cevent s :
  sorted_queues s -> sorted_queues (final (dispatch_event q cevent s)).
Proof.
  intros Hs. unfold dispatch_event.
  pose proof (sorted_queues_update_join_status cevent s Hs) as Hu.
  destruct (update_join_status cevent s) as [[] s1|h1 s1]; simpl in *;
    [|done].
  destruct (join_finished s1).
  - pose proof (sorted_queues_dispatch_one q cevent s1 Hu) as Hd.
    destruct (__corosync_dispatch_one q cevent s1) as [b s2|h2 s2];
      simpl in *; [|done].
    destruct b; simpl; [by apply sorted_queues_list_del|done].
  - destruct (_ || _); simpl; [done|by apply sorted_queues_list_del].
Qed.

Lemma sorted_queues_dispatch_loop fuel s :
  sorted_queues s -> sorted_queues (final (dispatch_loop fuel s)).
Proof.
  revert s. induction fuel as [|fuel IH]; intros s Hs; simpl.
  - by destruct (first_event s) as [[q cevent]|].
  - destruct (first_event s) as [[q cevent]|]; [|done].
    pose proof (sorted_queues_dispatch_event q cevent s Hs) as Hd.
    destruct (dispatch_event q cevent s) as [[] s1|h1 s1]; simpl in *;
      try done.
    by apply IH.
Qed.

Lemma sorted_queues_corosync_dispatch pending s :
  sorted_queues s -> sorted_queues (final (__corosync_dispatch pending s)).
Proof.
  intros Hs. unfold __corosync_dispatch. destruct pending; [done|].
  apply sorted_queues_dispatch_loop.
  eapply sorted_queues_eq; [| |exact Hs]; done.
Qed.

Lemma sorted_queues_handle c s :
  sorted_queues s -> sorted_queues (final (handle c s)).
Proof.
  intros Hs. destruct c as [cmsg pending|ms ls js pending]; simpl.
  - unfold cdrv_cpg_deliver.
    pose proof (sorted_queues_deliver_message cmsg s Hs) as H1.
    destruct (deliver_message cmsg s) as [[] s1|h1 s1]; simpl in *; [|done].
    by apply sorted_queues_corosync_dispatch.
  - unfold cdrv_cpg_confchg.
    pose proof (sorted_queues_check_network_partition
                  (Z.of_nat (length ms)) (Z.of_nat (length ls)) s Hs) as H1.
    destruct (check_network_partition _ _ s) as [[] s1|h1 s1]; simpl in *;
      [|done].
    pose proof (sorted_queues_confchg_events ms ls js s1 H1) as H2.
    destruct (confchg_events ms ls js s1) as [[] s2|h2 s2]; simpl in *;
      [|done].
    by apply sorted_queues_corosync_dispatch.
Qed.

(** X19: the block list holds BLOCK events only and the non-block list
    holds none, after any sequence of callbacks from a state where that is
    so, the initial state in particular: [queue_event] sorts by type, and
    the one store that changes the type of a queued event turns a
    JOIN_REQUEST into a JOIN_RESPONSE. *)
Theorem queues_stay_sorted (cs : list callback) s :
  sorted_queues s -> sorted_queues (final (run cs s)).
Proof.
  revert s. induction cs as [|c cs IH]; intros s Hs; simpl; [done|].
  pose proof (sorted_queues_handle c s Hs) as H1.
  destruct (handle c s) as [[] s1|h1 s1]; simpl in *; [by apply IH|done].
Qed.

(** X20: once this node has joined, the dispatcher never unlinks a BLOCK
    event: with the non-block list empty and a BLOCK event at the head of
    the block list, a call of the dispatcher calls [sd_block_handler] for
    the event unless an earlier call of the handler accepted it, stores
    the handler's answer in [callbacked], and returns with both lists as
    long as they were.  Only an UNBLOCK multicast or the departure of the
    sender takes the event off the list. *)
Theorem block_event_waits_for_unblock cevent rest s :
  join_finished s = true ->
  corosync_nonblock_event_list s = [] ->
  corosync_block_event_list s = cevent :: rest ->
  type cevent = COROSYNC_EVENT_TYPE_BLOCK ->
  exists s',
    __corosync_dispatch false s = Ret tt s' /\
    corosync_nonblock_event_list s' = [] /\
    cpg_nodes s' = cpg_nodes s /\
    nr_cpg_nodes s' = nr_cpg_nodes s /\
    (if callbacked cevent
     then corosync_block_event_list s' = cevent :: rest /\
          log s' = log s /\ host_state s' = host_state s
     else corosync_block_event_list s'
            = set_callbacked
                (fst (sd_block_handler (ent (sender cevent)) (host_state s)))
                cevent :: rest /\
          log s' = log s ++ [UP_block (ev_id cevent) (ent (sender cevent))] /\
          host_state s'
            = snd (sd_block_handler (ent (sender cevent)) (host_state s))).
Proof.
  intros Hjf Hn Hb Hty.
  unfold __corosync_dispatch. rewrite Hb, Hn. simpl.
  unfold first_event. simpl. rewrite Hn, Hb.
  unfold dispatch_event, update_join_status. simpl. rewrite Hjf. simpl.
  unfold __corosync_dispatch_one. rewrite Hty, Hjf.
  destruct (callbacked cevent) eqn:Hc; simpl.
  - eexists. split; [reflexivity|]. simpl. by rewrite Hn, Hb.
  - destruct (sd_block_handler _ _) as [accepted h] eqn:Hh. simpl.
    eexists. split; [reflexivity|]. simpl. by rewrite Hn, Hb.
Qed.

(** ** From an operation on one node to a handler on another *)

Lemma copy_payload_take (bytes : list Byte.byte) (len : Z) :
  copy_payload (take (Z.to_nat len) bytes) len = copy_payload bytes len.
Proof.
  unfold copy_payload. destruct (len =? 0); [done|].
  by rewrite take_take, Nat.min_id.
Qed.

(** X21: what [corosync_notify] and [corosync_unblock] multicast reaches
    [sd_notify_handler].  When the multicast succeeds, the message of
    either operation, delivered to a node that has joined and has nothing
    queued, makes that node call [sd_notify_handler] once, with the
    descriptor the sender has of itself and with the payload and the
    length the operation was called with; afterwards nothing is queued and
    the roster is as before.  The caller's buffer holds the [msg_len] bytes
    it announces. *)
Theorem payload_reaches_the_notify_handler (msg : option (list Byte.byte))
    (msg_len : Z) (answers : list cs_error_t) (slept : nat) (t s : state) :
  send_message_retry answers = Some (0, slept) ->
  0 <= msg_len < 2 ^ 32 ->
  (Z.to_nat msg_len <= length (default [] msg))%nat ->
  join_finished s = true ->
  corosync_nonblock_event_list s = [] ->
  corosync_block_event_list s = [] ->
  exists t1 t2 m1 m2,
    corosync_notify msg msg_len answers t = Some (0, t1) /\
    corosync_unblock msg msg_len answers t = Some t2 /\
    last (log t1) ≫= wire = Some m1 /\
    last (log t2) ≫= wire = Some m2 /\
    m_type m1 = COROSYNC_MSG_TYPE_NOTIFY /\
    m_type m2 = COROSYNC_MSG_TYPE_UNBLOCK /\
    forall m, m = m1 \/ m = m2 ->
      exists s',
        cdrv_cpg_deliver m false s = Ret tt s' /\
        log s' = log s ++ [UP_notify (ent (this_node t))
                             (copy_payload (default [] msg) msg_len)
                             msg_len] /\
        host_state s'
          = sd_notify_handler (ent (this_node t))
              (copy_payload (default [] msg) msg_len) msg_len
              (host_state s) /\
        corosync_nonblock_event_list s' = [] /\
        corosync_block_event_list s' = [] /\
        cpg_nodes s' = cpg_nodes s /\
        nr_cpg_nodes s' = nr_cpg_nodes s.
Proof.
  intros Hsent Hlen Hbuf Hjf Hn Hb.
  unfold corosync_notify, corosync_unblock, send_message_answered.
  rewrite Hsent. simpl.
  set (payload := match msg with
                  | Some bytes => take (Z.to_nat msg_len) bytes
                  | None => []
                  end).
  assert (Hpayload : copy_payload payload msg_len
                     = copy_payload (default [] msg) msg_len).
  { unfold payload. destruct msg as [bytes|]; simpl; [|done].
    apply copy_payload_take. }
  eexists _, _,
    (mk_message (this_node t) COROSYNC_MSG_TYPE_NOTIFY CJ_RES_SUCCESS
       msg_len 0 (replicate SD_MAX_NODES cpg_node_zero) payload),
    (mk_message (this_node t) COROSYNC_MSG_TYPE_UNBLOCK CJ_RES_SUCCESS
       msg_len 0 (replicate SD_MAX_NODES cpg_node_zero) payload).
  split; [reflexivity|]. split; [reflexivity|].
  unfold send_message, record. simpl. rewrite !last_snoc. simpl.
  rewrite (Z.mod_small msg_len), Nat.sub_0_r by done.
  fold payload. rewrite <- Hpayload.
  split_and!; try reflexivity.
  intros m [-> | ->].
  - unfold cdrv_cpg_deliver, deliver_message, event_of_message,
      xzalloc_event, queue_event. simpl.
    unfold __corosync_dispatch. simpl.
    repeat first
      [ rewrite Hn | rewrite Hb | rewrite Hjf | progress simpl
      | progress unfold first_event, dispatch_event, update_join_status,
          __corosync_dispatch_one, list_del ].
    eexists. split; [reflexivity|]. by simpl.
  - unfold cdrv_cpg_deliver, deliver_message, update_event, find_event,
      find_block_event, find_on, event_of_message,
      xzalloc_event, queue_event. simpl. rewrite Hb. simpl.
    unfold __corosync_dispatch. simpl.
    repeat first
      [ rewrite Hn | rewrite Hb | rewrite Hjf | progress simpl
      | progress unfold first_event, dispatch_event, update_join_status,
          __corosync_dispatch_one, list_del ].
    eexists. split; [reflexivity|]. by simpl.
Qed.

(** X27: what [corosync_block] multicasts reaches [sd_block_handler].  When
    the multicast succeeds, the message, delivered to a node that has
    joined and has nothing queued, is queued as a BLOCK event and makes
    that node call [sd_block_handler] once, with the descriptor the sender
    has of itself; the event stays at the head of the block list, with the
    handler's answer in [callbacked]. *)
Theorem block_reaches_the_block_handler (answers : list cs_error_t)
    (slept : nat) (t s : state) :
  send_message_retry answers = Some (0, slept) ->
  join_finished s = true ->
  corosync_nonblock_event_list s = [] ->
  corosync_block_event_list s = [] ->
  exists t1 m s',
    corosync_block answers t = Some t1 /\
    last (log t1) ≫= wire = Some m /\
    m_type m = COROSYNC_MSG_TYPE_BLOCK /\
    cdrv_cpg_deliver m false s = Ret tt s' /\
    log s' = log s ++ [UP_block (next_event s) (ent (this_node t))] /\
    host_state s'
      = snd (sd_block_handler (ent (this_node t)) (host_state s)) /\
    corosync_block_event_list s'
      = [mk_event (next_event s) COROSYNC_EVENT_TYPE_BLOCK (this_node t)
           None 0 CJ_RES_SUCCESS 0 (replicate SD_MAX_NODES cpg_node_zero)
           (fst (sd_block_handler (ent (this_node t)) (host_state s)))] /\
    corosync_nonblock_event_list s' = [] /\
    cpg_nodes s' = cpg_nodes s /\
    nr_cpg_nodes s' = nr_cpg_nodes s.
Proof.
  intros Hsent Hjf Hn Hb.
  destruct (sd_block_handler (ent (this_node t)) (host_state s))
    as [accepted h] eqn:Hh.
  unfold corosync_block, send_message_answered.
  rewrite Hsent. simpl.
  eexists (send_message COROSYNC_MSG_TYPE_BLOCK CJ_RES_SUCCESS (this_node t)
             [] 0 None 0 t),
    (mk_message (this_node t) COROSYNC_MSG_TYPE_BLOCK CJ_RES_SUCCESS
       0 0 (replicate SD_MAX_NODES cpg_node_zero) []).
  unfold send_message, record. simpl. rewrite last_snoc. simpl.
  rewrite Nat.sub_0_r.
  unfold cdrv_cpg_deliver, deliver_message, event_of_message,
    xzalloc_event, queue_event. simpl.
  unfold __corosync_dispatch. simpl.
  repeat first
    [ rewrite Hn | rewrite Hb | rewrite Hjf | rewrite Hh | progress simpl
    | progress unfold first_event, dispatch_event, update_join_status,
        __corosync_dispatch_one, list_del ].
  eexists. by split_and!.
Qed.

(** ** The joining node *)

(** X22: a node that has not joined and finds the JOIN_RESPONSE to its own
    request at the head of the queue adopts the roster of the response: it
    sets [join_finished], replaces its roster by the first [nr_nodes]
    entries the response carries, whatever it held before, and appends
    itself unless the result is FAIL.  [sd_join_handler] is called once
    with that roster, and the event is unlinked.  On FAIL the node counts
    as joined all the same. *)
Theorem joiner_adopts_the_roster q cevent s :
  first_event s = Some (q, cevent) ->
  join_finished s = false ->
  type cevent = COROSYNC_EVENT_TYPE_JOIN_RESPONSE ->
  cpg_node_equal (sender cevent) (this_node s) = true ->
  length (cpg_nodes s) = SD_MAX_NODES ->
  length (nodes cevent) = SD_MAX_NODES ->
  (Z.to_nat (nr_nodes cevent) < SD_MAX_NODES)%nat ->
  let snapshot := take (Z.to_nat (nr_nodes cevent)) (nodes cevent) in
  let members :=
    match result cevent with
    | CJ_RES_FAIL => snapshot
    | _ => snapshot ++ [sender cevent]
    end in
  exists s',
    dispatch_event q cevent s = Ret true s' /\
    join_finished s' = true /\
    roster s' = members /\
    nr_cpg_nodes s' = length members /\
    log s' = log s ++ [UP_join (ent (sender cevent)) (ent <$> members)
                         (length members) (result cevent) (msg cevent)] /\
    host_state s'
      = sd_join_handler (ent (sender cevent)) (ent <$> members)
          (length members) (result cevent) (msg cevent) (host_state s) /\
    events q s = cevent :: events q s'.
Proof.
  intros Hfirst Hjf Hty Hself Hlen Hlen' Hnr. simpl.
  destruct (first_event_head _ _ _ Hfirst) as (rest & Hq & _).
  set (n := Z.to_nat (nr_nodes cevent)) in *.
  assert (Hsnap : length (take n (nodes cevent)) = n)
    by (rewrite length_take; lia).
  assert (Htake : take n (take n (nodes cevent) ++ drop n (cpg_nodes s))
                  = take n (nodes cevent)).
  { rewrite take_app_length'; done. }
  assert (Hins :
    take (S n) (<[n := sender cevent]>
                  (take n (nodes cevent) ++ drop n (cpg_nodes s)))
    = take n (nodes cevent) ++ [sender cevent]).
  { rewrite <- Hsnap at 2.
    rewrite insert_app_r_alt, Hsnap, Nat.sub_diag by lia.
    destruct (drop n (cpg_nodes s)) as [|x l] eqn:Hd.
    - apply (f_equal length) in Hd. rewrite length_drop in Hd.
      simpl in Hd. lia.
    - simpl. rewrite take_app, Hsnap, take_ge by lia.
      by replace (S n - n)%nat with 1%nat by lia. }
  unfold dispatch_event, update_join_status.
  rewrite Hjf, Hty, Hself. unfold memcpy_nodes.
  rewrite decide_True by lia. simpl.
  unfold __corosync_dispatch_one. rewrite Hty. simpl.
  destruct (result cevent) eqn:Hres.
  2: { simpl. eexists. split; [reflexivity|].
       unfold roster, build_node_list.
       destruct q; simpl in *; fold n; rewrite Htake, Hsnap, Hq;
         by split_and!. }
  all: unfold add_cpg_node; simpl; fold n.
  all: rewrite decide_True
         by (rewrite length_app, length_take, length_drop; lia).
  all: simpl; eexists; (split; [reflexivity|]).
  all: unfold roster, build_node_list.
  all: destruct q; simpl in *; fold n; rewrite Hins, length_app, Hsnap, Hq.
  all: simpl; replace (n + 1)%nat with (S n) by lia.
  all: by split_and!.
Qed.

(** ** The master and a joining node *)

Lemma is_master_ext node s s' :
  cpg_nodes s' = cpg_nodes s ->
  nr_cpg_nodes s' = nr_cpg_nodes s ->
  this_node s' = this_node s ->
  is_master node s' = is_master node s.
Proof. unfold is_master. by intros -> -> ->. Qed.

Lemma build_cpg_node_list_one (a : cpg_address) :
  (0 < SD_MAX_NODES)%nat ->
  exists l, build_cpg_node_list automatic_nodes [a] = Some l /\
            take 1 l = [sheep a].
Proof.
  intros Hpos. destruct (build_cpg_node_list_automatic [a]) as (l & ? & ?);
    [simpl; lia|by exists l].
Qed.

(** The configuration change that announces one joining node to a node that
    has joined and has nothing queued. *)
Lemma confchg_one_joiner (member_list : list cpg_address) (a : cpg_address)
    s :
  join_finished s = true ->
  corosync_nonblock_event_list s = [] ->
  corosync_block_event_list s = [] ->
  (length member_list <= SD_MAX_NODES)%nat ->
  (0 < SD_MAX_NODES)%nat ->
  cdrv_cpg_confchg member_list [] [a] false s
  = Ret tt
      (set_nr_majority 0
         (set_nonblock_list
            [mk_event (next_event s) COROSYNC_EVENT_TYPE_JOIN_REQUEST
               (sheep a) None 0 CJ_RES_SUCCESS 0
               (replicate SD_MAX_NODES cpg_node_zero) false]
            (set_next_event (S (next_event s)) s))).
Proof.
  intros Hjf Hn Hb Hm Hpos.
  unfold cdrv_cpg_confchg, check_network_partition. simpl.
  unfold confchg_events.
  destruct (build_cpg_node_list_automatic member_list Hm) as (ms & -> & Hms).
  destruct (build_cpg_node_list_automatic [] (Nat.le_0_l _)) as (ls & -> & _).
  destruct (build_cpg_node_list_one a Hpos) as (js & -> & Hjs).
  simpl. rewrite Hjs. simpl.
  unfold confchg_joined, xzalloc_event, queue_event. simpl.
  rewrite Hjf, Hn. simpl.
  unfold __corosync_dispatch. simpl. rewrite Hb. simpl.
  unfold first_event, dispatch_event, update_join_status. simpl.
  rewrite Hjf. simpl. rewrite Hjf.
  unfold __corosync_dispatch_one. simpl.
  by destruct (_ <? 0).
Qed.

Lemma find_on_head l e ty sender' :
  event_matches ty sender' e = true -> find_on (e :: l) ty sender' = Some 0%nat.
Proof.
  intros Hm. unfold find_on. simpl. by rewrite decide_True.
Qed.

Lemma copy_payload_pos (bytes : list Byte.byte) (len : Z) :
  0 < len -> copy_payload bytes len = Some (take (Z.to_nat len) bytes).
Proof.
  intros Hlen. unfold copy_payload.
  destruct (len =? 0) eqn:E; [|done]. apply Z.eqb_eq in E. lia.
Qed.

(** The dispatcher on a JOIN_REQUEST event the master has not answered. *)
Lemma master_answers e rest m res h s :
  join_finished s = true ->
  corosync_nonblock_event_list s = e :: rest ->
  type e = COROSYNC_EVENT_TYPE_JOIN_REQUEST ->
  msg e = Some m ->
  callbacked e = false ->
  0 <= is_master (Some (this_node s)) s ->
  sd_check_join_cb (ent (sender e)) m (host_state s) = (res, h) ->
  res <> CJ_RES_MASTER_TRANSFER ->
  __corosync_dispatch false s
  = Ret tt
      (update_at NONBLOCK_LIST 0 (set_callbacked true)
         (send_message COROSYNC_MSG_TYPE_JOIN_RESPONSE res (sender e)
            (cpg_nodes s) (nr_cpg_nodes s) (Some m) (msg_len e)
            (record (UP_check_join (ev_id e) (ent (sender e)) m)
               (set_host_state h (set_nr_majority 0 s))))).
Proof.
  intros Hjf Hn Hty Hm Hc Hmaster Hcheck Hres.
  unfold __corosync_dispatch. rewrite Hn. simpl length.
  rewrite Nat.add_succ_r. simpl.
  unfold first_event. simpl. rewrite Hn.
  unfold dispatch_event, update_join_status. simpl. rewrite Hjf. simpl.
  rewrite Hjf. unfold __corosync_dispatch_one. rewrite Hty, Hm, Hc. simpl.
  change (is_master (Some (this_node s)) (set_nr_majority 0 s))
    with (is_master (Some (this_node s)) s).
  destruct (is_master _ s <? 0) eqn:E; [apply Z.ltb_lt in E; lia|].
  rewrite Hcheck. destruct res; try done; simpl; by rewrite Hn.
Qed.

(** The dispatcher on a JOIN_RESPONSE event that is the only event queued,
    on a node that has joined. *)
Lemma join_response_is_processed e s :
  join_finished s = true ->
  corosync_nonblock_event_list s = [e] ->
  corosync_block_event_list s = [] ->
  type e = COROSYNC_EVENT_TYPE_JOIN_RESPONSE ->
  (nr_cpg_nodes s < length (cpg_nodes s))%nat ->
  let members :=
    match result e with
    | CJ_RES_FAIL => roster s
    | _ => roster s ++ [sender e]
    end in
  exists s',
    __corosync_dispatch false s = Ret tt s' /\
    log s' = log s ++ [UP_join (ent (sender e)) (ent <$> members)
                         (length members) (result e) (msg e)] /\
    host_state s'
      = sd_join_handler (ent (sender e)) (ent <$> members) (length members)
          (result e) (msg e) (host_state s) /\
    roster s' = members /\
    corosync_nonblock_event_list s' = [] /\
    corosync_block_event_list s' = [].
Proof.
  intros Hjf Hn Hb Hty Hroom. simpl.
  assert (Hlen : length (roster s) = nr_cpg_nodes s).
  { unfold roster. rewrite length_take. lia. }
  assert (Hins :
    take (S (nr_cpg_nodes s)) (<[nr_cpg_nodes s := sender e]> (cpg_nodes s))
    = take (nr_cpg_nodes s) (cpg_nodes s) ++ [sender e]).
  { eapply proj1, add_cpg_node_roster. unfold add_cpg_node.
    by rewrite decide_True. }
  unfold __corosync_dispatch. rewrite Hn, Hb. simpl.
  unfold first_event. simpl. rewrite Hn.
  unfold dispatch_event, update_join_status. simpl. rewrite Hjf. simpl.
  rewrite Hjf. unfold __corosync_dispatch_one. rewrite Hty. simpl.
  destruct (result e) eqn:Hres.
  2: { simpl. rewrite Hn. simpl. unfold first_event. simpl. rewrite Hb.
       eexists. split; [reflexivity|]. simpl.
       unfold build_node_list. fold (roster s). rewrite Hlen.
       by split_and!. }
  all: unfold add_cpg_node; rewrite decide_True by done; simpl.
  all: rewrite Hn; simpl; unfold first_event; simpl; rewrite Hb.
  all: eexists; (split; [reflexivity|]); simpl.
  all: unfold build_node_list, roster; simpl.
  all: rewrite Hins, length_app; fold (roster s); rewrite Hlen; simpl.
  all: replace (nr_cpg_nodes s + 1)%nat with (S (nr_cpg_nodes s)) by lia.
  all: by split_and!.
Qed.

(** The delivery of the JOIN_REQUEST multicast of the node whose event is
    at the head of the non-block list. *)
Lemma deliver_join_request cmsg e rest s :
  m_type cmsg = COROSYNC_MSG_TYPE_JOIN_REQUEST ->
  corosync_nonblock_event_list s = e :: rest ->
  event_matches COROSYNC_EVENT_TYPE_JOIN_REQUEST (m_sender cmsg) e = true ->
  deliver_message cmsg s
  = Ret tt
      (set_nonblock_list
         (set_msg_len (m_msg_len cmsg)
            (set_sender (m_sender cmsg)
               (set_msg (copy_payload (m_msg cmsg) (m_msg_len cmsg))
                  (set_msg_len (m_msg_len cmsg) e))) :: rest) s).
Proof.
  intros Hty Hn Hmatch.
  unfold deliver_message, update_event, find_event. rewrite Hty. simpl.
  unfold find_nonblock_event. rewrite Hn, find_on_head by done. simpl.
  by rewrite Hn.
Qed.

(** The delivery of the JOIN_RESPONSE multicast about that node. *)
Lemma deliver_join_response cmsg e rest s :
  m_type cmsg = COROSYNC_MSG_TYPE_JOIN_RESPONSE ->
  corosync_nonblock_event_list s = e :: rest ->
  event_matches COROSYNC_EVENT_TYPE_JOIN_REQUEST (m_sender cmsg) e = true ->
  (Z.to_nat (m_nr_nodes cmsg) <= length (m_nodes cmsg))%nat ->
  (Z.to_nat (m_nr_nodes cmsg) <= length (nodes e))%nat ->
  exists e',
    deliver_message cmsg s = Ret tt (set_nonblock_list (e' :: rest) s) /\
    type e' = COROSYNC_EVENT_TYPE_JOIN_RESPONSE /\
    sender e' = sender e /\
    result e' = m_result cmsg /\
    msg e' = copy_payload (m_msg cmsg) (m_msg_len cmsg).
Proof.
  intros Hty Hn Hmatch Hsrc Hdst.
  unfold deliver_message, update_event, find_event. rewrite Hty. simpl.
  unfold find_nonblock_event. rewrite Hn, find_on_head by done. simpl.
  rewrite Hn. simpl. unfold memcpy_nodes.
  rewrite decide_True by done.
  eexists. split; [reflexivity|]. done.
Qed.

(** X23: the master admits a joining node.  On a node that has joined, is
    the master and has nothing queued, three callbacks with no input
    pending do the whole handshake: the configuration change that announces
    the joiner queues its event; the delivery of the joiner's JOIN_REQUEST
    makes the master call [sd_check_join_cb] once, with the joiner's
    descriptor and payload, and multicast the JOIN_RESPONSE with the
    answer, the roster and the payload; the delivery of that JOIN_RESPONSE
    back to the master makes it append the joiner to the roster, unless the
    answer was FAIL, and call [sd_join_handler] once with the new roster.
    Afterwards nothing is queued.  The JOIN_REQUEST holds the [len] bytes
    of payload its header announces. *)
Theorem master_admits_a_joiner (member_list : list cpg_address)
    (a : cpg_address) (joiner : cpg_node) (bytes : list Byte.byte) (len : Z)
    (res : cluster_join_result) (h : host) s :
  join_finished s = true ->
  corosync_nonblock_event_list s = [] ->
  corosync_block_event_list s = [] ->
  0 <= is_master (Some (this_node s)) s ->
  length (cpg_nodes s) = SD_MAX_NODES ->
  (nr_cpg_nodes s < SD_MAX_NODES)%nat ->
  Z.of_nat SD_MAX_NODES < 2 ^ 32 ->
  (length member_list <= SD_MAX_NODES)%nat ->
  node_id joiner = (a_nodeid a, a_pid a) ->
  0 < len < 2 ^ 32 ->
  (Z.to_nat len <= length bytes)%nat ->
  sd_check_join_cb (ent joiner) (take (Z.to_nat len) bytes) (host_state s)
    = (res, h) ->
  res <> CJ_RES_MASTER_TRANSFER ->
  let m := take (Z.to_nat len) bytes in
  let request :=
    mk_message joiner COROSYNC_MSG_TYPE_JOIN_REQUEST CJ_RES_SUCCESS len 0
      (replicate SD_MAX_NODES cpg_node_zero) bytes in
  let members :=
    match res with
    | CJ_RES_FAIL => roster s
    | _ => roster s ++ [joiner]
    end in
  exists s2 response s3,
    run [CONFCHG member_list [] [a] false; DELIVER request false] s
      = Ret tt s2 /\
    log s2 = log s ++ [UP_check_join (next_event s) (ent joiner) m;
                       SEND COROSYNC_MSG_TYPE_JOIN_RESPONSE res joiner
                         (roster s) (nr_cpg_nodes s) (Some m) len] /\
    last (log s2) ≫= wire = Some response /\
    cdrv_cpg_deliver response false s2 = Ret tt s3 /\
    log s3 = log s2 ++ [UP_join (ent joiner) (ent <$> members)
                          (length members) res (Some m)] /\
    host_state s3
      = sd_join_handler (ent joiner) (ent <$> members) (length members) res
          (Some m) h /\
    roster s3 = members /\
    corosync_nonblock_event_list s3 = [] /\
    corosync_block_event_list s3 = [].
Proof.
  intros Hjf Hn Hb Hmaster Hlen Hnr Hmax Hm Hid Hl Hbuf Hcheck Hres. simpl.
  assert (Hpos : (0 < SD_MAX_NODES)%nat) by lia.
  assert (Hmatch : forall n o l r nr ns c,
    event_matches COROSYNC_EVENT_TYPE_JOIN_REQUEST joiner
      (mk_event n COROSYNC_EVENT_TYPE_JOIN_REQUEST (sheep a) o l r nr ns c)
    = true).
  { intros. unfold event_matches, cpg_node_equal. simpl.
    injection Hid as -> ->. by rewrite !Z.eqb_refl. }
  assert (Hroster : length (roster s) = nr_cpg_nodes s).
  { unfold roster. rewrite length_take. lia. }
  rewrite (confchg_one_joiner member_list a s Hjf Hn Hb Hm Hpos).
  cbn [bind]. unfold cdrv_cpg_deliver at 1.
  erewrite deliver_join_request; [|done|simpl; reflexivity|apply Hmatch].
  cbn [bind]. cbn [m_msg m_msg_len m_sender].
  rewrite copy_payload_pos by lia.
  erewrite master_answers;
    [|done|simpl; reflexivity|done|simpl; reflexivity|done|done
     |simpl; exact Hcheck|done].
  cbn [bind].
  match goal with
  | |- exists s2 _ _, Ret tt ?X = Ret tt s2 /\ _ => set (s2 := X)
  end.
  set (m := take (Z.to_nat len) bytes) in *.
  set (response :=
    mk_message joiner COROSYNC_MSG_TYPE_JOIN_RESPONSE res len
      (Z.of_nat (nr_cpg_nodes s))
      (roster s ++ replicate (SD_MAX_NODES - nr_cpg_nodes s) cpg_node_zero)
      m).
  destruct (deliver_join_response response
              (mk_event (next_event s) COROSYNC_EVENT_TYPE_JOIN_REQUEST
                 joiner (Some m) len CJ_RES_SUCCESS 0
                 (replicate SD_MAX_NODES cpg_node_zero) true) [] s2)
    as (e' & Hdel & Hty' & Hsender' & Hres' & Hmsg');
    [done|reflexivity| | | |].
  { unfold event_matches, cpg_node_equal. simpl. by rewrite !Z.eqb_refl. }
  { simpl. rewrite length_app, length_replicate. lia. }
  { simpl. rewrite length_replicate. lia. }
  simpl in Hsender', Hres', Hmsg'.
  destruct (join_response_is_processed e' (set_nonblock_list [e'] s2))
    as (s3 & Hdisp & Hlog3 & Hhost3 & Hroster3 & Hn3 & Hb3);
    [done|done|done|done|simpl; lia|].
  rewrite Hsender', Hres' in *.
  exists s2, response, s3. split; [done|].
  split; [simpl; by rewrite <- app_assoc|].
  split.
  { simpl. rewrite last_snoc. simpl. fold (roster s).
    rewrite Hroster, !Z.mod_small by lia.
    replace (take (Z.to_nat len) m) with m
      by (unfold m; by rewrite take_take, Nat.min_id).
    done. }
  split.
  { unfold cdrv_cpg_deliver. rewrite Hdel. done. }
  rewrite Hmsg' in *. unfold response in Hlog3, Hhost3. simpl in Hlog3, Hhost3.
  rewrite copy_payload_pos in Hlog3, Hhost3 by lia.
  unfold m in Hlog3, Hhost3. rewrite take_take, Nat.min_id in Hlog3, Hhost3.
  fold m in Hlog3, Hhost3.
  by split_and!.
Qed.

(** ** The first node *)

(** X24: a node that has not joined, has nothing queued, and learns from one
    configuration change without departures that every member of the group
    has just joined, becomes the master of an empty roster in that very
    callback: it elects itself, and the dispatcher, on the first
    JOIN_REQUEST event, sets [join_finished] and empties the roster, so
    that [is_master] answers 0 for this node.  The events of the joined
    nodes stay queued, waiting for their JOIN_REQUEST multicasts; no
    handler is called. *)
Theorem node_alone_becomes_master (member_list joined_list : list cpg_address)
    s :
  join_finished s = false ->
  corosync_nonblock_event_list s = [] ->
  corosync_block_event_list s = [] ->
  (length member_list <= SD_MAX_NODES)%nat ->
  (length joined_list <= SD_MAX_NODES)%nat ->
  joined_list <> [] ->
  member_list ⊆ joined_list ->
  exists s',
    cdrv_cpg_confchg member_list [] joined_list false s = Ret tt s' /\
    self_elect s' = true /\
    join_finished s' = true /\
    nr_cpg_nodes s' = 0%nat /\
    is_master (Some (this_node s')) s' = 0 /\
    corosync_nonblock_event_list s'
      = imap (fun k a =>
                mk_event (next_event s + k)
                  COROSYNC_EVENT_TYPE_JOIN_REQUEST (sheep a) None 0
                  CJ_RES_SUCCESS 0
                  (replicate SD_MAX_NODES cpg_node_zero) false)
          joined_list /\
    corosync_block_event_list s' = [] /\
    host_state s' = host_state s /\
    log s' = log s.
Proof.
  intros Hjf Hn Hb Hm Hj Hne Hsub.
  pose proof (confchg_events_run member_list [] joined_list s Hm
                (Nat.le_0_l _) Hj) as Hrun.
  simpl in Hrun.
  set (s2 := foldl (fun s n => confchg_joined n s) s (sheep <$> joined_list))
    in *.
  destruct (foldl_confchg_joined (sheep <$> joined_list) s)
    as (Hn2 & Hb2 & _).
  fold s2 in Hn2, Hb2.
  rewrite imap_fmap, Hn in Hn2. simpl in Hn2. rewrite Hb in Hb2.
  assert (Hjf2 : join_finished s2 = false).
  { pose proof (same_outside_foldl_joined (sheep <$> joined_list) s)
      as (_ & _ & E & _).
    fold s2 in E. congruence. }
  assert (Hout : log s2 = log s /\ host_state s2 = host_state s).
  { pose proof (same_outside_foldl_joined (sheep <$> joined_list) s)
      as (E1 & E2 & _).
    by fold s2 in E1, E2. }
  destruct Hout as [Hlog2 Hhost2].
  rewrite Hjf2 in Hrun.
  pose proof (all_members_joining_joined member_list joined_list s Hsub)
    as Hall.
  fold s2 in Hall. rewrite Hall in Hrun.
  unfold cdrv_cpg_confchg, check_network_partition. simpl. rewrite Hrun.
  simpl. unfold __corosync_dispatch. simpl. rewrite Hb2, Hn2. simpl.
  destruct joined_list as [|a joined']; [done|]. simpl.
  unfold first_event. simpl. rewrite Hn2. simpl.
  unfold dispatch_event, update_join_status. simpl.
  rewrite Hjf2. simpl.
  unfold __corosync_dispatch_one. simpl.
  change (is_master (Some (this_node s2))
            (set_nr_cpg_nodes 0
               (set_join_finished true
                  (set_nr_majority 0 (set_self_elect true s2))))) with 0.
  simpl. eexists. split; [reflexivity|]. simpl.
  by rewrite Hn2.
Qed.

(** ** A node that leaves *)

Lemma lookup_total_alter_gone (nodes : list cpg_node) g i k :
  node_id (alter (set_gone g) i nodes !!! k) = node_id (nodes !!! k) /\
  ent (alter (set_gone g) i nodes !!! k) = ent (nodes !!! k).
Proof.
  rewrite !list_lookup_total_alt.
  destruct (decide (i = k)) as [->|Hne].
  - rewrite list_lookup_alter_eq. by destruct (nodes !! k).
  - by rewrite list_lookup_alter_ne.
Qed.

Lemma find_cpg_node_alter_gone (nodes : list cpg_node) n key g i :
  find_cpg_node (alter (set_gone g) i nodes) n key = find_cpg_node nodes n key.
Proof.
  unfold find_cpg_node. generalize 0%nat.
  induction n as [|n IH]; intros j; simpl; [done|].
  rewrite IH. unfold cpg_node_equal.
  destruct (lookup_total_alter_gone nodes g i j) as [Hid _].
  unfold node_id in Hid. by injection Hid as -> ->.
Qed.

Lemma roster_ents_alter_gone (nodes : list cpg_node) n g i :
  ent <$> take n (alter (set_gone g) i nodes) = ent <$> take n nodes.
Proof.
  rewrite !fmap_take. f_equal.
  rewrite (list_fmap_alter ent (set_gone g) id).
  - apply list_alter_id. done.
  - by apply Forall_forall.
Qed.

(** The dispatcher on a LEAVE event that is the only event queued, on a
    node that has joined and has the sender in its roster. *)
Lemma leave_event_is_processed ev s idx :
  join_finished s = true ->
  corosync_nonblock_event_list s = [ev] ->
  corosync_block_event_list s = [] ->
  type ev = COROSYNC_EVENT_TYPE_LEAVE ->
  (nr_cpg_nodes s <= length (cpg_nodes s))%nat ->
  find_cpg_node (cpg_nodes s) (nr_cpg_nodes s) (sender ev) = Z.of_nat idx ->
  exists s',
    __corosync_dispatch false s = Ret tt s' /\
    roster s' = delete idx (roster s) /\
    nr_cpg_nodes s' = (nr_cpg_nodes s - 1)%nat /\
    log s' = log s ++ [UP_leave (ent (cpg_nodes s !!! idx))
                         (ent <$> delete idx (roster s))
                         (nr_cpg_nodes s - 1)] /\
    host_state s'
      = sd_leave_handler (ent (cpg_nodes s !!! idx))
          (ent <$> delete idx (roster s)) (nr_cpg_nodes s - 1)
          (host_state s) /\
    corosync_nonblock_event_list s' = [] /\
    corosync_block_event_list s' = [].
Proof.
  intros Hjf Hn Hb Hty Hfit Hfind.
  assert (Hdel : forall nodes',
    del_cpg_node nodes' (nr_cpg_nodes s)
      (set_ent (ent (cpg_nodes s !!! idx)) (sender ev))
    = del_cpg_node nodes' (nr_cpg_nodes s) (sender ev))
    by (intros; by apply del_cpg_node_ext).
  assert (Hroster :
    take (nr_cpg_nodes s - 1)
      (del_cpg_node (cpg_nodes s) (nr_cpg_nodes s) (sender ev))
    = delete idx (roster s)).
  { unfold roster. by rewrite (del_cpg_node_roster _ _ _ idx). }
  unfold __corosync_dispatch. rewrite Hn, Hb. simpl.
  unfold first_event. simpl. rewrite Hn.
  unfold dispatch_event, update_join_status. simpl. rewrite Hjf. simpl.
  rewrite Hjf. unfold __corosync_dispatch_one. rewrite Hty. simpl.
  rewrite Hfind.
  destruct (Z.ltb_spec (Z.of_nat idx) 0) as [|_]; [lia|].
  rewrite Nat2Z.id. simpl. rewrite Hn. simpl.
  unfold first_event. simpl. rewrite Hb.
  eexists. split; [reflexivity|]. simpl.
  unfold roster, build_node_list. simpl.
  rewrite Hdel, Hroster. by split_and!.
Qed.

(** X25: what [corosync_leave] multicasts makes the others report the
    departure.  When the multicast succeeds, the message, delivered to a
    node that has joined, has nothing queued and finds the sender at slot
    [idx] of its roster, makes that node remove the entry, closing the
    gap, and call [sd_leave_handler] once, with the descriptor it has
    stored for the sender (not one the message carries) and with the
    remaining members; afterwards nothing is queued. *)
Theorem leave_reaches_the_leave_handler (answers : list cs_error_t)
    (slept : nat) (idx : nat) (t s : state) :
  send_message_retry answers = Some (0, slept) ->
  join_finished s = true ->
  corosync_nonblock_event_list s = [] ->
  corosync_block_event_list s = [] ->
  (nr_cpg_nodes s <= length (cpg_nodes s))%nat ->
  find_cpg_node (cpg_nodes s) (nr_cpg_nodes s) (this_node t) = Z.of_nat idx ->
  exists t1 m s',
    corosync_leave answers t = Some (0, t1) /\
    last (log t1) ≫= wire = Some m /\
    cdrv_cpg_deliver m false s = Ret tt s' /\
    log s' = log s ++ [UP_leave (ent (cpg_nodes s !!! idx))
                         (delete idx (ent <$> roster s))
                         (nr_cpg_nodes s - 1)] /\
    host_state s'
      = sd_leave_handler (ent (cpg_nodes s !!! idx))
          (delete idx (ent <$> roster s)) (nr_cpg_nodes s - 1)
          (host_state s) /\
    ent <$> roster s' = delete idx (ent <$> roster s) /\
    node_id <$> roster s' = delete idx (node_id <$> roster s) /\
    nr_cpg_nodes s' = (nr_cpg_nodes s - 1)%nat /\
    corosync_nonblock_event_list s' = [] /\
    corosync_block_event_list s' = [].
Proof.
  intros Hsent Hjf Hn Hb Hfit Hfind.
  unfold corosync_leave, send_message_answered. rewrite Hsent. simpl.
  set (m := mk_message (this_node t) COROSYNC_MSG_TYPE_LEAVE CJ_RES_SUCCESS
              0 0 (replicate SD_MAX_NODES cpg_node_zero) []).
  set (ev := mk_event (next_event s) COROSYNC_EVENT_TYPE_LEAVE (this_node t)
               None 0 CJ_RES_SUCCESS 0
               (replicate SD_MAX_NODES cpg_node_zero) false).
  set (s0 := revoke_mastership (this_node t)
               (set_next_event (S (next_event s)) s)).
  assert (Hdel : deliver_message m s = Ret tt (queue_event ev s0)) by done.
  destruct (revoke_mastership_frame (this_node t)
              (set_next_event (S (next_event s)) s))
    as (Hnr0 & _ & Hjf0 & _ & _ & Hb0 & Hn0 & _ & Hh0 & Hl0).
  fold s0 in Hnr0, Hjf0, Hb0, Hn0, Hh0, Hl0. simpl in *.
  assert (Hnodes :
    find_cpg_node (cpg_nodes s0) (nr_cpg_nodes s) (this_node t)
      = Z.of_nat idx /\
    ent (cpg_nodes s0 !!! idx) = ent (cpg_nodes s !!! idx) /\
    ent <$> take (nr_cpg_nodes s) (cpg_nodes s0) = ent <$> roster s /\
    node_id <$> take (nr_cpg_nodes s) (cpg_nodes s0) = node_id <$> roster s /\
    length (cpg_nodes s0) = length (cpg_nodes s)).
  { unfold s0, revoke_mastership, roster. destruct (0 <=? _); [|done].
    simpl. rewrite find_cpg_node_alter_gone, roster_ents_alter_gone,
      roster_ids_alter_gone, length_alter.
    split_and!; try done. apply lookup_total_alter_gone. }
  destruct Hnodes as (Hfind0 & Hent0 & Hents0 & Hids0 & Hlen0).
  destruct (leave_event_is_processed ev (queue_event ev s0) idx)
    as (s' & Hdisp & Hroster' & Hnr' & Hlog' & Hhost' & Hn' & Hb');
    [simpl; congruence|simpl; by rewrite Hn0, Hn|simpl; congruence|done
    |simpl; lia|simpl; by rewrite Hnr0|].
  simpl in *. rewrite Hnr0, Hent0, Hl0, Hh0 in *.
  unfold roster in Hroster', Hlog', Hhost'. simpl in *.
  rewrite Hnr0 in *.
  rewrite list_fmap_delete, Hents0 in Hlog', Hhost'.
  exists (send_message COROSYNC_MSG_TYPE_LEAVE CJ_RES_SUCCESS (this_node t)
            [] 0 None 0 t), m, s'.
  split; [done|]. split.
  { unfold send_message, record. simpl. rewrite last_snoc. simpl.
    by rewrite Nat.sub_0_r. }
  split.
  { unfold cdrv_cpg_deliver. by rewrite Hdel. }
  split_and!; try done.
  - fold (roster s') in Hroster'. by rewrite Hroster', list_fmap_delete, Hents0.
  - fold (roster s') in Hroster'. by rewrite Hroster', list_fmap_delete, Hids0.
Qed.

(** ** Before the join has finished, on the states a run reaches *)

Lemma cpg_node_equal_trans (a b c : cpg_node) :
  cpg_node_equal a b = true -> cpg_node_equal a c = cpg_node_equal b c.
Proof.
  unfold cpg_node_equal.
  by intros [->%Z.eqb_eq ->%Z.eqb_eq]%andb_true_iff.
Qed.

Lemma set_nonblock_list_same s :
  set_nonblock_list (corosync_nonblock_event_list s) s = s.
Proof. by destruct s. Qed.

Lemma awaits_app self (l l' : list corosync_event) :
  awaits self l = true -> awaits self (l ++ l') = true.
Proof.
  induction l as [|e l IH]; simpl; [done|].
  intros [-> [->|Hl]%orb_true_iff]%andb_true_iff; simpl; [done|].
  rewrite IH by done. by rewrite orb_true_r.
Qed.

Lemma awaits_alter self (f : corosync_event -> corosync_event) (i : nat)
    (l : list corosync_event) :
  (forall e, l !! i = Some e ->
     (is_join e = true -> is_join (f e) = true) /\
     cpg_node_equal (sender (f e)) self = cpg_node_equal (sender e) self) ->
  awaits self l = true -> awaits self (alter f i l) = true.
Proof.
  revert i. induction l as [|e l IH]; intros [|i] Hf; simpl; try done.
  - destruct (Hf e eq_refl) as [Hj ->].
    intros [->%Hj ->]%andb_true_iff. done.
  - intros [-> [->|Hl]%orb_true_iff]%andb_true_iff; simpl; [done|].
    apply orb_true_iff. right. apply IH; [|done].
    intros e' He'. by apply Hf.
Qed.

Lemma awaits_delete self (i : nat) (l : list corosync_event) :
  (forall e, l !! i = Some e -> cpg_node_equal (sender e) self = false) ->
  awaits self l = true -> awaits self (delete i l) = true.
Proof.
  revert i. induction l as [|e l IH]; intros [|i] Hne; simpl; try done.
  - rewrite (Hne e eq_refl). simpl. by intros [_ ?]%andb_true_iff.
  - intros [-> [->|Hl]%orb_true_iff]%andb_true_iff; simpl; [done|].
    apply orb_true_iff. right. apply IH; [|done].
    intros e' He'. by apply Hne.
Qed.

Lemma awaits_intro self (l : list corosync_event) :
  Forall (fun e => is_join e = true) l ->
  Exists (fun e => cpg_node_equal (sender e) self = true) l ->
  awaits self l = true.
Proof.
  induction 1 as [|e l He Hl IH]; intros Hex; [by inversion Hex|].
  simpl. rewrite He. simpl.
  inversion Hex as [? ? Hhere|? ? Hlater]; subst.
  - by rewrite Hhere.
  - rewrite IH by done. by rewrite orb_true_r.
Qed.

Lemma awaits_head self (l : list corosync_event) :
  awaits self l = true ->
  exists e l', l = e :: l' /\ is_join e = true /\
    (cpg_node_equal (sender e) self = false -> awaits self l' = true).
Proof.
  destruct l as [|e l']; simpl; [done|].
  intros [Hj Hor]%andb_true_iff. exists e, l'. split_and!; try done.
  intros Hne. by rewrite Hne in Hor.
Qed.

Lemma find_event_join_request node s q i :
  find_event COROSYNC_EVENT_TYPE_JOIN_REQUEST node s = Some (q, i) ->
  q = NONBLOCK_LIST /\
  exists e, corosync_nonblock_event_list s !! i = Some e /\
            type e = COROSYNC_EVENT_TYPE_JOIN_REQUEST /\
            cpg_node_equal (sender e) node = true.
Proof.
  unfold find_event. simpl.
  destruct (find_nonblock_event _ _ s) as [j|] eqn:Hf; simpl; [|done].
  intros [= <- <-]. split; [done|].
  apply find_on_Some in Hf as (e & He & Hm & _).
  exists e. split; [done|].
  unfold event_matches, event_type_eqb in Hm.
  apply andb_true_iff in Hm as [Hty Hs]. split; [|done].
  by destruct (type e).
Qed.

Lemma find_event_block node s q i :
  find_event COROSYNC_EVENT_TYPE_BLOCK node s = Some (q, i) ->
  q = BLOCK_LIST.
Proof.
  unfold find_event. simpl.
  destruct (find_block_event _ _ s); simpl; congruence.
Qed.

Lemma awaits_queue_event self cevent s :
  awaits self (corosync_nonblock_event_list s) = true ->
  awaits self (corosync_nonblock_event_list (queue_event cevent s)) = true.
Proof.
  unfold queue_event. destruct (event_type_eqb _ _); simpl; [done|].
  apply awaits_app.
Qed.

Lemma awaits_deliver_message self cmsg s :
  awaits self (corosync_nonblock_event_list s) = true ->
  awaits self
    (corosync_nonblock_event_list (final (deliver_message cmsg s))) = true.
Proof.
  intros Hs.
  unfold deliver_message, update_event, event_of_message, xzalloc_event.
  destruct (m_type cmsg); simpl.
  - destruct (find_event _ _ s) as [[q i]|] eqn:Hf; simpl; [|done].
    apply find_event_join_request in Hf as (-> & e & He & _ & Hm). simpl.
    apply awaits_alter; [|by apply awaits_alter].
    intros e'. rewrite list_lookup_alter_eq, He. simpl. intros [= <-].
    split; [done|]. simpl. symmetry. by apply cpg_node_equal_trans.
  - destruct (find_event _ _ s) as [[q i]|] eqn:Hf; simpl; [|done].
    apply find_event_join_request in Hf as (-> & e & He & _ & Hm). simpl.
    assert (Hs1 : awaits self
      (alter (fun e => set_msg (copy_payload (m_msg cmsg) (m_msg_len cmsg))
                         (set_msg_len (m_msg_len cmsg) e)) i
         (corosync_nonblock_event_list s)) = true)
      by by apply awaits_alter.
    match goal with
    | |- context [match ?x !! i with _ => _ end] =>
        destruct (x !! i); simpl; [|done]
    end.
    match goal with
    | |- context [memcpy_nodes ?a ?b ?c] =>
        destruct (memcpy_nodes a b c); simpl; [|done]
    end.
    by apply awaits_alter.
  - apply awaits_app.
    by destruct (revoke_mastership_frame (m_sender cmsg)
                   (set_next_event (S (next_event s)) s))
      as (_ & _ & _ & _ & _ & _ & -> & _).
  - by apply awaits_app.
  - done.
  - apply awaits_app.
    destruct (find_event _ _ s) as [[q i]|] eqn:Hf; simpl; [|done].
    by apply find_event_block in Hf as ->.
Qed.

Lemma awaits_confchg_left self node s :
  cpg_node_equal node self = false ->
  awaits self (corosync_nonblock_event_list s) = true ->
  awaits self (corosync_nonblock_event_list (confchg_left node s)) = true.
Proof.
  intros Hne Hs. unfold confchg_left, xzalloc_event.
  destruct (find_event COROSYNC_EVENT_TYPE_JOIN_REQUEST node s)
    as [[q i]|] eqn:Hf.
  - apply find_event_join_request in Hf as (-> & e & He & _ & Hm). simpl.
    apply awaits_delete; [|done].
    intros e'. rewrite He. intros [= <-].
    by rewrite (cpg_node_equal_trans _ _ self Hm).
  - apply awaits_queue_event.
    match goal with
    | |- context [revoke_mastership node ?s0] =>
        destruct (revoke_mastership_frame node s0)
          as (_ & _ & _ & _ & _ & _ & -> & _)
    end.
    destruct (find_event COROSYNC_EVENT_TYPE_BLOCK node s) as [[q i]|]
      eqn:Hb; simpl; [|done].
    by apply find_event_block in Hb as ->.
Qed.

Lemma awaits_confchg_joined self node s :
  awaits self (corosync_nonblock_event_list s) = true ->
  awaits self (corosync_nonblock_event_list (confchg_joined node s)) = true.
Proof.
  intros Hs. destruct (confchg_joined_queues node s) as (-> & _).
  by apply awaits_app.
Qed.

Lemma build_cpg_node_list_take (addrs : list cpg_address) l :
  build_cpg_node_list automatic_nodes addrs = Some l ->
  take (length addrs) l = sheep <$> addrs.
Proof.
  intros Hb.
  assert (Hlen : (length addrs <= SD_MAX_NODES)%nat).
  { unfold build_cpg_node_list, automatic_nodes in Hb.
    rewrite length_replicate in Hb. by case_decide. }
  destruct (build_cpg_node_list_automatic addrs Hlen) as (l' & Hb' & Ht).
  congruence.
Qed.

Lemma stays_not_equal self (left_list : list cpg_address) node :
  existsb (own_address self) left_list = false ->
  node ∈ sheep <$> left_list -> cpg_node_equal node self = false.
Proof.
  intros Hno (a & -> & Ha)%list_elem_of_fmap.
  destruct (cpg_node_equal (sheep a) self) eqn:Heq; [|done].
  assert (Hex : existsb (own_address self) left_list = true).
  { apply existsb_exists. exists a. split; [|exact Heq].
    by apply list_elem_of_In. }
  congruence.
Qed.

Lemma awaits_confchg_events self member_list left_list joined_list s :
  existsb (own_address self) left_list = false ->
  awaits self (corosync_nonblock_event_list s) = true ->
  awaits self
    (corosync_nonblock_event_list
       (final (confchg_events member_list left_list joined_list s))) = true.
Proof.
  intros Hno Hs. unfold confchg_events.
  destruct (build_cpg_node_list _ member_list) as [ms|] eqn:Hms; [|done].
  destruct (build_cpg_node_list _ left_list) as [ls|] eqn:Hls; [|done].
  destruct (build_cpg_node_list _ joined_list) as [js|] eqn:Hjs; [|done].
  simpl. rewrite (build_cpg_node_list_take _ _ Hls).
  assert (Hl : forall l s0,
    (forall n, n ∈ l -> cpg_node_equal n self = false) ->
    awaits self (corosync_nonblock_event_list s0) = true ->
    awaits self
      (corosync_nonblock_event_list
         (foldl (fun s n => confchg_left n s) s0 l)) = true).
  { induction l as [|n l IH]; intros s0 Hin H0; simpl; [done|].
    apply IH; [intros n' Hn'; apply Hin; by right|].
    apply awaits_confchg_left; [apply Hin; by left|done]. }
  assert (Hj : forall l s0,
    awaits self (corosync_nonblock_event_list s0) = true ->
    awaits self
      (corosync_nonblock_event_list
         (foldl (fun s n => confchg_joined n s) s0 l)) = true).
  { induction l as [|n l IH]; intros s0 H0; simpl; [done|].
    by apply IH, awaits_confchg_joined. }
  repeat case_match; simpl; apply Hj, Hl; try done.
  all: intros n Hn; by eapply stays_not_equal.
Qed.

(** One iteration of the loop on a join event before the join has
    finished: it sets [join_finished], or it returns, or the process ends,
    or it unlinks the answer to the join of another node. *)
Lemma dispatch_event_awaiting q cevent s :
  join_finished s = false -> is_join cevent = true ->
  (exists s1, update_join_status cevent s = Ret tt s1 /\
              join_finished s1 = true) \/
  dispatch_event q cevent s = Ret false s \/
  dispatch_event q cevent s = Halt UNDEFINED s \/
  (dispatch_event q cevent s = Ret true (list_del q 0 s) /\
   type cevent = COROSYNC_EVENT_TYPE_JOIN_RESPONSE /\
   cpg_node_equal (sender cevent) (this_node s) = false).
Proof.
  intros Hjf Hj. unfold dispatch_event.
  destruct (update_join_status cevent s) as [[] s1|h s1] eqn:Hu; simpl.
  - destruct (join_finished s1) eqn:Hj1; [left; by exists s1|].
    right. unfold update_join_status in Hu. rewrite Hjf in Hu.
    unfold is_join in Hj.
    destruct (type cevent) eqn:Hty; try done; simpl.
    + left. destruct (self_elect s); by simplify_eq.
    + right. right.
      destruct (cpg_node_equal _ _) eqn:Heq.
      * destruct (memcpy_nodes _ _ _); by simplify_eq.
      * by simplify_eq.
  - right. right. left.
    unfold update_join_status in Hu. rewrite Hjf in Hu.
    repeat case_match; by simplify_eq.
Qed.

Lemma dispatch_event_after_join q cevent s s1 :
  update_join_status cevent s = Ret tt s1 -> join_finished s1 = true ->
  join_finished (final (dispatch_event q cevent s)) = true /\
  forall fuel,
    join_finished
      (final (bind (dispatch_event q cevent s) (fun continue s =>
                if continue then dispatch_loop fuel s else Ret tt s)))
    = true.
Proof.
  intros Hu Hj1.
  assert (Heq : dispatch_event q cevent s = dispatch_event q cevent s1).
  { unfold dispatch_event. rewrite Hu. simpl.
    unfold update_join_status. rewrite Hj1. simpl. by rewrite Hj1. }
  pose proof (dispatch_event_join_finished q cevent s1 Hj1) as Hd.
  rewrite Heq. split; [done|]. intros fuel.
  destruct (dispatch_event q cevent s1) as [[] s2|h2 s2]; simpl in *;
    try done.
  by apply dispatch_loop_join_finished.
Qed.

(** The loop before the join has finished: it unlinks answers to the joins
    of other nodes from the head of the non-block list and touches nothing
    else, until an event sets [join_finished] or the loop stops. *)
Lemma dispatch_loop_awaits fuel s :
  join_finished s = false ->
  awaits (this_node s) (corosync_nonblock_event_list s) = true ->
  exists dropped rest,
    corosync_nonblock_event_list s = dropped ++ rest /\
    Forall (fun e => type e = COROSYNC_EVENT_TYPE_JOIN_RESPONSE) dropped /\
    awaits (this_node s) rest = true /\
    (join_finished (final (dispatch_loop fuel s)) = false ->
     final (dispatch_loop fuel s) = set_nonblock_list rest s) /\
    (join_finished (final (dispatch_loop fuel s)) = true ->
     exists cevent s1,
       head rest = Some cevent /\
       update_join_status cevent (set_nonblock_list rest s) = Ret tt s1 /\
       join_finished s1 = true).
Proof.
  revert s. induction fuel as [|fuel IH]; intros s Hjf Hw.
  - assert (Hfin : final (dispatch_loop 0 s) = s)
      by (simpl; by destruct (first_event s) as [[]|]).
    rewrite Hfin.
    exists [], (corosync_nonblock_event_list s).
    rewrite set_nonblock_list_same. split_and!; try done. congruence.
  - destruct (awaits_head _ _ Hw) as (e & l & Hl & Hj & Hnext).
    assert (Hstep : dispatch_loop (S fuel) s
      = bind (dispatch_event NONBLOCK_LIST e s) (fun continue s =>
          if continue then dispatch_loop fuel s else Ret tt s))
      by (simpl; unfold first_event; by rewrite Hl).
    rewrite Hstep. clear Hstep.
    destruct (dispatch_event_awaiting NONBLOCK_LIST e s Hjf Hj)
      as [(s1 & Hu & Hj1)|[Hd|[Hd|(Hd & Hty & Hne)]]].
    + destruct (dispatch_event_after_join NONBLOCK_LIST e s s1 Hu Hj1)
        as [_ Hfin].
      rewrite Hfin.
      exists [], (corosync_nonblock_event_list s).
      rewrite set_nonblock_list_same. split_and!; try done.
      intros _. exists e, s1. by rewrite Hl.
    + rewrite Hd. cbn [bind final].
      exists [], (corosync_nonblock_event_list s).
      rewrite set_nonblock_list_same. split_and!; try done. congruence.
    + rewrite Hd. cbn [bind final].
      exists [], (corosync_nonblock_event_list s).
      rewrite set_nonblock_list_same. split_and!; try done. congruence.
    + rewrite Hd. cbn [bind].
      assert (Hs1 : list_del NONBLOCK_LIST 0 s = set_nonblock_list l s)
        by (unfold list_del; simpl; by rewrite Hl).
      rewrite Hs1.
      destruct (IH (set_nonblock_list l s) Hjf (Hnext Hne))
        as (dropped & rest & Hsplit & Hdropped & Hrest & Hno & Hyes).
      exists (e :: dropped), rest.
      split_and!; try done.
      * rewrite Hl. simpl in Hsplit. by rewrite Hsplit.
      * by constructor.
Qed.

Lemma corosync_dispatch_awaits pending s :
  join_finished s = false ->
  awaits (this_node s) (corosync_nonblock_event_list s) = true ->
  let s' := final (__corosync_dispatch pending s) in
  exists dropped rest,
    corosync_nonblock_event_list s = dropped ++ rest /\
    Forall (fun e => type e = COROSYNC_EVENT_TYPE_JOIN_RESPONSE) dropped /\
    awaits (this_node s) rest = true /\
    (join_finished s' = false ->
     corosync_nonblock_event_list s' = rest /\
     corosync_block_event_list s' = corosync_block_event_list s /\
     log s' = log s /\ host_state s' = host_state s /\
     roster s' = roster s /\ this_node s' = this_node s) /\
    (join_finished s' = true ->
     exists cevent s1,
       head rest = Some cevent /\ is_join cevent = true /\
       update_join_status cevent
         (set_nonblock_list rest (set_nr_majority 0 s)) = Ret tt s1 /\
       join_finished s1 = true).
Proof.
  intros Hjf Hw. simpl. unfold __corosync_dispatch. destruct pending.
  - exists [], (corosync_nonblock_event_list s). simpl.
    split_and!; try done. congruence.
  - destruct (dispatch_loop_awaits
                (length (corosync_block_event_list s)
                 + length (corosync_nonblock_event_list s))
                (set_nr_majority 0 s) Hjf Hw)
      as (dropped & rest & Hsplit & Hdropped & Hrest & Hno & Hyes).
    exists dropped, rest. simpl in *. split_and!; try done.
    + intros Hf. by rewrite (Hno Hf).
    + intros Hf. destruct (Hyes Hf) as (cevent & s1 & Hh & Hu & Hj1).
      exists cevent, s1. split_and!; try done.
      destruct (awaits_head _ _ Hrest) as (e & l & -> & Hj & _).
      simpl in Hh. by injection Hh as <-.
Qed.

Lemma joining_corosync_dispatch pending s :
  joining s -> joining (final (__corosync_dispatch pending s)).
Proof.
  intros [Hjf|Hw].
  - left. by apply (dispatcher_step_corosync_dispatch pending s).
  - destruct (join_finished s) eqn:Hjf.
    { left. by apply (dispatcher_step_corosync_dispatch pending s). }
    destruct (corosync_dispatch_awaits pending s Hjf Hw)
      as (dropped & rest & _ & _ & Hrest & Hno & _).
    destruct (join_finished (final (__corosync_dispatch pending s)))
      eqn:Hf; [by left|].
    right. destruct (Hno eq_refl) as (-> & _ & _ & _ & _ & ->). done.
Qed.

Lemma handle_this_node c s : this_node (final (handle c s)) = this_node s.
Proof.
  destruct c as [cmsg pending|ms ls js pending]; simpl.
  - unfold cdrv_cpg_deliver.
    pose proof (same_outside_deliver_message cmsg s) as (_ & _ & _ & Ht & _).
    destruct (deliver_message cmsg s) as [[] s1|h1 s1]; simpl in *; [|done].
    rewrite <- Ht. apply (dispatcher_step_corosync_dispatch pending s1).
  - unfold cdrv_cpg_confchg.
    pose proof (same_outside_check_network_partition
                  (Z.of_nat (length ms)) (Z.of_nat (length ls)) s)
      as (_ & _ & _ & Ht1 & _).
    destruct (check_network_partition _ _ s) as [[] s1|h1 s1]; simpl in *;
      [|done].
    pose proof (same_outside_confchg_events ms ls js s1)
      as (_ & _ & _ & Ht2 & _).
    destruct (confchg_events ms ls js s1) as [[] s2|h2 s2]; simpl in *;
      [|congruence].
    rewrite <- Ht1, <- Ht2.
    apply (dispatcher_step_corosync_dispatch pending s2).
Qed.

Lemma handle_joining c s :
  stays (this_node s) c = true -> joining s -> joining (final (handle c s)).
Proof.
  intros Hstays [Hjf|Hw]; [left; by apply handle_join_finished|].
  destruct c as [cmsg pending|ms ls js pending]; simpl in *.
  - unfold cdrv_cpg_deliver.
    pose proof (same_outside_deliver_message cmsg s) as (_ & _ & _ & Ht & _).
    pose proof (awaits_deliver_message (this_node s) cmsg s Hw) as Hw1.
    destruct (deliver_message cmsg s) as [[] s1|h1 s1]; simpl in *.
    + apply joining_corosync_dispatch. right. by rewrite Ht.
    + right. by rewrite Ht.
  - apply negb_true_iff in Hstays. unfold cdrv_cpg_confchg.
    pose proof (same_outside_check_network_partition
                  (Z.of_nat (length ms)) (Z.of_nat (length ls)) s)
      as (_ & _ & _ & Ht1 & _).
    assert (Hq1 : corosync_nonblock_event_list
                    (final (check_network_partition
                              (Z.of_nat (length ms)) (Z.of_nat (length ls)) s))
                  = corosync_nonblock_event_list s)
      by (unfold check_network_partition; by repeat case_match).
    destruct (check_network_partition _ _ s) as [[] s1|h1 s1]; simpl in *.
    2: { right. by rewrite Ht1, Hq1. }
    rewrite <- Ht1, <- Hq1 in Hw. rewrite <- Ht1 in Hstays.
    pose proof (same_outside_confchg_events ms ls js s1)
      as (_ & _ & _ & Ht2 & _).
    pose proof (awaits_confchg_events (this_node s1) ms ls js s1 Hstays Hw)
      as Hw2.
    destruct (confchg_events ms ls js s1) as [[] s2|h2 s2]; simpl in *.
    + apply joining_corosync_dispatch. right. by rewrite Ht2.
    + right. by rewrite Ht2.
Qed.

Lemma run_joining cs s :
  forallb (stays (this_node s)) cs = true -> joining s ->
  joining (final (run cs s)).
Proof.
  revert s. induction cs as [|c cs IH]; intros s Hcs Hs; simpl; [done|].
  simpl in Hcs. apply andb_true_iff in Hcs as [Hc Hcs].
  pose proof (handle_joining c s Hc Hs) as H1.
  pose proof (handle_this_node c s) as Ht.
  destruct (handle c s) as [[] s1|h1 s1]; simpl in *; [|done].
  apply IH; [by rewrite Ht|done].
Qed.

(** The configuration change of the join of this node, as the first
    callback: unless the joined list is longer than the automatic arrays,
    the JOIN_REQUEST event of this node is queued behind those of the nodes
    that are listed before it. *)
Lemma own_join_joining self h member_list joined_list pending :
  existsb (own_address self) joined_list = true ->
  let r := handle (CONFCHG member_list [] joined_list pending)
             (initial_state self h) in
  r = Halt UNDEFINED (initial_state self h) \/
  joining (final r) /\ this_node (final r) = self.
Proof.
  intros Hown. simpl.
  pose proof (handle_this_node (CONFCHG member_list [] joined_list pending)
                (initial_state self h)) as Ht.
  simpl in Ht. unfold cdrv_cpg_confchg in *.
  change (check_network_partition _ _ (initial_state self h))
    with (@Ret H unit tt (initial_state self h)) in *.
  cbn [bind] in *.
  pose proof (same_outside_confchg_events member_list [] joined_list
                (initial_state self h)) as (_ & _ & Hjf & _).
  unfold confchg_events in *.
  destruct (build_cpg_node_list _ member_list) as [ms|]; [|by left].
  destruct (build_cpg_node_list automatic_nodes []) as [ls|]; [|by left].
  destruct (build_cpg_node_list _ joined_list) as [js|] eqn:Hjs; [|by left].
  right. split; [|exact Ht]. clear Ht.
  rewrite (build_cpg_node_list_take _ _ Hjs) in *.
  change (take (length []) ls) with (@nil cpg_node) in *.
  cbn [foldl bind final] in *.
  destruct (foldl_confchg_joined (sheep <$> joined_list)
              (initial_state self h)) as (Hq & _).
  set (s2 := foldl (fun s n => confchg_joined n s) (initial_state self h)
               (sheep <$> joined_list)) in *.
  assert (Hw : awaits self (corosync_nonblock_event_list s2) = true).
  { rewrite Hq. simpl. apply awaits_intro.
    - apply Forall_forall. intros e He.
      apply list_elem_of_lookup in He as (k & Hk).
      rewrite list_lookup_imap in Hk.
      destruct (_ !! k); simpl in Hk; by simplify_eq.
    - apply existsb_exists in Hown as (a & Ha & Heq).
      apply list_elem_of_In, list_elem_of_lookup in Ha as (k & Hk).
      apply Exists_exists. eexists. split; [|].
      + apply list_elem_of_lookup. exists k.
        by rewrite list_lookup_imap, list_lookup_fmap, Hk.
      + exact Heq. }
  apply joining_corosync_dispatch. right.
  assert (Hs2 : this_node s2 = self)
    by (destruct (same_outside_foldl_joined (sheep <$> joined_list)
                    (initial_state self h)) as (_ & _ & _ & Hs2 & _); done).
  repeat case_match; simpl; by rewrite Hs2.
Qed.

(** C1: on every state that a process reaches which was told of its own
    join first and never of its own departure, and in which
    [join_finished] is false, the event the dispatcher takes is a
    JOIN_REQUEST or a JOIN_RESPONSE at the head of the non-block list.  A
    call of the dispatcher on such a state unlinks only JOIN_RESPONSE
    events, [dropped], from the head of that list.  While [join_finished]
    stays false it changes nothing else: every other event stays where it
    is queued, no handler of the daemon is called, the roster is as it
    was.  And when the call sets [join_finished], it does so at the join
    event at the head of what is left, with all of [rest] still queued and
    nothing processed.  The state in which a callback calls the dispatcher
    is the state its intake leaves, which is the end of the run with
    [pending] set in the last callback. *)
Theorem only_join_events_advance_before_the_join
    (self : cpg_node) (h : host) (cs : list callback) (pending : bool) :
  joins_first self cs = true ->
  let s := final (run cs (initial_state self h)) in
  let s' := final (__corosync_dispatch pending s) in
  join_finished s = false ->
  (forall q cevent,
     first_event s = Some (q, cevent) ->
     q = NONBLOCK_LIST /\ is_join cevent = true) /\
  exists dropped rest,
    corosync_nonblock_event_list s = dropped ++ rest /\
    Forall (fun e => type e = COROSYNC_EVENT_TYPE_JOIN_RESPONSE) dropped /\
    (join_finished s' = false ->
     corosync_nonblock_event_list s' = rest /\
     corosync_block_event_list s' = corosync_block_event_list s /\
     log s' = log s /\ host_state s' = host_state s /\
     roster s' = roster s) /\
    (join_finished s' = true ->
     exists cevent s1,
       head rest = Some cevent /\ is_join cevent = true /\
       update_join_status cevent
         (set_nonblock_list rest (set_nr_majority 0 s)) = Ret tt s1 /\
       join_finished s1 = true).
Proof.
  intros Hcs. simpl.
  assert (Hcases :
    final (run cs (initial_state self h)) = initial_state self h \/
    joining (final (run cs (initial_state self h)))).
  { destruct cs as [|[cmsg p|ms [|l ls] js p] cs]; simpl in Hcs;
      try done; [by left|].
    apply andb_true_iff in Hcs as [Hown Hcs].
    destruct (own_join_joining self h ms js p Hown) as [Hhalt|[Hj Ht]].
    - left. cbn [run]. by rewrite Hhalt.
    - right. cbn [run].
      destruct (handle (CONFCHG ms [] js p) (initial_state self h))
        as [[] s1|h1 s1]; simpl in *; [|done].
      apply run_joining; [by rewrite Ht|done]. }
  clear Hcs. destruct Hcases as [->|[Hjf|Hw]]; intros Hf.
  - split; [done|]. exists [], []. destruct pending; simpl; by split_and!.
  - congruence.
  - destruct (awaits_head _ _ Hw) as (e & l & Hl & Hj & _).
    split.
    { unfold first_event. rewrite Hl. by intros q cevent [= <- <-]. }
    destruct (corosync_dispatch_awaits pending _ Hf Hw)
      as (dropped & rest & Hsplit & Hdropped & _ & Hno & Hyes).
    exists dropped, rest. split_and!; try done.
    intros Hf'. destruct (Hno Hf') as (? & ? & ? & ? & ? & _). done.
Qed.

(** ** The order of the joins and the roster *)

















(** *** Intake *)








(** *** The dispatcher *)











(** *** Runs *)






End Properties.

(** * The driver on a concrete cluster *)

Import Cluster.
#[local] Existing Instance accepting_daemon.

(** C4: [is_master] looks for the first slot that is not gone among all
    [SD_MAX_NODES] slots of [cpg_nodes], not among the [nr_cpg_nodes] entries
    of the roster.  Seen from A after B has left and A has announced its own
    leave, the roster is the one gone entry of A, slot 1 still holds the
    stale copy of B, and [is_master] answers 1 for B, which is not in the
    roster.  When the exit of B is reported next, the driver asks just that
    and marks slot 1, outside the roster, as gone. *)
Theorem is_master_answers_for_a_stale_slot :
  let s := after (bootstrap ++ join_of_B ++ departures) A in
  let s' := after (bootstrap ++ join_of_B ++ departures ++ exit_of_B) A in
  returns (run (bootstrap ++ join_of_B ++ departures) (initial_state A tt))
    = true /\
  nr_cpg_nodes s = 1%nat /\
  node_id <$> roster s = [node_id A] /\
  gone <$> roster s = [1] /\
  node_id (cpg_nodes s !!! 1%nat) = node_id B /\
  gone (cpg_nodes s !!! 1%nat) = 0 /\
  is_master (Some B) s = 1 /\
  nr_cpg_nodes s' = 1%nat /\
  gone (cpg_nodes s' !!! 1%nat) = 1.
Proof. split_and!; by vm_compute. Qed.

(** C1 on B, which was told of its join and is not answered yet, with a
    BLOCK, a NOTIFY and a LEAVE of A delivered meanwhile: the dispatcher
    takes the JOIN_REQUEST of B, and the three stay queued behind it. *)
Lemma only_join_events_advance_before_the_join_witness :
  let s := after join_unanswered B in
  type <$> corosync_nonblock_event_list s
  = [COROSYNC_EVENT_TYPE_JOIN_REQUEST; COROSYNC_EVENT_TYPE_NOTIFY;
     COROSYNC_EVENT_TYPE_LEAVE] /\
  type <$> corosync_block_event_list s = [COROSYNC_EVENT_TYPE_BLOCK] /\
  forall q cevent,
    first_event s = Some (q, cevent) ->
    q = NONBLOCK_LIST /\ is_join cevent = true.
Proof.
  intros s0. split; [by vm_compute|]. split; [by vm_compute|].
  pose proof (only_join_events_advance_before_the_join B tt join_unanswered
                false eq_refl) as Hrun.
  cbv zeta in Hrun. destruct Hrun as [Hfirst _]; [by vm_compute|].
  exact Hfirst.
Defined.

(** C2 does not hold as stated: on A, with no BLOCK event queued at all, the
    delivery of an UNBLOCK of B is not a no-op.  When the dispatcher runs,
    [sd_notify_handler] is called with the payload of the UNBLOCK; when it
    is postponed, a NOTIFY event stays on the non-block list. *)
Lemma unblock_without_block_is_noticed :
  let s := after bootstrap A in
  let cmsg := message COROSYNC_MSG_TYPE_UNBLOCK B [] opaque in
  corosync_block_event_list s = [] /\
  corosync_nonblock_event_list s = [] /\
  returns (cdrv_cpg_deliver cmsg false s) = true /\
  drop (length (log s)) (log (final (cdrv_cpg_deliver cmsg false s)))
  = [UP_notify 7001 (Some opaque) 1] /\
  returns (cdrv_cpg_deliver cmsg true s) = true /\
  type <$> corosync_nonblock_event_list (final (cdrv_cpg_deliver cmsg true s))
  = [COROSYNC_EVENT_TYPE_NOTIFY].
Proof. split_and!; by vm_compute. Qed.

(** C2 as the code has it, on the same state. *)
Lemma unblock_without_block_witness :
  let s := after bootstrap A in
  let cmsg := message COROSYNC_MSG_TYPE_UNBLOCK B [] opaque in
  exists s1,
    cdrv_cpg_deliver cmsg true s = Ret tt s1 /\
    type <$> corosync_nonblock_event_list s1 = [COROSYNC_EVENT_TYPE_NOTIFY] /\
    corosync_block_event_list s1 = corosync_block_event_list s /\
    log s1 = log s.
Proof.
  intros s0 cmsg. remember s0 as s eqn:Hs.
  assert (Hblock : corosync_block_event_list s = [])
    by (rewrite Hs; by vm_compute).
  assert (Hnonblock : corosync_nonblock_event_list s = [])
    by (rewrite Hs; by vm_compute).
  clear Hs.
  destruct (unblock_without_block cmsg true s)
    as (s1 & _ & _ & Hd & Hn & Hb & _ & _ & _ & _ & _ & _ & Hl).
  - reflexivity.
  - rewrite Hblock. constructor.
  - exists s1. split; [exact Hd|]. split; [|by split].
    by rewrite Hn, Hnonblock.
Defined.

(** C3 on the cluster of A: two of three nodes leave in one callback. *)
Lemma partition_guard_witness :
  let s := after bootstrap A in
  cdrv_cpg_confchg [addr A] [addr B; addr C] [] false s
  = Halt (PANIC "Network partition is detected")
      (final (check_network_partition 1 2 s)).
Proof.
  intros s0. remember s0 as s eqn:Hs.
  assert (Hmajority : nr_majority s = 0) by (rewrite Hs; by vm_compute).
  clear Hs.
  destruct (partition_guard [addr A] [addr B; addr C] [] false s)
    as (_ & _ & _ & _ & _ & _ & Hthree).
  - done.
  - by vm_compute.
  - apply Hthree; [by left | reflexivity | reflexivity].
Defined.

(** C5 on a roster of three: deleting B moves C to slot 1. *)
Lemma del_cpg_node_shifts_down_witness :
  del_cpg_node [A; B; C] 3 B !! 1%nat = Some C /\
  take 2 (del_cpg_node [A; B; C] 3 B) = [A; C].
Proof.
  destruct (del_cpg_node_shifts_down [A; B; C] 3 1 B)
    as (_ & _ & _ & Hshift & _ & Htake & _).
  - simpl. lia.
  - reflexivity.
  - split; [apply (Hshift 1%nat); lia | exact Htake].
Defined.

(** C6 on A: the answer to the join of B is processed. *)
Lemma join_response_processed_witness :
  let s := after response_queued A in
  exists cevent s',
    first_event s = Some (NONBLOCK_LIST, cevent) /\
    dispatch_event NONBLOCK_LIST cevent s = Ret true s' /\
    roster s' = roster s ++ [sender cevent] /\
    node_id <$> roster s' = [node_id A; node_id B] /\
    corosync_nonblock_event_list s' = [].
Proof.
  intros s0. remember s0 as s eqn:Hs.
  assert (Hq : fst <$> first_event s = Some NONBLOCK_LIST)
    by (rewrite Hs; by vm_compute).
  assert (Hty : type <$> (snd <$> first_event s)
                = Some COROSYNC_EVENT_TYPE_JOIN_RESPONSE)
    by (rewrite Hs; by vm_compute).
  assert (Hres : result <$> (snd <$> first_event s) = Some CJ_RES_SUCCESS)
    by (rewrite Hs; by vm_compute).
  assert (Hsender : (fun e => node_id (sender e)) <$> (snd <$> first_event s)
                    = Some (node_id B)) by (rewrite Hs; by vm_compute).
  assert (Hjf : join_finished s = true) by (rewrite Hs; by vm_compute).
  assert (Hroom : (nr_cpg_nodes s <? length (cpg_nodes s))%nat = true)
    by (rewrite Hs; by vm_compute).
  assert (Hids : node_id <$> roster s = [node_id A])
    by (rewrite Hs; by vm_compute).
  assert (Hlen : length (events NONBLOCK_LIST s) = 1%nat)
    by (rewrite Hs; by vm_compute).
  clear Hs.
  destruct (first_event s) as [[q cevent]|] eqn:Hfirst; [|done].
  injection Hq as ->. injection Hty as Hty. injection Hres as Hres.
  apply (inj Some) in Hsender. simpl in Hsender.
  destruct (join_response_processed NONBLOCK_LIST cevent s s Hfirst Hty)
    as (s' & Hd & Hr & _ & _ & _ & Hqueue).
  - unfold update_join_status. by rewrite Hjf.
  - exact Hjf.
  - right. by apply Nat.ltb_lt.
  - exists cevent, s'. split; [reflexivity|]. split; [exact Hd|].
    rewrite Hres in Hr. split; [exact Hr|]. split.
    + rewrite Hr, fmap_app, Hids. simpl. by rewrite Hsender.
    + rewrite Hqueue in Hlen. simpl in Hlen.
      apply nil_length_inv. lia.
Defined.


(** C9 on A with a BLOCK and a NOTIFY queued: the NOTIFY is taken. *)
Lemma dispatcher_takes_nonblock_first_witness :
  let s := after block_and_notify_queued A in
  corosync_block_event_list s <> [] /\
  exists cevent,
    first_event s = Some (NONBLOCK_LIST, cevent) /\
    head (events NONBLOCK_LIST s) = Some cevent.
Proof.
  intros s0. remember s0 as s eqn:Hs.
  assert (Hlb : length (corosync_block_event_list s) = 1%nat)
    by (rewrite Hs; by vm_compute).
  assert (Hln : length (corosync_nonblock_event_list s) = 1%nat)
    by (rewrite Hs; by vm_compute).
  clear Hs.
  assert (Hb : corosync_block_event_list s <> [])
    by (intros Hnil; by rewrite Hnil in Hlb).
  assert (Hn : corosync_nonblock_event_list s <> [])
    by (intros Hnil; by rewrite Hnil in Hln).
  split; [exact Hb|].
  destruct (dispatcher_takes_nonblock_first s (or_introl Hb))
    as (q & cevent & Hfirst & Hhead & Hnb & _).
  rewrite (Hnb Hn) in Hfirst, Hhead.
  exists cevent. split; [exact Hfirst | exact Hhead].
Defined.

(** C10 on A: a LEAVE of C, which is not in the roster. *)
Lemma leave_of_unknown_sender_witness :
  let s := after stranger_leaves A in
  exists cevent s',
    first_event s = Some (NONBLOCK_LIST, cevent) /\
    dispatch_event NONBLOCK_LIST cevent s = Ret true s' /\
    log s' = log s /\ roster s' = roster s.
Proof.
  intros s0. remember s0 as s eqn:Hs.
  assert (Hq : fst <$> first_event s = Some NONBLOCK_LIST)
    by (rewrite Hs; by vm_compute).
  assert (Hty : type <$> (snd <$> first_event s)
                = Some COROSYNC_EVENT_TYPE_LEAVE)
    by (rewrite Hs; by vm_compute).
  assert (Hsender : (fun e => node_id (sender e)) <$> (snd <$> first_event s)
                    = Some (node_id C)) by (rewrite Hs; by vm_compute).
  assert (Hids : node_id <$> roster s = [node_id A])
    by (rewrite Hs; by vm_compute).
  assert (Hjf : join_finished s = true) by (rewrite Hs; by vm_compute).
  assert (Hfit : (nr_cpg_nodes s <=? length (cpg_nodes s))%nat = true)
    by (rewrite Hs; by vm_compute).
  clear Hs.
  destruct (first_event s) as [[q cevent]|] eqn:Hfirst; [|done].
  injection Hq as ->. injection Hty as Hty.
  apply (inj Some) in Hsender. simpl in Hsender.
  destruct (leave_of_unknown_sender NONBLOCK_LIST cevent s Hfirst)
    as (s' & Hd & _ & Hl & _ & _ & _ & Hr).
  - exact Hjf.
  - exact Hty.
  - by apply Nat.leb_le.
  - rewrite Hsender. apply Forall_forall. intros n Hn Heq.
    assert (Hin : node_id n ∈ node_id <$> roster s)
      by (by apply list_elem_of_fmap_2).
    rewrite Hids, Heq in Hin. by apply list_elem_of_singleton in Hin.
  - exists cevent, s'. split; [reflexivity|]. split; [exact Hd|].
    split; [exact Hl | exact Hr].
Defined.

(** * The further properties on the concrete cluster *)

(** X2: C is added to the roster of A and B, found, and deleted again. *)
Lemma add_cpg_node_round_trip_witness :
  find_cpg_node (slots [A; B; C]) 3 C = 2 /\
  take 2 (del_cpg_node (slots [A; B; C]) 3 C) = [A; B].
Proof.
  destruct (add_cpg_node_round_trip (slots [A; B]) (slots [A; B; C]) 2 C)
    as (Hfind & _ & Hdel & _); [reflexivity|reflexivity|].
  split; [exact Hfind|exact Hdel].
Defined.

(** X3: B is deleted from the roster of A, B and C. *)
Lemma del_cpg_node_forgets_witness :
  find_cpg_node (del_cpg_node (slots [A; B; C]) 3 B) 2 B = -1.
Proof.
  destruct (del_cpg_node_forgets (slots [A; B; C]) 3 B) as [Hgone _].
  - vm_compute. lia.
  - apply (bool_decide_unpack _). by vm_compute.
  - exact Hgone.
Defined.

(** X4: in the cluster of three, A is the master under either descriptor. *)
Lemma is_master_unique_witness :
  exists i,
    is_master (Some A) (cluster_of_three [] []) = Z.of_nat i /\
    is_master (Some (with_ent 0 A)) (cluster_of_three [] []) = Z.of_nat i /\
    gone (cpg_nodes (cluster_of_three [] []) !!! i) = 0.
Proof.
  destruct (is_master_unique A (with_ent 0 A) (cluster_of_three [] []))
    as [[Hnr _]|(_ & _ & i & Ha & Hb & _ & Hg & _)].
  - by vm_compute.
  - by vm_compute.
  - discriminate Hnr.
  - exists i. split; [exact Ha|]. split; [exact Hb|exact Hg].
Defined.

(** X8: A stays joined while B and then A announce their leave. *)
Lemma join_finished_is_permanent_witness :
  join_finished (final (run departures (cluster_of_three [] []))) = true.
Proof. apply join_finished_is_permanent. reflexivity. Defined.

(** X9: with BLOCK events of C and of B queued, the UNBLOCK of B releases
    the second. *)
Lemma unblock_releases_the_block_witness :
  let s :=
    cluster_of_three [event 0 COROSYNC_EVENT_TYPE_BLOCK C false;
                      event 1 COROSYNC_EVENT_TYPE_BLOCK B true] [] in
  exists s1,
    deliver_message (message COROSYNC_MSG_TYPE_UNBLOCK B [] opaque) s
      = Ret tt s1 /\
    corosync_block_event_list s1
      = [event 0 COROSYNC_EVENT_TYPE_BLOCK C false].
Proof.
  intros s.
  destruct (unblock_releases_the_block
              (message COROSYNC_MSG_TYPE_UNBLOCK B [] opaque) 1 s)
    as (e & s1 & _ & _ & _ & _ & Hdel & Hb & _); [reflexivity|reflexivity|].
  exists s1. split; [exact Hdel|exact Hb].
Defined.

(** X10: the event of D waits for the JOIN_REQUEST of D. *)
Lemma join_request_waits_witness :
  let s :=
    cluster_of_three [] [event 0 COROSYNC_EVENT_TYPE_JOIN_REQUEST D false] in
  __corosync_dispatch false s = Ret tt (set_nr_majority 0 s).
Proof.
  intros s.
  apply (join_request_waits NONBLOCK_LIST
           (event 0 COROSYNC_EVENT_TYPE_JOIN_REQUEST D false) s);
    [reflexivity|reflexivity|reflexivity|].
  right. left. reflexivity.
Defined.

(** X12: eleven [CS_ERR_TRY_AGAIN] in a row. *)
Lemma cpg_initialize_is_tried_eleven_times_witness :
  exists ok calls,
    cpg_initialize_again (replicate 11 CS_ERR_TRY_AGAIN ++ [CS_OK]) 0
      = Some (ok, calls) /\
    (calls <= 11)%nat.
Proof.
  destruct (cpg_initialize_is_tried_eleven_times
              (replicate 11 CS_ERR_TRY_AGAIN ++ [CS_OK]))
    as (ok & calls & Hrun & [_ Hcalls] & _).
  - vm_compute. lia.
  - exists ok, calls. split; [exact Hrun|exact Hcalls].
Defined.


(** X14: the address 10.0.0.1. *)
Lemma local_addr_layout_witness :
  exists ret addr',
    corosync_get_local_addr ten_0_0_1 (replicate 16 Byte.xff)
      = Some (ret, addr') /\
    length addr' = 16%nat.
Proof.
  destruct (local_addr_layout ten_0_0_1 (replicate 16 Byte.xff))
    as (ret & addr' & Hrun & Hlen & _).
  - vm_compute. lia.
  - vm_compute. lia.
  - vm_compute. lia.
  - exists ret, addr'. split; [exact Hrun|exact Hlen].
Defined.

(** X15: B joins at the second attempt. *)
Lemma corosync_join_multicasts_one_request_witness :
  let s := newcomer [] in
  let s' :=
    record (SEND COROSYNC_MSG_TYPE_JOIN_REQUEST CJ_RES_SUCCESS
              (with_ent 7 B) [] 0 (Some opaque) 1)
      (set_this_node (with_ent 7 B) s) in
  node_id (this_node s') = node_id (this_node s).
Proof.
  intros s s'.
  destruct (@corosync_join_multicasts_one_request accepting_daemon 7
              (Some opaque) 1
              [CS_ERR_TRY_AGAIN; CS_OK] [CS_OK] s 0 s') as [Hid _].
  - reflexivity.
  - exact Hid.
Defined.




(** X19: the lists of A while B and then A announce their leave. *)
Lemma queues_stay_sorted_witness :
  sorted_queues (final (run departures (cluster_of_three [] []))).
Proof.
  apply queues_stay_sorted. split; apply Forall_nil_2.
Defined.

(** X20: a BLOCK of B that the daemon has not been asked about. *)
Lemma block_event_waits_for_unblock_witness :
  let s :=
    cluster_of_three [event 0 COROSYNC_EVENT_TYPE_BLOCK B false] [] in
  exists s',
    __corosync_dispatch false s = Ret tt s' /\
    corosync_nonblock_event_list s' = [].
Proof.
  intros s.
  destruct (block_event_waits_for_unblock
              (event 0 COROSYNC_EVENT_TYPE_BLOCK B false) [] s)
    as (s' & Hrun & Hn & _);
    [reflexivity|reflexivity|reflexivity|reflexivity|].
  exists s'. split; [exact Hrun|exact Hn].
Defined.

(** X21: B notifies the cluster of one byte. *)
Lemma payload_reaches_the_notify_handler_witness :
  exists t1,
    corosync_notify (Some opaque) 1 [CS_OK] (newcomer []) = Some (0, t1).
Proof.
  destruct (payload_reaches_the_notify_handler (Some opaque) 1 [CS_OK] 0
              (newcomer []) (cluster_of_three [] []))
    as (t1 & _ & _ & _ & Hrun & _).
  - reflexivity.
  - split; by vm_compute.
  - vm_compute. lia.
  - reflexivity.
  - reflexivity.
  - reflexivity.
  - exists t1. exact Hrun.
Defined.

(** X22: B takes over the roster of the cluster of A and appends itself. *)
Lemma joiner_adopts_the_roster_witness :
  exists s',
    dispatch_event NONBLOCK_LIST response_to_B (newcomer [response_to_B])
      = Ret true s' /\
    roster s' = [A; B].
Proof.
  destruct (joiner_adopts_the_roster NONBLOCK_LIST response_to_B
              (newcomer [response_to_B]))
    as (s' & Hrun & _ & Hroster & _).
  - reflexivity.
  - reflexivity.
  - reflexivity.
  - reflexivity.
  - reflexivity.
  - reflexivity.
  - vm_compute. lia.
  - exists s'. split; [exact Hrun|exact Hroster].
Defined.

(** X23: A, the master of the cluster of three, admits D. *)
Lemma master_admits_a_joiner_witness :
  exists s2 response s3,
    cdrv_cpg_deliver response false s2 = Ret tt s3 /\
    roster s3 = [A; B; C; D].
Proof.
  destruct (@master_admits_a_joiner accepting_daemon
              [addr A; addr B; addr C; addr D]
              (addr D) D opaque 1 CJ_RES_SUCCESS tt (cluster_of_three [] []))
    as (s2 & response & s3 & _ & _ & _ & Hrun & _ & _ & Hroster & _).
  - reflexivity.
  - reflexivity.
  - reflexivity.
  - by vm_compute.
  - reflexivity.
  - vm_compute. lia.
  - by vm_compute.
  - vm_compute. lia.
  - reflexivity.
  - split; by vm_compute.
  - vm_compute. lia.
  - reflexivity.
  - discriminate.
  - exists s2, response, s3. split; [exact Hrun|exact Hroster].
Defined.

(** X24: B, alone in the group, becomes the master. *)
Lemma node_alone_becomes_master_witness :
  exists s',
    cdrv_cpg_confchg [addr B] [] [addr B] false (newcomer []) = Ret tt s' /\
    join_finished s' = true /\
    is_master (Some (this_node s')) s' = 0.
Proof.
  destruct (node_alone_becomes_master [addr B] [addr B] (newcomer []))
    as (s' & Hrun & _ & Hjf & _ & Hmaster & _).
  - reflexivity.
  - reflexivity.
  - reflexivity.
  - vm_compute. lia.
  - vm_compute. lia.
  - discriminate.
  - intros x Hx. exact Hx.
  - exists s'. split; [exact Hrun|]. split; [exact Hjf|exact Hmaster].
Defined.

(** X25: B announces its leave to A. *)
Lemma leave_reaches_the_leave_handler_witness :
  exists m s',
    cdrv_cpg_deliver m false (cluster_of_three [] []) = Ret tt s' /\
    node_id <$> roster s' = [node_id A; node_id C].
Proof.
  destruct (leave_reaches_the_leave_handler [CS_OK] 0 1 (newcomer [])
              (cluster_of_three [] []))
    as (t1 & m & s' & _ & _ & Hrun & _ & _ & _ & Hids & _).
  - reflexivity.
  - reflexivity.
  - reflexivity.
  - reflexivity.
  - vm_compute. lia.
  - reflexivity.
  - exists m, s'. split; [exact Hrun|exact Hids].
Defined.

(** X27: B blocks the cluster. *)
Lemma block_reaches_the_block_handler_witness :
  exists m s',
    cdrv_cpg_deliver m false (cluster_of_three [] []) = Ret tt s' /\
    length (corosync_block_event_list s') = 1%nat.
Proof.
  destruct (block_reaches_the_block_handler [CS_OK] 0 (newcomer [])
              (cluster_of_three [] []))
    as (t1 & m & s' & _ & _ & _ & Hrun & _ & _ & Hb & _).
  - reflexivity.
  - reflexivity.
  - reflexivity.
  - reflexivity.
  - exists m, s'. split; [exact Hrun|]. by rewrite Hb.
Defined.
